(** * paperKernel: word wrap with offsets, edit actions and diff records

    A shallow embedding of [paperKernel.js].  The buffer [paper.text] is the
    single source of truth; visual lines are recomputed from it by
    [layoutWordWrapWithOffsets] on every call, and the edit actions splice
    the buffer through the offsets of the visual lines.

    Strings are lists of characters, indices and lengths are natural
    numbers, and the numbers a caller passes in (line numbers, column
    widths) are JavaScript numbers: a rational, NaN or an infinity. *)

From Stdlib Require Import Ascii String DecimalString.
From Stdlib Require Import List Arith Lia Bool ZArith QArith Qround Qminmax Qabs.
From Stdlib Require Import Sorted Permutation.
Import ListNotations.

Close Scope Q_scope.
Close Scope Z_scope.
Close Scope string_scope.
Open Scope nat_scope.
Open Scope list_scope.

Set Implicit Arguments.

(** ** Strings *)

Definition str := list ascii.

(** A string literal. *)
Definition lit (s : string) : str := list_ascii_of_string s.

Definition is_space (c : ascii) : bool := Ascii.eqb c " "%char.
Definition is_newline (c : ascii) : bool := Ascii.eqb c "010"%char.
Definition not_space (c : ascii) : bool := negb (is_space c).
Definition not_newline (c : ascii) : bool := negb (is_newline c).

(** [x.slice(a, b)] for indices [0 <= a] and [0 <= b]. *)
Definition slice {A : Type} (l : list A) (a b : nat) : list A :=
  firstn (b - a) (skipn a l).

(** Number of leading elements of [l] that satisfy [p]. *)
Fixpoint span (p : ascii -> bool) (l : str) : nat :=
  match l with
  | [] => 0
  | c :: l' => if p c then S (span p l') else 0
  end.

(** [while (k < para.length && p(para[k])) k++], as the final value of [k]. *)
Definition scan (p : ascii -> bool) (para : str) (k : nat) : nat :=
  k + span p (skipn k para).

(** [s.indexOf("\n", i)], with [-1] replaced by [s.length]. *)
Definition indexOfNewline (s : str) (i : nat) : nat := scan not_newline s i.

(** ** Visual lines *)

Record VisualLine : Type := mkLine
  { lineNo : nat; text : str; start : nat; end_ : nat }.

(** The variables of the loop that fills one visual line. *)
Record LineState : Type := mkLineState
  { cursor : nat; lineStartAbs : nat; lineEndAbs : nat; lineText : str }.

(** One pass through a [while] body: go round again, or [break]. *)
Inductive Step (A : Type) : Type :=
| Continue (a : A)
| Break (a : A).
Arguments Continue {A} a.
Arguments Break {A} a.

Definition isEmpty (t : str) : bool :=
  match t with [] => true | _ => false end.

(** Body of the inner loop [while (cursor < para.length) { ... }] that adds
    words to the line being built. *)
Definition fillStep (cols pStart : nat) (para : str) (st : LineState)
  : Step LineState :=
  if cursor st <? length para then
    let wStart := scan is_space para (cursor st) in
    if length para <=? wStart then Break st
    else
      let wEnd := scan not_space para wStart in
      let word := slice para wStart wEnd in
      let candidate :=
        if isEmpty (lineText st) then word
        else lineText st ++ " "%char :: word in
      if length candidate <=? cols then
        Continue
          {| cursor := scan is_space para wEnd;
             lineStartAbs :=
               if isEmpty (lineText st) then pStart + wStart
               else lineStartAbs st;
             lineEndAbs := pStart + wEnd;
             lineText := candidate |}
      else if isEmpty (lineText st) then
        (* single word longer than cols => cut *)
        let cut := slice word 0 cols in
        Break
          {| cursor := wStart + length cut;
             lineStartAbs := pStart + wStart;
             lineEndAbs := pStart + wStart + length cut;
             lineText := cut |}
      else Break st
  else Break st.

(** The inner loop.  Every [Continue] moves [cursor] forward, so
    [length para] rounds are always enough (see [fillLine_fuel]). *)
Fixpoint fillLine (cols pStart : nat) (para : str) (fuel : nat)
  (st : LineState) : LineState :=
  match fuel with
  | 0 => st
  | S fuel' =>
    match fillStep cols pStart para st with
    | Continue st' => fillLine cols pStart para fuel' st'
    | Break st' => st'
    end
  end.

(** The loop [while (cursor < para.length) { ... out.push(...); lineNo++ }]
    over the visual lines of one paragraph; the result is the lines pushed.
    With [cols = 0] a word is cut to nothing, the cursor stays where it is
    and the source never leaves the loop: the model runs out of fuel and
    answers [None]. *)
Fixpoint wrapPara (cols pStart : nat) (para : str) (fuel : nat)
  (cursor0 lineNo0 : nat) : option (list VisualLine) :=
  match fuel with
  | 0 => None
  | S fuel' =>
    if cursor0 <? length para then
      let cursor1 := scan is_space para cursor0 in
      if length para <=? cursor1 then Some []
      else
        let st := fillLine cols pStart para (length para)
                    {| cursor := cursor1;
                       lineStartAbs := pStart + cursor1;
                       lineEndAbs := pStart + cursor1;
                       lineText := [] |} in
        match wrapPara cols pStart para fuel' (cursor st) (S lineNo0) with
        | None => None
        | Some rest =>
          Some ({| lineNo := lineNo0; text := lineText st;
                   start := lineStartAbs st; end_ := lineEndAbs st |} :: rest)
        end
    else Some []
  end.

(** The outer loop [while (i <= s.length) { ... }] over paragraphs. *)
Fixpoint layoutParas (cols : nat) (s : str) (fuel : nat) (i lineNo0 : nat)
  : option (list VisualLine) :=
  match fuel with
  | 0 => None
  | S fuel' =>
    if i <=? length s then
      let pEnd := indexOfNewline s i in
      let pStart := i in
      let para := slice s pStart pEnd in
      match wrapPara cols pStart para (S (length para)) 0 lineNo0 with
      | None => None
      | Some ls =>
        let lineNo1 := lineNo0 + length ls in
        (* empty paragraph still yields one visual line *)
        let emp :=
          if length para =? 0
          then [{| lineNo := lineNo1; text := []; start := pStart; end_ := pStart |}]
          else [] in
        let lineNo2 := lineNo1 + length emp in
        if pEnd =? length s then Some (ls ++ emp)
        else
          match layoutParas cols s fuel' (pEnd + 1) lineNo2 with
          | None => None
          | Some rest => Some (ls ++ emp ++ rest)
          end
      end
    else Some []
  end.

Definition layoutWordWrapWithOffsets (buffer : str) (cols : nat)
  : option (list VisualLine) :=
  match layoutParas cols buffer (S (length buffer)) 0 1 with
  | None => None
  | Some out =>
    Some (if length out =? 0
          then [{| lineNo := 1; text := []; start := 0; end_ := 0 |}]
          else out)
  end.

(** ** JavaScript numbers

    A finite double is a rational.  Comparison, [Math.min], [Math.max] and
    [Math.floor] are exact, and so is taking 1 or 2 from a double that is
    at least 1, which is what the source does with a line number once it
    is clamped; the anchor of a diff, which need not be clamped, loses 2
    under [Math.max(1, ...)] only, where a rounding below 1 does not show.
    [jsadd] and [jssub] are the exact sum and difference.  The start line
    of the preview window need not be whole, and the sum
    [startLine - 1 + windowSize] of a fraction and a whole number is
    rounded to the nearest double: [jsaddR] and [jssubR] are the rounded
    sum and difference.  Whole numbers stand for themselves throughout:
    those of the program are line numbers and lengths of arrays, which
    are below 2^53. *)

Inductive jsnum : Type :=
| Fin (q : Q)
| NaN
| PosInf
| NegInf.

Definition ofNat (n : nat) : jsnum := Fin (inject_Z (Z.of_nat n)).

(** [x || d] for a number [x]: NaN and zero are falsy. *)
Definition orElse (x d : jsnum) : jsnum :=
  match x with
  | NaN => d
  | Fin q => if Qeq_bool q 0 then d else x
  | _ => x
  end.

(** [Math.min(x, y)] and [Math.max(x, y)]. *)
Definition jsmin (x y : jsnum) : jsnum :=
  match x, y with
  | NaN, _ | _, NaN => NaN
  | NegInf, _ | _, NegInf => NegInf
  | PosInf, z | z, PosInf => z
  | Fin a, Fin b => Fin (Qmin a b)
  end.

Definition jsmax (x y : jsnum) : jsnum :=
  match x, y with
  | NaN, _ | _, NaN => NaN
  | PosInf, _ | _, PosInf => PosInf
  | NegInf, z | z, NegInf => z
  | Fin a, Fin b => Fin (Qmax a b)
  end.

(** [x + k] and [x - k] for a finite [k]. *)
Definition jsadd (x : jsnum) (k : Q) : jsnum :=
  match x with
  | Fin q => Fin (q + k)%Q
  | _ => x
  end.

Definition jssub (x : jsnum) (k : Q) : jsnum := jsadd x (- k)%Q.

Definition isInteger (q : Q) : bool := Qeq_bool q (inject_Z (Qfloor q)).

Definition pow2 (e : Z) : Q := Qpower 2 e.

(** The binary exponent of a rational above zero: the [e] with
    [2^e <= q < 2^(e+1)]. *)
Definition exponentOf (q : Q) : Z :=
  let e := (Z.log2 (Qnum q) - Z.log2 (Zpos (Qden q)))%Z in
  if Qle_bool (pow2 e) q then e else (e - 1)%Z.

(** The nearest integer, and the even one of the two when they are
    equally near. *)
Definition roundHalfEven (x : Q) : Z :=
  let f := Qfloor x in
  match Qcompare (x - inject_Z f) (1 # 2) with
  | Lt => f
  | Gt => (f + 1)%Z
  | Eq => if Z.even f then f else (f + 1)%Z
  end.

(** The nearest double: 53 significant bits, exponents from -1022 to
    1023 (below that the spacing stays at 2^-1074), ties to the even
    significand, and an infinity from 2^1024 on. *)
Definition toDouble (q : Q) : jsnum :=
  if Qeq_bool q 0 then Fin q
  else
    let e := Z.max (exponentOf (Qabs q)) (-1022) in
    let ulp := pow2 (e - 52) in
    let r := (inject_Z (roundHalfEven (q / ulp)) * ulp)%Q in
    if Qle_bool (pow2 1024) r then PosInf
    else if Qle_bool r (- pow2 1024) then NegInf
    else Fin r.

(** [x + k] and [x - k] as the double that the source computes. *)
Definition jsaddR (x : jsnum) (k : Q) : jsnum :=
  match x with
  | Fin q => if isInteger (q + k) then Fin (q + k)%Q else toDouble (q + k)
  | _ => x
  end.

Definition jssubR (x : jsnum) (k : Q) : jsnum := jsaddR x (- k)%Q.

(** Rounding towards zero. *)
Definition Qtrunc (q : Q) : Z :=
  if Qle_bool 0 q then Qfloor q else Qceiling q.

(** [arr[x]]: an element for an integer index within the array, and
    [undefined] (here [None]) for every other number. *)
Definition index {A : Type} (arr : list A) (x : jsnum) : option A :=
  match x with
  | Fin q =>
    if isInteger q && Qle_bool 0 q
    then nth_error arr (Z.to_nat (Qfloor q))
    else None
  | _ => None
  end.

(** How [Array.prototype.slice] reads one of its arguments against an array
    of length [len]: NaN is 0, a fraction is cut off, a negative number
    counts from the end, and the result is clamped into [0, len]. *)
Definition relIndex (len : nat) (x : jsnum) : nat :=
  match x with
  | NaN => 0
  | NegInf => 0
  | PosInf => len
  | Fin q =>
    let z := Qtrunc q in
    if (z <? 0)%Z then Z.to_nat (Z.max (Z.of_nat len + z) 0)
    else Nat.min (Z.to_nat z) len
  end.

(** [arr.slice(a, b)] *)
Definition jsslice {A : Type} (arr : list A) (a b : jsnum) : list A :=
  slice arr (relIndex (length arr) a) (relIndex (length arr) b).

(** [Number(x) || d] for a non-negative integer [x]. *)
Definition orNat (x d : nat) : nat := if x =? 0 then d else x.

(** ** Whitespace

    Characters are one byte wide here; the white space of [trim] and of
    [\s] among them is TAB, LF, VT, FF, CR, space and NBSP. *)

Definition is_ws (c : ascii) : bool :=
  let n := nat_of_ascii c in
  ((9 <=? n) && (n <=? 13)) || (n =? 32) || (n =? 160).

Fixpoint trimStart (l : str) : str :=
  match l with
  | [] => []
  | c :: l' => if is_ws c then trimStart l' else l
  end.

Definition trimEnd (l : str) : str := rev (trimStart (rev l)).

(** [x.trim()] *)
Definition trim (l : str) : str := trimEnd (trimStart l).

(** [x.replace(/\s+/g, " ")]; [inRun] says that the previous character was
    white space, already replaced. *)
Fixpoint collapseFrom (inRun : bool) (l : str) : str :=
  match l with
  | [] => []
  | c :: l' =>
    if is_ws c then
      if inRun then collapseFrom true l' else " "%char :: collapseFrom true l'
    else c :: collapseFrom false l'
  end.

Definition collapseWs (l : str) : str := collapseFrom false l.

(** [x.endsWith("\n")] *)
Definition endsWithNewline (l : str) : bool :=
  match rev l with
  | c :: _ => is_newline c
  | [] => false
  end.

(** ** Diff annotation *)

Definition dquote : ascii := "034"%char.

Definition escChar (c : ascii) : str :=
  if Ascii.eqb c "&"%char then lit "&amp;"
  else if Ascii.eqb c "<"%char then lit "&lt;"
  else if Ascii.eqb c ">"%char then lit "&gt;"
  else if Ascii.eqb c dquote then lit "&quot;"
  else if Ascii.eqb c "'"%char then lit "&#039;"
  else [c].

Definition escHtml (s : str) : str := flat_map escChar s.

(** Which visual lines overlap the range [absStart, absEnd) of the buffer. *)
Definition computeHighlightLinesByAbsRange (visLines : list VisualLine)
  (absStart absEnd : nat) : list nat :=
  let a := Nat.max 0 (orNat absStart 0) in
  let b := Nat.max a (orNat absEnd a) in
  map lineNo
    (filter (fun v => (start v <? b) && (a <? end_ v)) visLines).

Module Annot.
Record t : Type := mk { startLine : jsnum; htmlLines : list str }.
End Annot.

Definition buildAnnotWindow (afterVis : list VisualLine) (startLine : jsnum)
  (windowSize : Q) (highlightSet : list nat) : Annot.t :=
  let part :=
    jsslice afterVis (jssubR startLine 1)
      (jsaddR (jssubR startLine 1) windowSize) in
  let htmlLines :=
    map (fun v =>
           let t := text v in
           if isEmpty t then []
           else if existsb (Nat.eqb (lineNo v)) highlightSet then
             lit "<span class=" ++ dquote :: lit "newLineFull" ++ dquote ::
             lit ">" ++ escHtml t ++ lit "</span>"
           else escHtml t)
        part in
  {| Annot.startLine := startLine; Annot.htmlLines := htmlLines |}.

Module Diff.
Record t : Type := mk
  { anchorLine : jsnum;
    removedText : option str;
    removedLines : option (list str);
    highlightLines : list nat;
    annot : Annot.t }.
End Diff.

(** ** The kernel state *)

Module Paper.
Record t : Type := mk
  { cols : nat; rev : nat; text : str; diff : option Diff.t }.
End Paper.

(** [createPaperKernel({ cols })] *)
Definition createPaperKernel (cols : nat) : Paper.t :=
  {| Paper.cols := cols; Paper.rev := 0; Paper.text := []; Paper.diff := None |}.

Definition defaultCols : nat := 26.

(** An action takes the state and gives a result and the state after it;
    [None] when the source does not return (an exception, or the wrap
    loop running for ever). *)
Definition Action (A : Type) : Type := Paper.t -> option (A * Paper.t).

Definition getVisualLines (paper : Paper.t) : option (list VisualLine) :=
  layoutWordWrapWithOffsets (Paper.text paper) (Paper.cols paper).

Definition clearDiff (paper : Paper.t) : Paper.t :=
  {| Paper.cols := Paper.cols paper; Paper.rev := Paper.rev paper;
     Paper.text := Paper.text paper; Paper.diff := None |}.

Definition _setDiff (anchorLine : jsnum) (removedText : option str)
  (removedLines : option (list str)) (highlightLines : list nat)
  : Action unit :=
  fun paper =>
    match getVisualLines paper with
    | None => None
    | Some afterVis =>
      let winStart := jsmax (Fin 1) (jssub (orElse anchorLine (Fin 1)) 2) in
      let annot := buildAnnotWindow afterVis winStart 45 highlightLines in
      Some (tt,
            {| Paper.cols := Paper.cols paper; Paper.rev := Paper.rev paper;
               Paper.text := Paper.text paper;
               Paper.diff :=
                 Some {| Diff.anchorLine := orElse anchorLine (Fin 1);
                         Diff.removedText := removedText;
                         Diff.removedLines := removedLines;
                         Diff.highlightLines := highlightLines;
                         Diff.annot := annot |} |})
    end.

Module ReplaceResult.
Record t : Type := mk
  { ok : bool;
    anchorLine : jsnum;
    removedText : option str;
    removedLines : option (list str);
    paper_rev : nat;
    highlightLines : list nat;
    op : option str;
    clearedLine : option jsnum }.
End ReplaceResult.

(** Core replace on a visual line, through its offsets into the buffer. *)
Definition _writeReplaceInternal (anchorLine : jsnum) (newText : str)
  : Action ReplaceResult.t :=
  fun paper =>
    match getVisualLines paper with
    | None => None
    | Some beforeVis =>
      let N := jsmax (Fin 1)
                 (jsmin (orElse anchorLine (Fin 1)) (ofNat (length beforeVis))) in
      match index beforeVis (jssub N 1) with
      | None => None (* target is undefined: reading target.text throws *)
      | Some target =>
        let oldText := text target in
        let start := start target in
        let end_ := end_ target in
        let rep := trim (collapseWs newText) in
        (* apply replace into the buffer *)
        let paper1 :=
          {| Paper.cols := Paper.cols paper;
             Paper.rev := S (Paper.rev paper);
             Paper.text :=
               slice (Paper.text paper) 0 start ++ rep
               ++ skipn end_ (Paper.text paper);
             Paper.diff := Paper.diff paper |} in
        match getVisualLines paper1 with
        | None => None
        | Some afterVis =>
          let absStart := start in
          let absEnd := start + length rep in
          let highlightLines :=
            computeHighlightLinesByAbsRange afterVis absStart absEnd in
          let isClear := length rep =? 0 in
          match _setDiff N (if isClear then None else Some oldText)
                         (if isClear then Some [oldText] else None)
                         highlightLines paper1 with
          | None => None
          | Some (_, paper2) =>
            Some ({| ReplaceResult.ok := true;
                     ReplaceResult.anchorLine := N;
                     ReplaceResult.removedText :=
                       if isClear then None else Some oldText;
                     ReplaceResult.removedLines :=
                       if isClear then Some [oldText] else None;
                     ReplaceResult.paper_rev := Paper.rev paper2;
                     ReplaceResult.highlightLines := highlightLines;
                     ReplaceResult.op := None;
                     ReplaceResult.clearedLine := None |},
                  paper2)
          end
        end
      end
    end.

Definition withOp (op : string) (clearedLine : option jsnum)
  (r : ReplaceResult.t) : ReplaceResult.t :=
  {| ReplaceResult.ok := ReplaceResult.ok r;
     ReplaceResult.anchorLine := ReplaceResult.anchorLine r;
     ReplaceResult.removedText := ReplaceResult.removedText r;
     ReplaceResult.removedLines := ReplaceResult.removedLines r;
     ReplaceResult.paper_rev := ReplaceResult.paper_rev r;
     ReplaceResult.highlightLines := ReplaceResult.highlightLines r;
     ReplaceResult.op := Some (lit op);
     ReplaceResult.clearedLine := clearedLine |}.

Module ReadResult.
Record t : Type := mk
  { rev : nat; startLine : jsnum; endLine : jsnum; lines : list VisualLine }.
End ReadResult.

(** [actions.read({ startLine, endLine })]; each line of the result carries
    the number, text and offsets of its visual line. *)
Definition read (startLine endLine : jsnum) : Action ReadResult.t :=
  fun paper =>
    match getVisualLines paper with
    | None => None
    | Some vis =>
      let s := jsmax (Fin 1)
                 (jsmin (orElse startLine (Fin 1)) (ofNat (length vis))) in
      let e := jsmax s (jsmin (orElse endLine s) (ofNat (length vis))) in
      let lines := jsslice vis (jssub s 1) e in
      Some ({| ReadResult.rev := Paper.rev paper;
               ReadResult.startLine := s;
               ReadResult.endLine := e;
               ReadResult.lines := lines |},
            paper)
    end.

(** [actions.write_replace({ anchorLine, newText })] *)
Definition write_replace (anchorLine : jsnum) (newText : str)
  : Action ReplaceResult.t :=
  fun paper =>
    match _writeReplaceInternal anchorLine newText paper with
    | None => None
    | Some (r, paper') => Some (withOp "write_replace" None r, paper')
    end.

(** [actions.clear_line({ line })] *)
Definition clear_line (line : jsnum) : Action ReplaceResult.t :=
  fun paper =>
    match _writeReplaceInternal line [] paper with
    | None => None
    | Some (r, paper') =>
      Some (withOp "clear_line" (Some (ReplaceResult.anchorLine r)) r, paper')
    end.

Module AppendResult.
Record t : Type := mk
  { ok : bool;
    op : str;
    reason : option str;
    paper_rev : nat;
    highlightLines : option (list nat) }.
End AppendResult.

(** [actions.write_append({ text, ensureNewParagraph })] *)
Definition write_append (text : str) (ensureNewParagraph : bool)
  : Action AppendResult.t :=
  fun paper =>
    match getVisualLines paper with
    | None => None
    | Some beforeVis =>
      let beforeLen := length (Paper.text paper) in
      let ins := trim text in
      if isEmpty ins then
        Some ({| AppendResult.ok := false;
                 AppendResult.op := lit "write_append";
                 AppendResult.reason := Some (lit "empty_text");
                 AppendResult.paper_rev := Paper.rev paper;
                 AppendResult.highlightLines := None |},
              paper)
      else
        let needsNL :=
          ensureNewParagraph && (0 <? length (Paper.text paper))
          && negb (endsWithNewline (Paper.text paper)) in
        let absStart := beforeLen + (if needsNL then 1 else 0) in
        let paper1 :=
          {| Paper.cols := Paper.cols paper;
             Paper.rev := S (Paper.rev paper);
             Paper.text :=
               Paper.text paper ++ (if needsNL then ["010"%char] else []) ++ ins;
             Paper.diff := Paper.diff paper |} in
        match getVisualLines paper1 with
        | None => None
        | Some afterVis =>
          let absEnd := absStart + length ins in
          let highlightLines :=
            computeHighlightLinesByAbsRange afterVis absStart absEnd in
          match _setDiff (jsmax (Fin 1) (ofNat (length beforeVis))) None None
                         highlightLines paper1 with
          | None => None
          | Some (_, paper2) =>
            Some ({| AppendResult.ok := true;
                     AppendResult.op := lit "write_append";
                     AppendResult.reason := None;
                     AppendResult.paper_rev := Paper.rev paper2;
                     AppendResult.highlightLines := Some highlightLines |},
                  paper2)
          end
        end
    end.

(** [setCols(n)] *)
Definition setCols (n : jsnum) (paper : Paper.t) : Paper.t :=
  match n with
  | Fin q =>
    if Qle_bool 10 q && Qle_bool q 120 then
      {| Paper.cols := Z.to_nat (Qfloor q); Paper.rev := Paper.rev paper;
         Paper.text := Paper.text paper; Paper.diff := Paper.diff paper |}
    else paper
  | _ => paper
  end.

(** [seed(text)] *)
Definition seed (text : str) (paper : Paper.t) : Paper.t :=
  {| Paper.cols := Paper.cols paper; Paper.rev := S (Paper.rev paper);
     Paper.text := text; Paper.diff := None |}.

(** [clear()] *)
Definition clear (paper : Paper.t) : Paper.t :=
  {| Paper.cols := Paper.cols paper; Paper.rev := S (Paper.rev paper);
     Paper.text := []; Paper.diff := None |}.

Module ClearAllResult.
Record t : Type := mk
  { ok : bool; op : str; paper_rev : nat; removedLinesCount : nat }.
End ClearAllResult.

(** [actions.clear_all()] *)
Definition clear_all : Action ClearAllResult.t :=
  fun paper =>
    match getVisualLines paper with
    | None => None
    | Some beforeVis =>
      let removedLines := map text beforeVis in
      let paper1 :=
        {| Paper.cols := Paper.cols paper; Paper.rev := S (Paper.rev paper);
           Paper.text := []; Paper.diff := Paper.diff paper |} in
      match _setDiff (Fin 1) None (Some removedLines) [] paper1 with
      | None => None
      | Some (_, paper2) =>
        Some ({| ClearAllResult.ok := true;
                 ClearAllResult.op := lit "clear_all";
                 ClearAllResult.paper_rev := Paper.rev paper2;
                 ClearAllResult.removedLinesCount := length removedLines |},
              paper2)
      end
    end.

(** ** Further actions *)

(** [x < y] and [x >= y] on numbers; a comparison with NaN is false. *)
Definition jsltb (x y : jsnum) : bool :=
  match x, y with
  | NaN, _ | _, NaN => false
  | Fin a, Fin b => negb (Qle_bool b a)
  | NegInf, NegInf => false
  | NegInf, _ => true
  | _, PosInf => match x with PosInf => false | _ => true end
  | _, _ => false
  end.

Definition jsgeb (x y : jsnum) : bool :=
  match x, y with
  | NaN, _ | _, NaN => false
  | Fin a, Fin b => Qle_bool b a
  | PosInf, _ => true
  | _, NegInf => true
  | _, _ => false
  end.

(** [x.toLowerCase()] for characters one byte wide: the letters A to Z and
    the capital letters of Latin-1 move 32 places up. *)
Definition toLowerChar (c : ascii) : ascii :=
  let n := nat_of_ascii c in
  if ((65 <=? n) && (n <=? 90))
     || ((192 <=? n) && (n <=? 222) && negb (n =? 215))
  then ascii_of_nat (n + 32)
  else c.

Definition toLowerCase (s : str) : str := map toLowerChar s.

Fixpoint startsWith (q s : str) : bool :=
  match q, s with
  | [], _ => true
  | _ :: _, [] => false
  | a :: q', b :: s' => Ascii.eqb a b && startsWith q' s'
  end.

(** [s.includes(q)] *)
Fixpoint includes (s q : str) : bool :=
  startsWith q s
  || match s with
     | [] => false
     | _ :: s' => includes s' q
     end.

(** [arr.join(sep)] *)
Fixpoint join (sep : str) (arr : list str) : str :=
  match arr with
  | [] => []
  | x :: rest =>
    match rest with
    | [] => x
    | _ :: _ => x ++ sep ++ join sep rest
    end
  end.

(** A natural number in decimal, as a template string prints it. *)
Definition decimal (n : nat) : str :=
  list_ascii_of_string (NilEmpty.string_of_uint (Nat.to_uint n)).

(** One row of the head listing: the line number, a bar, a space and the
    text of the line. *)
Definition headRow (v : VisualLine) : str :=
  decimal (lineNo v) ++ lit "| " ++ text v.

(** The head listing: the first twelve lines, one row each. *)
Definition headListing (vis : list VisualLine) : str :=
  join ["010"%char] (map headRow (slice vis 0 (Nat.min 12 (length vis)))).

Module StateView.
Record t : Type := mk
  { paper_rev : nat;
    cols : nat;
    text : str;
    lineCount : nat;
    head : str;
    diff : option Diff.t;
    visual : option (list (nat * str)) }.
End StateView.

(** [getState({ includeVisual })] *)
Definition getState (includeVisual : bool) (paper : Paper.t)
  : option StateView.t :=
  match getVisualLines paper with
  | None => None
  | Some vis =>
    Some {| StateView.paper_rev := Paper.rev paper;
            StateView.cols := Paper.cols paper;
            StateView.text := Paper.text paper;
            StateView.lineCount := length vis;
            StateView.head := headListing vis;
            StateView.diff := Paper.diff paper;
            StateView.visual :=
              if includeVisual
              then Some (map (fun v => (lineNo v, text v)) vis)
              else None |}
  end.

Module SearchHit.
Record t : Type := mk { line : nat; text : str }.
End SearchHit.

Inductive SearchResult : Type :=
| HeadResult (rev lineCount : nat) (head : str)
| HitsResult (rev : nat) (query : str) (hits : list SearchHit.t).

(** [actions.search({ query, topK })] *)
Definition search (query : str) (topK : jsnum) : Action SearchResult :=
  fun paper =>
    let q := toLowerCase (trim query) in
    match getVisualLines paper with
    | None => None
    | Some vis =>
      if isEmpty q then
        Some (HeadResult (Paper.rev paper) (length vis) (headListing vis), paper)
      else
        let hits :=
          map (fun v => {| SearchHit.line := lineNo v; SearchHit.text := text v |})
            (filter (fun v => includes (toLowerCase (text v)) q) vis) in
        Some (HitsResult (Paper.rev paper) q (jsslice hits (Fin 0) topK), paper)
    end.

Definition defaultTopK : jsnum := Fin 8.

Module Applied.
Record t : Type := mk
  { line : jsnum; removedLines : option (list str); paper_rev : nat }.
End Applied.

(** The loop [for (let L = e; L >= s; L--) { ... }] of [clear_range]: the
    texts removed so far, top down, the steps applied so far, and the
    state.  Each round takes one from [L], which starts no higher than the
    number of lines, so that many rounds and one more test are enough. *)
Fixpoint clearLoop (fuel : nat) (L s : jsnum) (removedTopDown : list str)
  (applied : list Applied.t) : Action (list str * list Applied.t) :=
  fun paper =>
    match fuel with
    | 0 => None
    | S fuel' =>
      if jsgeb L s then
        match getVisualLines paper with
        | None => None
        | Some beforeNow =>
          let t := index beforeNow
                     (jsmax (Fin 0)
                        (jssub (jsmin L (ofNat (length beforeNow))) 1)) in
          let oldText := match t with Some v => text v | None => [] end in
          match _writeReplaceInternal L [] paper with
          | None => None
          | Some (r, paper') =>
            clearLoop fuel' (jssub L 1) s (oldText :: removedTopDown)
              (applied ++
               [{| Applied.line := ReplaceResult.anchorLine r;
                   Applied.removedLines := ReplaceResult.removedLines r;
                   Applied.paper_rev := ReplaceResult.paper_rev r |}])
              paper'
          end
        end
      else Some ((removedTopDown, applied), paper)
    end.

Module ClearRangeResult.
Record t : Type := mk
  { ok : bool;
    op : str;
    startLine : jsnum;
    endLine : jsnum;
    appliedCount : nat;
    removedLines : list str;
    applied : list Applied.t;
    paper_rev : nat }.
End ClearRangeResult.

(** [actions.clear_range({ startLine, endLine })] *)
Definition clear_range (startLine endLine : jsnum)
  : Action ClearRangeResult.t :=
  fun paper =>
    match getVisualLines paper with
    | None => None
    | Some before =>
      let maxLine := ofNat (length before) in
      let s0 := jsmax (Fin 1) (jsmin (orElse startLine (Fin 1)) maxLine) in
      let e0 := jsmax (Fin 1) (jsmin (orElse endLine s0) maxLine) in
      let s := if jsltb e0 s0 then e0 else s0 in
      let e := if jsltb e0 s0 then s0 else e0 in
      (* bottom-up apply *)
      match clearLoop (S (length before)) e s [] [] paper with
      | None => None
      | Some ((removedTopDown, applied), paper1) =>
        match _setDiff s None (Some removedTopDown) [] paper1 with
        | None => None
        | Some (_, paper2) =>
          Some ({| ClearRangeResult.ok := true;
                   ClearRangeResult.op := lit "clear_range";
                   ClearRangeResult.startLine := s;
                   ClearRangeResult.endLine := e;
                   ClearRangeResult.appliedCount := length applied;
                   ClearRangeResult.removedLines := removedTopDown;
                   ClearRangeResult.applied := applied;
                   ClearRangeResult.paper_rev := Paper.rev paper2 |},
                paper2)
        end
      end
    end.

(** ** Words and paragraphs

    The vocabulary in which the properties of the layout are stated. *)

(** The maximal runs of characters that are not separators, in order;
    [cur] is the word being read. *)
Fixpoint wordsFrom (sep : ascii -> bool) (cur : str) (l : str) : list str :=
  match l with
  | [] => if isEmpty cur then [] else [cur]
  | c :: l' =>
    if sep c then
      if isEmpty cur then wordsFrom sep [] l' else cur :: wordsFrom sep [] l'
    else wordsFrom sep (cur ++ [c]) l'
  end.

Definition words (sep : ascii -> bool) (l : str) : list str :=
  wordsFrom sep [] l.

(** The separators of the layout: a newline ends a paragraph, a space ends
    a word. *)
Definition is_sep (c : ascii) : bool := is_space c || is_newline c.

(** The words of a whole buffer, paragraph after paragraph. *)
Definition bufferWords (s : str) : list str := words is_sep s.

(** The words shown by a list of visual lines, line after line. *)
Definition renderedWords (vis : list VisualLine) : list str :=
  flat_map (fun v => words is_space (text v)) vis.

(** The characters of a buffer that are neither spaces nor newlines. *)
Definition inkOf (s : str) : str := filter (fun c => negb (is_sep c)) s.

(** The characters other than spaces shown by a list of visual lines. *)
Definition renderedInk (vis : list VisualLine) : str :=
  flat_map (fun v => filter not_space (text v)) vis.

(** A paragraph is a maximal run of text between newlines. *)
Definition paragraphCount (s : str) : nat := S (length (filter is_newline s)).

Definition spaces (n : nat) : str := repeat " "%char n.

(** The lines of a layout are in order: numbered from [n] on without gaps,
    none starts before [lo], none ends before it starts, and each starts
    no earlier than the one before it ends. *)
Fixpoint ordered (lo n : nat) (vis : list VisualLine) : Prop :=
  match vis with
  | [] => True
  | v :: vis' =>
    lineNo v = n /\ lo <= start v /\ start v <= end_ v
    /\ ordered (end_ v) (S n) vis'
  end.

(** ** The vocabulary of the properties *)

Definition allSpaces (l : str) : Prop := Forall (fun c => is_space c = true) l.
Definition noSpaces (l : str) : Prop := Forall (fun c => is_space c = false) l.

(** Nothing, or something that begins with a space. *)
Definition atWordEnd (l : str) : Prop :=
  l = [] \/ exists c r, l = c :: r /\ is_space c = true.

(** The line with one more word: [lineText ? lineText + " " + word : word]. *)
Definition candidateOf (st : LineState) (word : str) : str :=
  if isEmpty (lineText st) then word else lineText st ++ " "%char :: word.

(** The cursor and the offsets of the line stay within bounds, and the
    text of the line within the width. *)
Definition lineBounds (cols pStart : nat) (para : str) (c1 : nat)
  (st : LineState) : Prop :=
  c1 <= cursor st /\ cursor st <= length para
  /\ pStart + c1 <= lineStartAbs st
  /\ lineStartAbs st <= lineEndAbs st
  /\ lineEndAbs st <= pStart + cursor st
  /\ length (lineText st) <= cols.

(** The words on the line and the words still to come. *)
Definition wordsAhead (para : str) (st : LineState) : list str :=
  words is_space (lineText st) ++ words is_space (skipn (cursor st) para).

(** The same for the characters that are not spaces. *)
Definition inkAhead (para : str) (st : LineState) : str :=
  filter not_space (lineText st) ++ filter not_space (skipn (cursor st) para).

(** The state in which the line loop is entered at [c1]. *)
Definition lineInit (pStart c1 : nat) : LineState :=
  {| cursor := c1; lineStartAbs := pStart + c1; lineEndAbs := pStart + c1;
     lineText := [] |}.

(** The state in which the line loop is left, for the line that is begun
    with the cursor at [c0]. *)
Definition lineFrom (cols pStart : nat) (para : str) (c0 : nat) : LineState :=
  fillLine cols pStart para (length para)
    (lineInit pStart (scan is_space para c0)).

Definition lineOf (n : nat) (st : LineState) : VisualLine :=
  {| lineNo := n; text := lineText st; start := lineStartAbs st;
     end_ := lineEndAbs st |}.

(** What the paragraph loop pushes, for [cols >= 1]: lines in order, within
    the paragraph and within the width, that show the words and the ink of
    the rest of the paragraph. *)
Definition paraLinesOk (cols pStart : nat) (para : str) (c ln : nat)
  (ls : list VisualLine) : Prop :=
  ordered (pStart + c) ln ls
  /\ Forall (fun v => end_ v <= pStart + length para) ls
  /\ Forall (fun v => length (text v) <= cols) ls
  /\ renderedInk ls = filter not_space (skipn c para)
  /\ (Forall (fun w => length w <= cols) (words is_space (skipn c para)) ->
      renderedWords ls = words is_space (skipn c para)).

Definition noNewlines (l : str) : Prop := Forall (fun c => is_newline c = false) l.

(** The line pushed for an empty paragraph. *)
Definition emptyLine (para : str) (n pStart : nat) : list VisualLine :=
  if length para =? 0
  then [{| lineNo := n; text := []; start := pStart; end_ := pStart |}]
  else [].

Definition fallbackLine : VisualLine :=
  {| lineNo := 1; text := []; start := 0; end_ := 0 |}.

(** What the buffer loop pushes for the rest of the buffer from [i] on. *)
Definition showsRest (cols : nat) (s : str) (i : nat)
  (out : list VisualLine) : Prop :=
  Forall (fun v => length (text v) <= cols) out
  /\ renderedInk out = inkOf (skipn i s)
  /\ (Forall (fun w => length w <= cols) (bufferWords (skipn i s)) ->
      renderedWords out = bufferWords (skipn i s)).

(** A paragraph starts at [k], at or after [i]. *)
Definition startsAt (s : str) (i k : nat) : Prop :=
  k = i \/ (i < k /\ exists c, nth_error s (k - 1) = Some c /\ is_newline c = true).

(** From [k] on the buffer has [n] spaces and then a newline or its end. *)
Definition blankAt (s : str) (k n : nat) : Prop :=
  k + n <= length s
  /\ allSpaces (firstn n (skipn k s))
  /\ (k + n = length s
      \/ exists c r, skipn (k + n) s = c :: r /\ is_newline c = true).

(** The lines pushed for a paragraph of [n] spaces at [k] stand between the
    lines [la] of the paragraphs before it and the lines [lb] of those
    after it: one empty line when [n = 0], and none at all otherwise. *)
Definition blankParaLines (s : str) (i ln : nat) (out : list VisualLine) : Prop :=
  ordered i ln out
  /\ forall k n,
      startsAt s i k -> blankAt s k n ->
      exists la lb,
        out = la ++ emptyLine (spaces n) (ln + length la) k ++ lb
        /\ Forall (fun v => end_ v < k) la
        /\ Forall (fun v => k + n < start v) lb.

(** Text that is empty or ends with a newline, and text that is empty or
    begins with one: what stands before and after a paragraph. *)
Definition endsPara (a : str) : Prop :=
  a = [] \/ exists a', a = a' ++ ["010"%char].

Definition beginsPara (b : str) : Prop :=
  b = [] \/ exists b', b = "010"%char :: b'.

(** [Math.max(lo, Math.min(x || d, len))] on integers. *)
Definition clampLineZ (lo d x len : Z) : Z :=
  Z.max lo (Z.min (if (x =? 0)%Z then d else x) len).

(** The words joined by single spaces. *)
Definition unwords (ws : list str) : str := join [" "%char] ws.

(** The line being built shows its span of the paragraph: it runs from
    [a] to [b] within the paragraph, and its text is the words of that
    span joined by single spaces. *)
Definition lineSpan (pStart : nat) (para : str) (st : LineState) (a b : nat)
  : Prop :=
  lineStartAbs st = pStart + a /\ lineEndAbs st = pStart + b
  /\ a <= b /\ b <= cursor st /\ cursor st <= length para
  /\ lineText st = unwords (words is_space (slice para a b))
  /\ (lineText st = [] <-> a = b).

(** Between the end of the line being built and the cursor there are only
    spaces, and at least one unless the paragraph is at its end. *)
Definition lineGap (para : str) (st : LineState) (b : nat) : Prop :=
  allSpaces (slice para b (cursor st))
  /\ (lineText st <> [] -> b = cursor st -> length para <= cursor st).

(** A visual line shows its span of the paragraph that starts at
    [pStart]. *)
Definition lineShowsSpan (pStart : nat) (para : str) (v : VisualLine) : Prop :=
  exists a b,
    start v = pStart + a /\ end_ v = pStart + b /\ a <= b /\ b <= length para
    /\ text v = unwords (words is_space (slice para a b))
    /\ (text v = [] <-> a = b).

(** A visual line shows its span of the buffer. *)
Definition showsSpan (s : str) (v : VisualLine) : Prop :=
  start v <= end_ v /\ end_ v <= length s
  /\ noNewlines (slice s (start v) (end_ v))
  /\ text v = unwords (words is_space (slice s (start v) (end_ v)))
  /\ (text v = [] <-> start v = end_ v).

(** The test of [computeHighlightLinesByAbsRange] for one line. *)
Definition overlaps (a b : nat) (v : VisualLine) : bool :=
  (start v <? b) && (a <? end_ v).

(** No two spaces side by side. *)
Fixpoint singleSpaced (l : str) : bool :=
  match l with
  | [] => true
  | c :: l' =>
    match l' with
    | [] => true
    | d :: _ => negb (is_space c && is_space d) && singleSpaced l'
    end
  end.

(** The characters that are not white space. *)
Definition visible (l : str) : str := filter (fun c => negb (is_ws c)) l.

(** The characters other than spaces and newlines that lie in the spans of
    a list of visual lines. *)
Definition spanInk (s : str) (vis : list VisualLine) : str :=
  flat_map (fun v => inkOf (slice s (start v) (end_ v))) vis.

(** The position [i] of the buffer lies in the span of the line [v]. *)
Definition inSpan (i : nat) (v : VisualLine) : Prop :=
  start v <= i /\ i < end_ v.

Definition not_sep (c : ascii) : bool := negb (is_sep c).

(** The length of the word of the buffer that begins at [k]: the
    characters from [k] up to the next space or newline, or the end. *)
Definition wordLenAt (s : str) (k : nat) : nat := span not_sep (skipn k s).

(** A newline of the buffer lies at some position from [a] up to [b]. *)
Definition newlineBetween (s : str) (a b : nat) : Prop :=
  exists j c, a <= j /\ j < b /\ nth_error s j = Some c /\ is_newline c = true.

(** Where the line [v] ends and the line [v'] begins: at a paragraph
    break, or where the word that begins [v'] would not have fitted on
    [v] after a space. *)
Definition breakIsDue (cols : nat) (s : str) (v v' : VisualLine) : Prop :=
  newlineBetween s (end_ v) (start v')
  \/ cols < length (text v) + 1 + wordLenAt s (start v').

(** The line loop is left when the paragraph has no further word, or when
    the next word does not fit after a space. *)
Definition lineFull (cols : nat) (para : str) (st : LineState) : Prop :=
  length para <= scan is_space para (cursor st)
  \/ cols < length (lineText st) + 1
            + span not_space (skipn (scan is_space para (cursor st)) para).

(** An empty paragraph stands at [q], in the part of the buffer from [i]
    on: [q] is [i] or comes just after a newline, and at [q] the buffer has
    a newline or its end. *)
Definition emptyParaAt (s : str) (i q : nat) : Prop :=
  startsAt s i q
  /\ (q = length s
      \/ exists c, nth_error s q = Some c /\ is_newline c = true).

(** A visual line shows something, or stands for an empty paragraph. *)
Definition lineHasReason (s : str) (i : nat) (v : VisualLine) : Prop :=
  start v < end_ v \/ (start v = end_ v /\ emptyParaAt s i (start v)).

(** A word as the lines show it: whole when it is no longer than the
    width, and otherwise its first [cols] characters followed by what the
    rest of it gives in the same way.  A word has at most as many pieces as
    characters, which is the fuel. *)
Fixpoint piecesFrom (fuel cols : nat) (w : str) : list str :=
  match fuel with
  | 0 => [w]
  | S fuel' =>
    if length w <=? cols then [w]
    else firstn cols w :: piecesFrom fuel' cols (skipn cols w)
  end.

Definition pieces (cols : nat) (w : str) : list str :=
  piecesFrom (length w) cols w.

(** The words on the line, and the words still to come as the lines will
    show them. *)
Definition piecesAhead (cols : nat) (para : str) (st : LineState) : list str :=
  words is_space (lineText st)
  ++ flat_map (pieces cols) (words is_space (skipn (cursor st) para)).

(** * Properties *)

(** ** Scanning *)

Lemma span_le p l : span p l <= length l.
Proof.
  induction l as [|c l IH]; simpl; [lia|].
  destruct (p c); simpl; lia.
Qed.

Lemma span_firstn p l : Forall (fun c => p c = true) (firstn (span p l) l).
Proof.
  induction l as [|c l IH]; simpl; [constructor|].
  destruct (p c) eqn:E; simpl; [constructor; assumption | constructor].
Qed.

Lemma span_skipn p l :
  skipn (span p l) l = [] \/
  exists c r, skipn (span p l) l = c :: r /\ p c = false.
Proof.
  induction l as [|c l IH]; simpl; [left; reflexivity|].
  destruct (p c) eqn:E; simpl; [assumption|].
  right. exists c, l. split; [reflexivity | assumption].
Qed.

Lemma span_all p l : Forall (fun c => p c = true) l -> span p l = length l.
Proof.
  induction 1 as [|c l Hc _ IH]; simpl; [reflexivity|].
  rewrite Hc, IH. reflexivity.
Qed.

Lemma span_app_stop p a c r :
  Forall (fun x => p x = true) a -> p c = false ->
  span p (a ++ c :: r) = length a.
Proof.
  induction 1 as [|x a Hx _ IH]; intros Hc; simpl.
  - rewrite Hc. reflexivity.
  - rewrite Hx, IH by assumption. reflexivity.
Qed.

Lemma span_nonempty p c r : p c = true -> 0 < span p (c :: r).
Proof. intros H. simpl. rewrite H. lia. Qed.

Lemma scan_ge p para k : k <= scan p para k.
Proof. unfold scan. lia. Qed.

Lemma scan_le p para k : k <= length para -> scan p para k <= length para.
Proof.
  intros Hk. unfold scan.
  pose proof (span_le p (skipn k para)) as H.
  rewrite length_skipn in H. lia.
Qed.

Lemma skipn_scan p para k :
  skipn (scan p para k) para = skipn (span p (skipn k para)) (skipn k para).
Proof. unfold scan. rewrite skipn_skipn. f_equal. lia. Qed.

Lemma slice_scan p para k :
  slice para k (scan p para k) = firstn (span p (skipn k para)) (skipn k para).
Proof. unfold slice, scan. f_equal. lia. Qed.

Lemma skipn_nil_iff {A} (l : list A) k : skipn k l = [] <-> length l <= k.
Proof.
  split.
  - intros H. pose proof (length_skipn k l) as E. rewrite H in E. simpl in E. lia.
  - apply skipn_all2.
Qed.

Lemma not_space_false c : not_space c = false <-> is_space c = true.
Proof. unfold not_space. destruct (is_space c); simpl; split; congruence. Qed.

Lemma not_space_true c : not_space c = true <-> is_space c = false.
Proof. unfold not_space. destruct (is_space c); simpl; split; congruence. Qed.

(** ** One step of the line loop, read off the rest of the paragraph *)

Lemma fillStep_cases cols pStart para st :
  (allSpaces (skipn (cursor st) para)
   /\ fillStep cols pStart para st = Break st)
  \/
  (exists sp word rest,
      skipn (cursor st) para = sp ++ word ++ rest
      /\ allSpaces sp /\ word <> [] /\ noSpaces word /\ atWordEnd rest
      /\ skipn (cursor st + length sp + length word) para = rest
      /\ cursor st + length sp + length word <= length para
      /\ fillStep cols pStart para st =
         if length (candidateOf st word) <=? cols then
           Continue
             {| cursor := cursor st + length sp + length word
                          + span is_space rest;
                lineStartAbs :=
                  if isEmpty (lineText st) then pStart + (cursor st + length sp)
                  else lineStartAbs st;
                lineEndAbs := pStart + (cursor st + length sp + length word);
                lineText := candidateOf st word |}
         else if isEmpty (lineText st) then
           Break
             {| cursor := cursor st + length sp + Nat.min cols (length word);
                lineStartAbs := pStart + (cursor st + length sp);
                lineEndAbs := pStart + (cursor st + length sp)
                              + Nat.min cols (length word);
                lineText := firstn cols word |}
         else Break st).
Proof.
  unfold fillStep.
  set (r := skipn (cursor st) para).
  destruct (Nat.ltb_spec (cursor st) (length para)) as [Hlt|Hge].
  2:{ left. split; [|reflexivity].
      assert (r = []) as -> by (apply skipn_all2; lia). constructor. }
  set (wStart := scan is_space para (cursor st)).
  assert (HwS : wStart = cursor st + span is_space r) by reflexivity.
  set (r1 := skipn wStart para).
  assert (Hr1 : r1 = skipn (span is_space r) r) by apply skipn_scan.
  pose proof (span_firstn is_space r) as Hsp.
  pose proof (firstn_skipn (span is_space r) r) as Hsplit.
  rewrite <- Hr1 in Hsplit.
  destruct (Nat.leb_spec (length para) wStart) as [Hend|Hmore].
  { left. split; [|reflexivity].
    assert (r1 = []) as E by (apply skipn_all2; assumption).
    rewrite E, app_nil_r in Hsplit. rewrite <- Hsplit. exact Hsp. }
  right.
  destruct (span_skipn is_space r) as [E|(c1 & r1' & E & Hc1)];
    rewrite <- Hr1 in E.
  { apply skipn_nil_iff in E. lia. }
  set (wEnd := scan not_space para wStart).
  assert (HwE : wEnd = wStart + span not_space r1) by reflexivity.
  set (word := slice para wStart wEnd).
  assert (Hword : word = firstn (span not_space r1) r1) by apply slice_scan.
  assert (Hrest : skipn wEnd para = skipn (span not_space r1) r1)
    by apply skipn_scan.
  assert (Hlsp : length (firstn (span is_space r) r) = span is_space r)
    by (apply firstn_length_le, span_le).
  assert (Hlw : length word = span not_space r1)
    by (rewrite Hword; apply firstn_length_le, span_le).
  assert (Hpos : 0 < span not_space r1).
  { rewrite E. apply span_nonempty. apply not_space_true. assumption. }
  exists (firstn (span is_space r) r), word, (skipn wEnd para).
  rewrite Hlsp, Hlw, <- HwS, <- HwE.
  repeat split.
  - rewrite <- Hsplit at 1. f_equal.
    rewrite Hword, Hrest. symmetry. apply firstn_skipn.
  - exact Hsp.
  - intros Hnil. rewrite Hnil in Hlw. simpl in Hlw. lia.
  - rewrite Hword. eapply Forall_impl; [|apply span_firstn].
    intros a Ha. apply not_space_true. exact Ha.
  - rewrite Hrest. destruct (span_skipn not_space r1) as [E'|(c2 & r2 & E' & Hc2)].
    + left. assumption.
    + right. exists c2, r2. split; [assumption|]. apply not_space_false. assumption.
  - apply scan_le. unfold wStart. apply scan_le. lia.
  - fold (candidateOf st word).
    assert (Hcut : slice word 0 cols = firstn cols word).
    { unfold slice. rewrite Nat.sub_0_r. reflexivity. }
    rewrite Hcut, length_firstn, Hlw.
    assert (Hscan : scan is_space para wEnd
                    = wEnd + span is_space (skipn wEnd para)) by reflexivity.
    rewrite Hscan. reflexivity.
Qed.

Lemma span_rest_le p k para :
  k <= length para -> k + span p (skipn k para) <= length para.
Proof. intros H. apply (scan_le p para H). Qed.

(** What a [Continue] tells: a word was found and taken. *)
Lemma fillStep_Continue cols pStart para st st' :
  fillStep cols pStart para st = Continue st' ->
  exists sp word rest,
    skipn (cursor st) para = sp ++ word ++ rest
    /\ allSpaces sp /\ word <> [] /\ noSpaces word /\ atWordEnd rest
    /\ skipn (cursor st + length sp + length word) para = rest
    /\ cursor st + length sp + length word <= length para
    /\ length (candidateOf st word) <= cols
    /\ st' = {| cursor := cursor st + length sp + length word
                          + span is_space rest;
                lineStartAbs :=
                  if isEmpty (lineText st) then pStart + (cursor st + length sp)
                  else lineStartAbs st;
                lineEndAbs := pStart + (cursor st + length sp + length word);
                lineText := candidateOf st word |}.
Proof.
  intros H.
  destruct (fillStep_cases cols pStart para st)
    as [[_ E]|(sp & word & rest & H1 & H2 & H3 & H4 & H5 & H6 & H7 & E)];
    rewrite E in H; [discriminate|].
  destruct (Nat.leb_spec (length (candidateOf st word)) cols) as [Hle|Hgt].
  - injection H as <-. exists sp, word, rest. repeat split; assumption.
  - destruct (isEmpty (lineText st)); discriminate.
Qed.

(** What a [Break] tells: nothing was done, or an over-long first word was
    cut. *)
Lemma fillStep_Break cols pStart para st st' :
  fillStep cols pStart para st = Break st' ->
  st' = st \/
  (lineText st = [] /\
   exists sp word rest,
     skipn (cursor st) para = sp ++ word ++ rest
     /\ allSpaces sp /\ word <> [] /\ noSpaces word /\ atWordEnd rest
     /\ cursor st + length sp + length word <= length para
     /\ cols < length word
     /\ st' = {| cursor := cursor st + length sp + Nat.min cols (length word);
                 lineStartAbs := pStart + (cursor st + length sp);
                 lineEndAbs := pStart + (cursor st + length sp)
                               + Nat.min cols (length word);
                 lineText := firstn cols word |}).
Proof.
  intros H.
  destruct (fillStep_cases cols pStart para st)
    as [[_ E]|(sp & word & rest & H1 & H2 & H3 & H4 & H5 & H6 & H7 & E)];
    rewrite E in H.
  - injection H as <-. left. reflexivity.
  - destruct (Nat.leb_spec (length (candidateOf st word)) cols) as [Hle|Hgt];
      [discriminate|].
    unfold candidateOf in Hgt.
    destruct (lineText st) as [|a t] eqn:Et; simpl in H, Hgt.
    + injection H as <-. right. split; [reflexivity|].
      exists sp, word, rest. repeat split; assumption.
    + injection H as <-. left. reflexivity.
Qed.

(** A property kept by every step holds when the loop is left. *)
Lemma fillLine_inv cols pStart para (P : LineState -> Prop) :
  (forall st st', P st -> fillStep cols pStart para st = Continue st' -> P st') ->
  (forall st st', P st -> fillStep cols pStart para st = Break st' -> P st') ->
  forall fuel st, P st -> P (fillLine cols pStart para fuel st).
Proof.
  intros HC HB fuel. induction fuel as [|fuel IH]; intros st HP; simpl.
  - assumption.
  - destruct (fillStep cols pStart para st) as [st'|st'] eqn:E.
    + apply IH. eapply HC; eassumption.
    + eapply HB; eassumption.
Qed.

Lemma fillLine_bounds cols pStart para c1 fuel st :
  lineBounds cols pStart para c1 st ->
  lineBounds cols pStart para c1 (fillLine cols pStart para fuel st).
Proof.
  apply fillLine_inv; clear st; intros st st' (B1 & B2 & B3 & B4 & B5 & B6) H.
  - apply fillStep_Continue in H.
    destruct H as (sp & word & rest & _ & _ & _ & _ & _ & Hrest & Hle & Hcand & ->).
    pose proof (span_rest_le is_space _ Hle) as Hsp. rewrite Hrest in Hsp.
    unfold lineBounds; simpl.
    destruct (isEmpty (lineText st)); repeat split; lia.
  - apply fillStep_Break in H.
    destruct H as [->|(_ & sp & word & rest & _ & _ & _ & _ & _ & Hle & Hgt & ->)].
    + unfold lineBounds. repeat split; assumption.
    + unfold lineBounds; simpl. rewrite length_firstn.
      repeat split; lia.
Qed.

(** [length para] rounds are enough: more fuel changes nothing. *)
Lemma fillLine_fuel cols pStart para fuel k st :
  length para - cursor st <= fuel ->
  fillLine cols pStart para (fuel + k) st = fillLine cols pStart para fuel st.
Proof.
  revert st. induction fuel as [|fuel IH]; intros st Hf.
  - simpl. destruct k as [|k]; [reflexivity|]. simpl.
    unfold fillStep.
    destruct (Nat.ltb_spec (cursor st) (length para)); [lia | reflexivity].
  - simpl. destruct (fillStep cols pStart para st) as [st'|st'] eqn:E;
      [|reflexivity].
    apply IH. apply fillStep_Continue in E.
    destruct E as (sp & word & rest & _ & _ & Hw & _ & _ & _ & Hle & _ & ->).
    simpl. destruct word; [congruence|]. simpl in *. lia.
Qed.

(** ** Words *)

Lemma wordsFrom_app_sep sep cur a c b :
  sep c = true ->
  wordsFrom sep cur (a ++ c :: b) = wordsFrom sep cur a ++ words sep b.
Proof.
  intros Hc. revert cur. induction a as [|x a IH]; intros cur; simpl.
  - rewrite Hc. destruct (isEmpty cur); reflexivity.
  - destruct (sep x).
    + destruct (isEmpty cur); rewrite IH; reflexivity.
    + apply IH.
Qed.

Lemma words_app_sep sep a c b :
  sep c = true -> words sep (a ++ c :: b) = words sep a ++ words sep b.
Proof. apply wordsFrom_app_sep. Qed.

Lemma words_cons_sep sep c l : sep c = true -> words sep (c :: l) = words sep l.
Proof. intros H. unfold words. simpl. rewrite H. reflexivity. Qed.

Lemma words_seps_app sep sp l :
  Forall (fun c => sep c = true) sp -> words sep (sp ++ l) = words sep l.
Proof.
  induction 1 as [|c sp Hc _ IH]; simpl; [reflexivity|].
  rewrite words_cons_sep by assumption. exact IH.
Qed.

Lemma words_seps sep sp :
  Forall (fun c => sep c = true) sp -> words sep sp = [].
Proof.
  intros H. rewrite <- (app_nil_r sp). rewrite words_seps_app by assumption.
  reflexivity.
Qed.

Lemma wordsFrom_word sep cur w :
  Forall (fun c => sep c = false) w ->
  wordsFrom sep cur w = if isEmpty (cur ++ w) then [] else [cur ++ w].
Proof.
  intros H. revert cur. induction H as [|c w Hc _ IH]; intros cur; simpl.
  - rewrite app_nil_r. reflexivity.
  - rewrite Hc, IH, <- app_assoc. reflexivity.
Qed.

Lemma words_word sep w :
  w <> [] -> Forall (fun c => sep c = false) w -> words sep w = [w].
Proof.
  intros Hne H. unfold words. rewrite wordsFrom_word by assumption.
  simpl. destruct w; [congruence | reflexivity].
Qed.

Lemma words_word_app sep w rest :
  w <> [] -> Forall (fun c => sep c = false) w ->
  (rest = [] \/ exists c r, rest = c :: r /\ sep c = true) ->
  words sep (w ++ rest) = w :: words sep rest.
Proof.
  intros Hne Hw [->|(c & r & -> & Hc)].
  - rewrite app_nil_r. apply words_word; assumption.
  - rewrite words_app_sep, words_cons_sep, words_word by assumption.
    reflexivity.
Qed.

Lemma words_skip_span sep l :
  words sep (skipn (span sep l) l) = words sep l.
Proof.
  transitivity (words sep (firstn (span sep l) l ++ skipn (span sep l) l)).
  - symmetry. apply words_seps_app, span_firstn.
  - rewrite firstn_skipn. reflexivity.
Qed.

Lemma wordsFrom_ext sep1 sep2 cur l :
  Forall (fun c => sep1 c = sep2 c) l ->
  wordsFrom sep1 cur l = wordsFrom sep2 cur l.
Proof.
  intros H. revert cur. induction H as [|c l Hc _ IH]; intros cur; simpl.
  - reflexivity.
  - rewrite Hc. destruct (sep2 c); [|apply IH].
    destruct (isEmpty cur); rewrite IH; reflexivity.
Qed.

(** ** What one line takes from the paragraph *)

Lemma words_candidate st word :
  word <> [] -> noSpaces word ->
  words is_space (candidateOf st word) = words is_space (lineText st) ++ [word].
Proof.
  intros Hne Hw. unfold candidateOf.
  destruct (lineText st) as [|a t]; simpl isEmpty; cbv iota.
  - simpl. apply words_word; assumption.
  - rewrite words_app_sep by reflexivity. f_equal. apply words_word; assumption.
Qed.

Lemma filter_none (p : ascii -> bool) l :
  Forall (fun c => p c = false) l -> filter p l = [].
Proof.
  induction 1 as [|c l Hc _ IH]; simpl; [reflexivity|]. rewrite Hc. exact IH.
Qed.

Lemma filter_all (p : ascii -> bool) l :
  Forall (fun c => p c = true) l -> filter p l = l.
Proof.
  induction 1 as [|c l Hc _ IH]; simpl; [reflexivity|]. rewrite Hc, IH. reflexivity.
Qed.

Lemma filter_spaces sp : allSpaces sp -> filter not_space sp = [].
Proof.
  intros H. apply filter_none. eapply Forall_impl; [|exact H].
  intros c Hc. apply not_space_false. exact Hc.
Qed.

Lemma filter_word w : noSpaces w -> filter not_space w = w.
Proof.
  intros H. apply filter_all. eapply Forall_impl; [|exact H].
  intros c Hc. apply not_space_true. exact Hc.
Qed.

Lemma filter_skip_span l :
  filter not_space (skipn (span is_space l) l) = filter not_space l.
Proof.
  transitivity
    (filter not_space (firstn (span is_space l) l ++ skipn (span is_space l) l)).
  - rewrite filter_app, (filter_spaces (span_firstn is_space l)). reflexivity.
  - rewrite firstn_skipn. reflexivity.
Qed.

Lemma ink_candidate st word :
  noSpaces word ->
  filter not_space (candidateOf st word)
  = filter not_space (lineText st) ++ word.
Proof.
  intros Hw. unfold candidateOf.
  destruct (lineText st) as [|a t]; simpl isEmpty; cbv iota.
  - simpl. apply filter_word; assumption.
  - rewrite filter_app. f_equal.
    change (filter not_space (" "%char :: word)) with (filter not_space word).
    apply filter_word; assumption.
Qed.

Lemma fillStep_Continue_words cols pStart para st st' :
  fillStep cols pStart para st = Continue st' ->
  wordsAhead para st' = wordsAhead para st.
Proof.
  intros H. apply fillStep_Continue in H.
  destruct H as (sp & word & rest & Hsk & Hsp & Hne & Hw & Hend & Hrest & _ & _ & ->).
  unfold wordsAhead; simpl.
  rewrite Hsk, (words_candidate st Hne Hw), (@words_seps_app _ _ _ Hsp),
    (@words_word_app is_space _ _ Hne Hw Hend).
  replace (cursor st + length sp + length word + span is_space rest)
    with (span is_space rest + (cursor st + length sp + length word)) by lia.
  rewrite <- skipn_skipn, Hrest, words_skip_span, <- app_assoc. reflexivity.
Qed.

Lemma fillStep_Continue_ink cols pStart para st st' :
  fillStep cols pStart para st = Continue st' ->
  inkAhead para st' = inkAhead para st.
Proof.
  intros H. apply fillStep_Continue in H.
  destruct H as (sp & word & rest & Hsk & Hsp & Hne & Hw & Hend & Hrest & _ & _ & ->).
  unfold inkAhead; simpl.
  rewrite Hsk, (ink_candidate st Hw), !filter_app, (filter_spaces Hsp),
    (filter_word Hw).
  replace (cursor st + length sp + length word + span is_space rest)
    with (span is_space rest + (cursor st + length sp + length word)) by lia.
  rewrite <- skipn_skipn, Hrest, filter_skip_span, <- app_assoc. reflexivity.
Qed.

Lemma skipn_into_word (sp word rest para : str) c k :
  skipn c para = sp ++ word ++ rest -> k <= length word ->
  skipn (c + length sp + k) para = skipn k word ++ rest.
Proof.
  intros Hsk Hk.
  replace (c + length sp + k) with ((length sp + k) + c) by lia.
  rewrite <- skipn_skipn, Hsk, skipn_app.
  rewrite skipn_all2 by lia. simpl.
  replace (length sp + k - length sp) with k by lia.
  rewrite skipn_app. replace (k - length word) with 0 by lia. reflexivity.
Qed.

Lemma fillStep_Break_ink cols pStart para st st' :
  fillStep cols pStart para st = Break st' ->
  inkAhead para st' = inkAhead para st.
Proof.
  intros H. apply fillStep_Break in H.
  destruct H as [->|(Ht & sp & word & rest & Hsk & Hsp & Hne & Hw & Hend & Hle & Hgt & ->)];
    [reflexivity|].
  unfold inkAhead; simpl.
  rewrite Ht, (@skipn_into_word _ _ _ _ _ (Nat.min cols (length word)) Hsk) by lia.
  simpl.
  rewrite Hsk, !filter_app, (filter_spaces Hsp). simpl.
  rewrite Nat.min_l by lia.
  rewrite app_assoc, <- filter_app, firstn_skipn. reflexivity.
Qed.

Lemma fillStep_Break_words cols pStart para st st' :
  fillStep cols pStart para st = Break st' ->
  Forall (fun w => length w <= cols) (wordsAhead para st) ->
  st' = st.
Proof.
  intros H Hall. apply fillStep_Break in H.
  destruct H as [->|(Ht & sp & word & rest & Hsk & Hsp & Hne & Hw & Hend & Hle & Hgt & ->)];
    [reflexivity|].
  exfalso. unfold wordsAhead in Hall.
  rewrite Hsk, (@words_seps_app _ _ _ Hsp), (@words_word_app is_space _ _ Hne Hw Hend) in Hall.
  apply Forall_app in Hall. destruct Hall as [_ Hall].
  inversion Hall; subst. lia.
Qed.

(** The line loop neither loses nor invents a character that is not a
    space. *)
Lemma fillLine_ink cols pStart para fuel st :
  inkAhead para (fillLine cols pStart para fuel st) = inkAhead para st.
Proof.
  apply (fillLine_inv cols pStart para
           (fun st' => inkAhead para st' = inkAhead para st)).
  - intros a b Ha E. rewrite <- Ha. eapply fillStep_Continue_ink; eassumption.
  - intros a b Ha E. rewrite <- Ha. eapply fillStep_Break_ink; eassumption.
  - reflexivity.
Qed.

(** When no word ahead is longer than the width, the line loop neither
    loses, nor invents, nor reorders a word. *)
Lemma fillLine_words cols pStart para fuel st :
  Forall (fun w => length w <= cols) (wordsAhead para st) ->
  wordsAhead para (fillLine cols pStart para fuel st) = wordsAhead para st.
Proof.
  intros Hall.
  apply (fillLine_inv cols pStart para
           (fun st' => wordsAhead para st' = wordsAhead para st)).
  - intros a b Ha E. rewrite <- Ha. eapply fillStep_Continue_words; eassumption.
  - intros a b Ha E.
    assert (b = a) as ->; [|assumption].
    eapply fillStep_Break_words; [eassumption|]. rewrite Ha. assumption.
  - reflexivity.
Qed.

(** ** The lines of one paragraph *)

Lemma wrapPara_unfold cols pStart para fuel c ln :
  wrapPara cols pStart para (S fuel) c ln =
  if c <? length para then
    if length para <=? scan is_space para c then Some []
    else
      match wrapPara cols pStart para fuel
              (cursor (lineFrom cols pStart para c)) (S ln) with
      | None => None
      | Some rest => Some (lineOf ln (lineFrom cols pStart para c) :: rest)
      end
  else Some [].
Proof. reflexivity. Qed.

Lemma fillLine_cursor_mono cols pStart para fuel st :
  cursor st <= cursor (fillLine cols pStart para fuel st).
Proof.
  apply (fillLine_inv cols pStart para (fun st' => cursor st <= cursor st')).
  - intros a b Ha E. apply fillStep_Continue in E.
    destruct E as (sp & word & rest & _ & _ & _ & _ & _ & _ & _ & _ & ->).
    simpl. lia.
  - intros a b Ha E. apply fillStep_Break in E.
    destruct E as [->|(_ & sp & word & rest & _ & _ & _ & _ & _ & _ & _ & ->)];
      simpl; lia.
  - lia.
Qed.

Lemma span_full p l : length l <= span p l -> Forall (fun c => p c = true) l.
Proof.
  intros H. pose proof (span_firstn p l) as F.
  rewrite firstn_all2 in F by assumption. exact F.
Qed.

Lemma scan_end_allSpaces para c :
  length para <= scan is_space para c -> allSpaces (skipn c para).
Proof.
  intros H. apply span_full. rewrite length_skipn. unfold scan in H. lia.
Qed.

Lemma scan_more_head para c :
  scan is_space para c < length para ->
  exists x r, skipn (scan is_space para c) para = x :: r /\ is_space x = false.
Proof.
  intros H. rewrite skipn_scan.
  destruct (span_skipn is_space (skipn c para)) as [E|E]; [|exact E].
  rewrite <- skipn_scan in E. apply skipn_nil_iff in E. lia.
Qed.

Lemma lineFrom_bounds cols pStart para c :
  scan is_space para c < length para ->
  lineBounds cols pStart para (scan is_space para c) (lineFrom cols pStart para c).
Proof.
  intros H. apply fillLine_bounds. unfold lineBounds, lineInit; simpl.
  repeat split; lia.
Qed.

(** With a width of at least one, every line takes at least one
    character. *)
Lemma lineFrom_progress cols pStart para c :
  1 <= cols -> scan is_space para c < length para ->
  scan is_space para c < cursor (lineFrom cols pStart para c).
Proof.
  intros Hcols H. unfold lineFrom.
  destruct (scan_more_head para c H) as (x & r & Hx & Hsp).
  set (c1 := scan is_space para c) in *.
  destruct (length para) as [|f] eqn:El; [lia|]. simpl.
  destruct (fillStep_cases cols pStart para (lineInit pStart c1))
    as [[Hall E]|(sp & word & rest & H1 & H2 & H3 & H4 & H5 & H6 & H7 & E)];
    rewrite E; clear E.
  - simpl in Hall. rewrite Hx in Hall. inversion Hall; subst. congruence.
  - simpl. destruct word as [|w0 word]; [congruence|].
    destruct (length (candidateOf (lineInit pStart c1) (w0 :: word)) <=? cols).
    + eapply Nat.lt_le_trans; [|apply fillLine_cursor_mono]. simpl. lia.
    + simpl. lia.
Qed.

Lemma lineFrom_ink cols pStart para c :
  inkAhead para (lineFrom cols pStart para c) = filter not_space (skipn c para).
Proof.
  unfold lineFrom. rewrite fillLine_ink. unfold inkAhead, lineInit; simpl.
  rewrite skipn_scan. apply filter_skip_span.
Qed.

Lemma lineFrom_words cols pStart para c :
  Forall (fun w => length w <= cols) (words is_space (skipn c para)) ->
  wordsAhead para (lineFrom cols pStart para c) = words is_space (skipn c para).
Proof.
  intros Hall.
  assert (E : wordsAhead para (lineInit pStart (scan is_space para c))
              = words is_space (skipn c para)).
  { unfold wordsAhead, lineInit; simpl. rewrite skipn_scan.
    apply words_skip_span. }
  unfold lineFrom. rewrite fillLine_words; [exact E|]. rewrite E. exact Hall.
Qed.

(** Induction over the lines of a paragraph: the loop ends, and what holds
    of no lines at the end of the paragraph and is carried over each line
    holds of the lines it pushed. *)
Lemma wrapPara_lines cols pStart para (P : nat -> nat -> list VisualLine -> Prop) :
  1 <= cols ->
  (forall c ln, length para <= scan is_space para c -> P c ln []) ->
  (forall c ln rest,
      scan is_space para c < length para ->
      P (cursor (lineFrom cols pStart para c)) (S ln) rest ->
      P c ln (lineOf ln (lineFrom cols pStart para c) :: rest)) ->
  forall fuel c ln,
    length para - c < fuel ->
    exists ls, wrapPara cols pStart para fuel c ln = Some ls /\ P c ln ls.
Proof.
  intros Hcols Hend Hline fuel.
  induction fuel as [|fuel IH]; intros c ln Hf; [lia|].
  rewrite wrapPara_unfold.
  destruct (Nat.ltb_spec c (length para)) as [Hlt|Hge].
  2:{ exists []. split; [reflexivity|]. apply Hend.
      pose proof (scan_ge is_space para c). lia. }
  destruct (Nat.leb_spec (length para) (scan is_space para c)) as [Hstop|Hmore].
  { exists []. split; [reflexivity|]. apply Hend. assumption. }
  pose proof (lineFrom_progress pStart para c Hcols Hmore) as Hprog.
  pose proof (scan_ge is_space para c) as Hsc.
  destruct (IH (cursor (lineFrom cols pStart para c)) (S ln)) as (rest & E & HP);
    [lia|].
  rewrite E. eexists. split; [reflexivity|]. apply Hline; assumption.
Qed.

Lemma ordered_weaken lo lo' n vis :
  lo' <= lo -> ordered lo n vis -> ordered lo' n vis.
Proof.
  destruct vis as [|v vis]; simpl; [trivial|].
  intros Hlo (H1 & H2 & H3 & H4). repeat split; try assumption. lia.
Qed.

Lemma wrapPara_ok cols pStart para fuel c ln :
  1 <= cols -> length para - c < fuel ->
  exists ls,
    wrapPara cols pStart para fuel c ln = Some ls
    /\ paraLinesOk cols pStart para c ln ls.
Proof.
  intros Hcols.
  apply (wrapPara_lines pStart para (paraLinesOk cols pStart para) Hcols);
    clear c ln.
  - intros c ln Hend. apply scan_end_allSpaces in Hend.
    unfold paraLinesOk; simpl. repeat split; try constructor.
    + symmetry. apply filter_spaces. assumption.
    + intros _. symmetry. apply words_seps. assumption.
  - intros c ln rest Hmore (O & E & T & I & W).
    pose proof (lineFrom_bounds cols pStart para c Hmore)
      as (B1 & B2 & B3 & B4 & B5 & B6).
    pose proof (scan_ge is_space para c) as Hsc.
    pose proof (lineFrom_ink cols pStart para c) as Hink.
    unfold paraLinesOk; simpl. repeat split.
    + lia.
    + assumption.
    + eapply ordered_weaken; [|exact O]. assumption.
    + constructor; [simpl; lia | assumption].
    + constructor; [simpl; assumption | assumption].
    + unfold renderedInk in *. simpl. rewrite I. exact Hink.
    + intros Hall.
      pose proof (lineFrom_words pStart para c Hall) as Hw.
      unfold wordsAhead in Hw. rewrite <- Hw in Hall.
      apply Forall_app in Hall. destruct Hall as [_ Hall].
      unfold renderedWords in *. simpl. rewrite (W Hall). exact Hw.
Qed.

(** A cursor at a character that is not a space stands at a word. *)
Lemma word_at para k x r :
  skipn k para = x :: r -> is_space x = false ->
  exists w rest,
    skipn k para = w ++ rest /\ w <> [] /\ noSpaces w /\ atWordEnd rest.
Proof.
  intros Hsk Hx.
  exists (firstn (span not_space (skipn k para)) (skipn k para)),
         (skipn (span not_space (skipn k para)) (skipn k para)).
  split; [symmetry; apply firstn_skipn|]. split; [|split].
  - rewrite Hsk. simpl. rewrite (proj2 (not_space_true x) Hx). discriminate.
  - eapply Forall_impl; [|apply span_firstn].
    intros a Ha. apply not_space_true. exact Ha.
  - destruct (span_skipn not_space (skipn k para)) as [E|(c & r' & E & Hc)].
    + left. exact E.
    + right. exists c, r'. split; [exact E|]. apply not_space_false. exact Hc.
Qed.

(** ** The paragraphs of a buffer *)

Lemma not_newline_true c : not_newline c = true <-> is_newline c = false.
Proof. unfold not_newline. destruct (is_newline c); simpl; split; congruence. Qed.

Lemma not_newline_false c : not_newline c = false <-> is_newline c = true.
Proof. unfold not_newline. destruct (is_newline c); simpl; split; congruence. Qed.

(** The paragraph that starts at [i]: it runs up to the next newline, or
    to the end of the buffer. *)
Lemma para_split s i :
  i <= length s ->
  let pEnd := indexOfNewline s i in
  let para := slice s i pEnd in
  noNewlines para /\ pEnd = i + length para
  /\ ((pEnd = length s /\ skipn i s = para)
      \/ (pEnd < length s
          /\ exists c r, skipn i s = para ++ c :: r /\ is_newline c = true
                         /\ skipn (pEnd + 1) s = r)).
Proof.
  intros Hi pEnd para. unfold indexOfNewline in pEnd.
  set (r := skipn i s).
  assert (Hpara : para = firstn (span not_newline r) r) by apply slice_scan.
  assert (Hlen : length para = span not_newline r)
    by (rewrite Hpara; apply firstn_length_le, span_le).
  assert (HpEnd : pEnd = i + span not_newline r) by reflexivity.
  assert (Hrest : skipn pEnd s = skipn (span not_newline r) r) by apply skipn_scan.
  split; [|split].
  - rewrite Hpara. eapply Forall_impl; [|apply span_firstn].
    intros c Hc. apply not_newline_true. exact Hc.
  - lia.
  - pose proof (firstn_skipn (span not_newline r) r) as Hsplit.
    rewrite <- Hrest, <- Hpara in Hsplit.
    destruct (span_skipn not_newline r) as [E|(c & r' & E & Hc)];
      rewrite <- Hrest in E.
    + left. split.
      * apply skipn_nil_iff in E. pose proof (scan_le not_newline s Hi).
        fold pEnd in H. lia.
      * rewrite E, app_nil_r in Hsplit. symmetry. exact Hsplit.
    + right. split.
      * destruct (Nat.lt_ge_cases pEnd (length s)) as [Hlt|Hge]; [assumption|].
        rewrite skipn_all2 in E by assumption. discriminate.
      * exists c, r'. split; [|split].
        -- rewrite E in Hsplit. symmetry. exact Hsplit.
        -- apply not_newline_false. exact Hc.
        -- replace (pEnd + 1) with (1 + pEnd) by lia.
           rewrite <- skipn_skipn, E. reflexivity.
Qed.

Lemma layoutParas_unfold cols s fuel i ln :
  layoutParas cols s (S fuel) i ln =
  if i <=? length s then
    let pEnd := indexOfNewline s i in
    let para := slice s i pEnd in
    match wrapPara cols i para (S (length para)) 0 ln with
    | None => None
    | Some ls =>
      let emp := emptyLine para (ln + length ls) i in
      if pEnd =? length s then Some (ls ++ emp)
      else
        match layoutParas cols s fuel (pEnd + 1)
                (ln + length ls + length emp) with
        | None => None
        | Some rest => Some (ls ++ emp ++ rest)
        end
    end
  else Some [].
Proof. reflexivity. Qed.

(** Induction over the paragraphs of a buffer: the loop ends, and what
    holds of the lines of the last paragraph and is carried over each
    paragraph before it holds of the lines of the buffer. *)
Lemma layoutParas_paras cols s (P : nat -> nat -> list VisualLine -> Prop) :
  1 <= cols ->
  (forall i ln para ls,
      skipn i s = para -> noNewlines para -> i + length para = length s ->
      wrapPara cols i para (S (length para)) 0 ln = Some ls ->
      paraLinesOk cols i para 0 ln ls ->
      P i ln (ls ++ emptyLine para (ln + length ls) i)) ->
  (forall i ln para c r ls rest,
      skipn i s = para ++ c :: r -> is_newline c = true -> noNewlines para ->
      i + length para < length s ->
      skipn (i + length para + 1) s = r ->
      wrapPara cols i para (S (length para)) 0 ln = Some ls ->
      paraLinesOk cols i para 0 ln ls ->
      P (i + length para + 1)
        (ln + length ls + length (emptyLine para (ln + length ls) i)) rest ->
      P i ln (ls ++ emptyLine para (ln + length ls) i ++ rest)) ->
  forall fuel i ln,
    i <= length s -> length s - i < fuel ->
    exists out, layoutParas cols s fuel i ln = Some out /\ P i ln out.
Proof.
  intros Hcols Hlast Hmid fuel.
  induction fuel as [|fuel IH]; intros i ln Hi Hf; [lia|].
  rewrite layoutParas_unfold.
  destruct (Nat.leb_spec i (length s)) as [_|Hgt]; [|lia].
  cbv zeta.
  destruct (para_split s Hi) as (Hnn & HpEnd & Hcases).
  set (pEnd := indexOfNewline s i) in *.
  set (para := slice s i pEnd) in *.
  destruct (@wrapPara_ok cols i para (S (length para)) 0 ln Hcols) as (ls & E & Hok);
    [lia|].
  rewrite E.
  destruct Hcases as [[Hend Hsk]|(Hlt & c & r & Hsk & Hc & Hr)].
  - rewrite (proj2 (Nat.eqb_eq _ _) Hend).
    eexists. split; [reflexivity|].
    apply Hlast; try assumption. lia.
  - destruct (Nat.eqb_spec pEnd (length s)) as [Heq|_]; [lia|].
    destruct (IH (pEnd + 1)
                 (ln + length ls + length (emptyLine para (ln + length ls) i)))
      as (rest & Er & HP); [lia | lia |].
    rewrite Er. eexists. split; [reflexivity|].
    rewrite HpEnd in HP, Hr.
    apply Hmid with (c := c) (r := r); try assumption. lia.
Qed.

(** ** Order of the lines *)

Lemma ordered_app lo hi n ls ls' :
  ordered lo n ls -> Forall (fun v => end_ v <= hi) ls -> lo <= hi ->
  ordered hi (n + length ls) ls' ->
  ordered lo n (ls ++ ls').
Proof.
  revert lo n. induction ls as [|v ls IH]; intros lo n Ho Hhi Hlo Ho'; simpl.
  - rewrite Nat.add_0_r in Ho'. eapply ordered_weaken; eassumption.
  - destruct Ho as (H1 & H2 & H3 & H4). inversion Hhi; subst.
    repeat split; try assumption.
    apply IH; try assumption.
    replace (S (lineNo v) + length ls) with (lineNo v + length (v :: ls))
      by (simpl; lia).
    assumption.
Qed.

Lemma ordered_emptyLine para n pStart :
  ordered (pStart + length para) n (emptyLine para n pStart).
Proof.
  unfold emptyLine. destruct (Nat.eqb_spec (length para) 0) as [E|E]; simpl.
  - repeat split; lia.
  - trivial.
Qed.

Lemma emptyLine_end para n pStart :
  Forall (fun v => end_ v <= pStart + length para) (emptyLine para n pStart).
Proof.
  unfold emptyLine. destruct (length para =? 0); repeat constructor. simpl. lia.
Qed.

Lemma ordered_In lo n vis v : ordered lo n vis -> In v vis -> start v <= end_ v.
Proof.
  revert lo n. induction vis as [|a vis IH]; intros lo n Ho Hin; [contradiction|].
  destruct Ho as (_ & _ & H3 & H4). destruct Hin as [<-|Hin]; [assumption|].
  eapply IH; eassumption.
Qed.

Lemma ordered_lineNo lo n vis i v :
  ordered lo n vis -> nth_error vis i = Some v -> lineNo v = n + i.
Proof.
  revert lo n i. induction vis as [|a vis IH]; intros lo n i Ho Hi.
  - destruct i; discriminate.
  - destruct Ho as (H1 & _ & _ & H4). destruct i as [|i]; simpl in Hi.
    + injection Hi as <-. lia.
    + rewrite (IH _ _ _ H4 Hi). lia.
Qed.

Lemma ordered_adjacent lo n vis i a b :
  ordered lo n vis -> nth_error vis i = Some a -> nth_error vis (S i) = Some b ->
  end_ a <= start b.
Proof.
  revert lo n i. induction vis as [|x vis IH]; intros lo n i Ho Ha Hb.
  - destruct i; discriminate.
  - destruct Ho as (_ & _ & _ & H4). destruct i as [|i]; simpl in Ha, Hb.
    + injection Ha as <-. destruct vis as [|y vis]; [discriminate|].
      injection Hb as <-. destruct H4 as (_ & H & _). exact H.
    + eapply IH; eassumption.
Qed.

Lemma ordered_start lo n vis :
  ordered lo n vis -> Forall (fun v => lo <= start v) vis.
Proof.
  revert lo n. induction vis as [|x vis IH]; intros lo n Ho; constructor.
  - destruct Ho as (_ & H & _). exact H.
  - destruct Ho as (_ & H2 & H3 & H4).
    eapply Forall_impl; [|apply (IH _ _ H4)]. simpl. intros v Hv. lia.
Qed.

Lemma layoutParas_ordered cols s fuel i ln :
  1 <= cols -> i <= length s -> length s - i < fuel ->
  exists out, layoutParas cols s fuel i ln = Some out /\ ordered i ln out.
Proof.
  intros Hcols.
  apply (@layoutParas_paras cols s (fun i ln out => ordered i ln out) Hcols);
    clear fuel i ln.
  - intros i ln para ls _ _ _ _ (O & E & _).
    rewrite Nat.add_0_r in O.
    eapply ordered_app; [exact O | exact E | lia | apply ordered_emptyLine].
  - intros i ln para c r ls rest _ _ _ _ _ _ (O & E & _) Hrest.
    rewrite Nat.add_0_r in O.
    eapply ordered_app; [exact O | exact E | lia |].
    eapply ordered_app;
      [apply ordered_emptyLine | apply emptyLine_end | lia |].
    eapply ordered_weaken; [|exact Hrest]. lia.
Qed.

Lemma layout_unfold buffer cols :
  layoutWordWrapWithOffsets buffer cols =
  match layoutParas cols buffer (S (length buffer)) 0 1 with
  | None => None
  | Some out => Some (if length out =? 0 then [fallbackLine] else out)
  end.
Proof. reflexivity. Qed.

Lemma layout_ordered buffer cols :
  1 <= cols ->
  exists vis, layoutWordWrapWithOffsets buffer cols = Some vis /\ ordered 0 1 vis.
Proof.
  intros Hcols. rewrite layout_unfold.
  destruct (@layoutParas_ordered cols buffer (S (length buffer)) 0 1 Hcols)
    as (out & E & O); [lia | lia |].
  rewrite E. eexists. split; [reflexivity|].
  destruct out as [|v out]; simpl; [|exact O].
  repeat split; lia.
Qed.

(** The layout is never empty. *)
Lemma layout_nonempty buffer cols vis :
  layoutWordWrapWithOffsets buffer cols = Some vis -> 1 <= length vis.
Proof.
  rewrite layout_unfold.
  destruct (layoutParas cols buffer (S (length buffer)) 0 1) as [out|];
    [|discriminate].
  intros H. injection H as <-. destruct out; simpl; lia.
Qed.

(** C6. For every buffer and every column width of at least one (so for
    every width in [10,120]) the wrap returns visual lines such that every
    line has [start <= end], every line ends no later than the next one
    starts (for all adjacent lines of the buffer, so for adjacent lines of
    one paragraph), and the i-th line has number i: line numbers are
    1-based, contiguous and strictly increasing across the whole buffer. *)
Theorem wrap_offsets_ordered buffer cols :
  1 <= cols ->
  exists vis,
    layoutWordWrapWithOffsets buffer cols = Some vis
    /\ (forall v, In v vis -> start v <= end_ v)
    /\ (forall i a b,
           nth_error vis i = Some a -> nth_error vis (S i) = Some b ->
           end_ a <= start b)
    /\ (forall i v, nth_error vis i = Some v -> lineNo v = S i).
Proof.
  intros Hcols. destruct (layout_ordered buffer Hcols) as (vis & E & O).
  exists vis. split; [exact E|]. split; [|split].
  - intros v Hv. eapply ordered_In; eassumption.
  - intros i a b Ha Hb. eapply ordered_adjacent; eassumption.
  - intros i v Hi. rewrite (@ordered_lineNo 0 1 vis i v O Hi). reflexivity.
Qed.

Lemma wrap_offsets_ordered_witness :
  1 <= 10 /\
  exists vis,
    layoutWordWrapWithOffsets (lit "hello world this is a test line") 10 = Some vis
    /\ (forall v, In v vis -> start v <= end_ v)
    /\ (forall i a b,
           nth_error vis i = Some a -> nth_error vis (S i) = Some b ->
           end_ a <= start b)
    /\ (forall i v, nth_error vis i = Some v -> lineNo v = S i).
Proof.
  split; [lia|]. apply (@wrap_offsets_ordered _ 10). lia.
Defined.

(** ** What the layout shows *)

Lemma is_sep_noNewline c : is_newline c = false -> is_sep c = is_space c.
Proof. intros H. unfold is_sep. rewrite H. apply orb_false_r. Qed.

Lemma is_sep_newline c : is_newline c = true -> is_sep c = true.
Proof. intros H. unfold is_sep. rewrite H. apply orb_true_r. Qed.

Lemma inkOf_noNewlines para :
  noNewlines para -> inkOf para = filter not_space para.
Proof.
  intros H. unfold inkOf. apply filter_ext_in. intros c Hc.
  unfold not_space. f_equal. apply is_sep_noNewline.
  revert c Hc. apply Forall_forall. exact H.
Qed.

Lemma bufferWords_noNewlines para :
  noNewlines para -> bufferWords para = words is_space para.
Proof.
  intros H. unfold bufferWords, words. apply wordsFrom_ext.
  eapply Forall_impl; [|exact H]. intros c. apply is_sep_noNewline.
Qed.

Lemma inkOf_para para c r :
  noNewlines para -> is_newline c = true ->
  inkOf (para ++ c :: r) = filter not_space para ++ inkOf r.
Proof.
  intros Hp Hc. rewrite <- (inkOf_noNewlines Hp). unfold inkOf.
  rewrite filter_app. simpl. rewrite (is_sep_newline _ Hc). reflexivity.
Qed.

Lemma bufferWords_para para c r :
  noNewlines para -> is_newline c = true ->
  bufferWords (para ++ c :: r) = words is_space para ++ bufferWords r.
Proof.
  intros Hp Hc. rewrite <- (bufferWords_noNewlines Hp). unfold bufferWords.
  apply words_app_sep. apply is_sep_newline. exact Hc.
Qed.

Lemma emptyLine_shows para n pStart :
  renderedInk (emptyLine para n pStart) = []
  /\ renderedWords (emptyLine para n pStart) = []
  /\ forall cols,
       Forall (fun v => length (text v) <= cols) (emptyLine para n pStart).
Proof.
  unfold emptyLine. destruct (length para =? 0); simpl; repeat split;
    intros; repeat constructor. simpl. lia.
Qed.

Lemma layoutParas_shows cols s fuel i ln :
  1 <= cols -> i <= length s -> length s - i < fuel ->
  exists out, layoutParas cols s fuel i ln = Some out /\ showsRest cols s i out.
Proof.
  intros Hcols.
  apply (@layoutParas_paras cols s (fun i _ out => showsRest cols s i out) Hcols);
    clear fuel i ln.
  - intros i ln para ls Hsk Hnn _ _ (_ & _ & T & I & W).
    destruct (emptyLine_shows para (ln + length ls) i) as (Ei & Ew & Et).
    unfold showsRest. rewrite Hsk. simpl in I, W. split; [|split].
    + apply Forall_app. split; [exact T | apply Et].
    + unfold renderedInk in *. rewrite flat_map_app, I, Ei, app_nil_r.
      symmetry. apply inkOf_noNewlines. exact Hnn.
    + rewrite (bufferWords_noNewlines Hnn). intros Hall.
      unfold renderedWords in *. rewrite flat_map_app, Ew, app_nil_r.
      apply W. exact Hall.
  - intros i ln para c r ls rest Hsk Hc Hnn _ Hr _ (_ & _ & T & I & W)
           (Tr & Ir & Wr).
    destruct (emptyLine_shows para (ln + length ls) i) as (Ei & Ew & Et).
    rewrite Hr in Ir, Wr.
    unfold showsRest. rewrite Hsk. simpl in I, W. split; [|split].
    + apply Forall_app. split; [exact T|].
      apply Forall_app. split; [apply Et | exact Tr].
    + unfold renderedInk in *.
      rewrite !flat_map_app, I, Ei, Ir. simpl.
      symmetry. apply inkOf_para; assumption.
    + rewrite (@bufferWords_para para c r Hnn Hc). intros Hall.
      apply Forall_app in Hall. destruct Hall as [Hp Hrest].
      unfold renderedWords in *.
      rewrite !flat_map_app, Ew, (W Hp), (Wr Hrest). reflexivity.
Qed.

(** ** The words of the lines *)

Unset Implicit Arguments.

Lemma piecesFrom_fuel cols :
  1 <= cols ->
  forall fuel fuel' w,
    length w <= fuel -> length w <= fuel' ->
    piecesFrom fuel cols w = piecesFrom fuel' cols w.
Proof.
  intros Hcols. induction fuel as [|fuel IH]; intros fuel' w H H'.
  - destruct w; [|simpl in H; lia]. destruct fuel'; reflexivity.
  - destruct fuel' as [|fuel'].
    + destruct w; [|simpl in H'; lia]. reflexivity.
    + simpl. destruct (Nat.leb_spec (length w) cols) as [_|Hgt]; [reflexivity|].
      f_equal. apply IH; rewrite length_skipn; lia.
Qed.

(** The pieces of a word, by the length of the word. *)
Lemma pieces_eq cols w :
  1 <= cols ->
  pieces cols w
  = if length w <=? cols then [w]
    else firstn cols w :: pieces cols (skipn cols w).
Proof.
  intros Hcols. unfold pieces.
  destruct (length w) as [|n] eqn:El; cbn [piecesFrom].
  - destruct (Nat.leb_spec 0 cols); [reflexivity | lia].
  - rewrite El. destruct (Nat.leb_spec (S n) cols) as [_|Hgt]; [reflexivity|].
    f_equal. apply (piecesFrom_fuel cols Hcols); rewrite length_skipn; lia.
Qed.

Lemma pieces_fits cols w : 1 <= cols -> length w <= cols -> pieces cols w = [w].
Proof.
  intros Hcols H. rewrite (pieces_eq cols w Hcols).
  destruct (Nat.leb_spec (length w) cols); [reflexivity | lia].
Qed.

Lemma pieces_cut cols w :
  1 <= cols -> cols < length w ->
  pieces cols w = firstn cols w :: pieces cols (skipn cols w).
Proof.
  intros Hcols H. rewrite (pieces_eq cols w Hcols).
  destruct (Nat.leb_spec (length w) cols); [lia | reflexivity].
Qed.

Lemma noSpaces_parts n w :
  noSpaces w -> noSpaces (firstn n w) /\ noSpaces (skipn n w).
Proof.
  intros Hw. unfold noSpaces in *. rewrite <- (firstn_skipn n w) in Hw.
  apply Forall_app in Hw. exact Hw.
Qed.

Lemma candidate_word st word : length word <= length (candidateOf st word).
Proof.
  unfold candidateOf. destruct (isEmpty (lineText st)); [lia|].
  rewrite length_app. simpl. lia.
Qed.

(** A word that is taken is taken whole. *)
Lemma fillStep_Continue_pieces cols pStart para st st' :
  1 <= cols ->
  fillStep cols pStart para st = Continue st' ->
  piecesAhead cols para st' = piecesAhead cols para st.
Proof.
  intros Hcols H. apply fillStep_Continue in H.
  destruct H as (sp & word & rest & Hsk & Hsp & Hne & Hw & Hend & Hrest & _
                 & Hfit & ->).
  pose proof (candidate_word st word) as Hlen.
  unfold piecesAhead; simpl.
  rewrite Hsk, (words_candidate st Hne Hw), (@words_seps_app _ _ _ Hsp),
    (@words_word_app is_space _ _ Hne Hw Hend).
  replace (cursor st + length sp + length word + span is_space rest)
    with (span is_space rest + (cursor st + length sp + length word)) by lia.
  rewrite <- skipn_skipn, Hrest, words_skip_span, <- app_assoc.
  simpl flat_map. rewrite (pieces_fits cols word Hcols) by lia. reflexivity.
Qed.

(** A word that is cut leaves its first piece on the line and the rest of
    its pieces to come. *)
Lemma fillStep_Break_pieces cols pStart para st st' :
  1 <= cols ->
  fillStep cols pStart para st = Break st' ->
  piecesAhead cols para st' = piecesAhead cols para st.
Proof.
  intros Hcols H. apply fillStep_Break in H.
  destruct H as [->|(Ht & sp & word & rest & Hsk & Hsp & Hne & Hw & Hend & Hle
                     & Hgt & ->)]; [reflexivity|].
  destruct (noSpaces_parts cols word Hw) as [Hw1 Hw2].
  unfold piecesAhead; simpl.
  rewrite Ht, (@skipn_into_word _ _ _ _ _ (Nat.min cols (length word)) Hsk) by lia.
  rewrite Nat.min_l by lia. simpl app.
  rewrite Hsk, (@words_seps_app _ _ _ Hsp),
    (@words_word_app is_space _ _ Hne Hw Hend).
  simpl flat_map. rewrite (pieces_cut cols word Hcols Hgt).
  assert (Hne1 : firstn cols word <> []).
  { intros E. pose proof (length_firstn cols word) as L. rewrite E in L.
    simpl in L. lia. }
  assert (Hne2 : skipn cols word <> []).
  { intros E. pose proof (length_skipn cols word) as L. rewrite E in L.
    simpl in L. lia. }
  rewrite (@words_word is_space _ Hne1 Hw1).
  rewrite (@words_word_app is_space _ _ Hne2 Hw2 Hend).
  reflexivity.
Qed.

Lemma fillLine_pieces cols pStart para fuel st :
  1 <= cols ->
  piecesAhead cols para (fillLine cols pStart para fuel st)
  = piecesAhead cols para st.
Proof.
  intros Hcols.
  apply (@fillLine_inv cols pStart para
           (fun st' => piecesAhead cols para st' = piecesAhead cols para st)).
  - intros a b Ha E. rewrite <- Ha.
    exact (fillStep_Continue_pieces cols pStart para a b Hcols E).
  - intros a b Ha E. rewrite <- Ha.
    exact (fillStep_Break_pieces cols pStart para a b Hcols E).
  - reflexivity.
Qed.

Lemma lineFrom_pieces cols pStart para c :
  1 <= cols ->
  piecesAhead cols para (lineFrom cols pStart para c)
  = flat_map (pieces cols) (words is_space (skipn c para)).
Proof.
  intros Hcols. unfold lineFrom. rewrite (fillLine_pieces _ _ _ _ _ Hcols).
  unfold piecesAhead, lineInit; simpl. rewrite skipn_scan, words_skip_span.
  reflexivity.
Qed.

(** The lines of a paragraph show its words, the long ones in pieces. *)
Lemma wrapPara_pieces cols pStart para fuel c ln :
  1 <= cols -> length para - c < fuel ->
  exists ls,
    wrapPara cols pStart para fuel c ln = Some ls
    /\ renderedWords ls
       = flat_map (pieces cols) (words is_space (skipn c para)).
Proof.
  intros Hcols.
  apply (@wrapPara_lines cols pStart para
           (fun c _ ls =>
              renderedWords ls
              = flat_map (pieces cols) (words is_space (skipn c para))) Hcols).
  - intros c0 ln0 Hend. apply scan_end_allSpaces in Hend.
    rewrite (@words_seps is_space _ Hend). reflexivity.
  - intros c0 ln0 rest Hmore Hrest.
    rewrite <- (lineFrom_pieces cols pStart para c0 Hcols).
    unfold piecesAhead. rewrite <- Hrest. reflexivity.
Qed.

(** The lines of a buffer show its words, paragraph after paragraph, the
    long ones in pieces. *)
Lemma layoutParas_pieces cols s fuel i ln :
  1 <= cols -> i <= length s -> length s - i < fuel ->
  exists out,
    layoutParas cols s fuel i ln = Some out
    /\ renderedWords out = flat_map (pieces cols) (bufferWords (skipn i s)).
Proof.
  intros Hcols.
  apply (@layoutParas_paras cols s
           (fun i _ out =>
              renderedWords out
              = flat_map (pieces cols) (bufferWords (skipn i s))) Hcols);
    clear fuel i ln.
  - intros i ln para ls Hsk Hnn _ E _.
    destruct (wrapPara_pieces cols i para (S (length para)) 0 ln Hcols)
      as (ls' & E' & Hw); [lia|].
    rewrite E in E'. injection E' as <-.
    destruct (emptyLine_shows para (ln + length ls) i) as (_ & Ew & _).
    rewrite Hsk, (bufferWords_noNewlines Hnn).
    unfold renderedWords in *. rewrite flat_map_app, Ew, app_nil_r. exact Hw.
  - intros i ln para c r ls rest Hsk Hc Hnn _ Hr E _ Hrest.
    destruct (wrapPara_pieces cols i para (S (length para)) 0 ln Hcols)
      as (ls' & E' & Hw); [lia|].
    rewrite E in E'. injection E' as <-.
    destruct (emptyLine_shows para (ln + length ls) i) as (_ & Ew & _).
    rewrite Hr in Hrest.
    rewrite Hsk, (@bufferWords_para para c r Hnn Hc), flat_map_app.
    unfold renderedWords in *.
    rewrite !flat_map_app, Ew, Hw, Hrest. reflexivity.
Qed.

(** C4, as the code has it.  For every buffer and every column width of
    at least one (so for every width in [10,120]) the wrap returns visual
    lines none of which is longer than the width; the characters other
    than spaces and newlines appear in the lines in their original order,
    none dropped and none duplicated; and the words of the lines, line
    after line, are the words of the buffer, paragraph after paragraph, in
    the original order, none dropped and none duplicated, where a word
    longer than the width stands as its pieces: its first [cols]
    characters, then the pieces of the rest.  So every word that is no
    longer than the width is a word of a line as it is, whatever other
    words the buffer has. *)
Theorem wrap_keeps_words buffer cols :
  1 <= cols ->
  exists vis,
    layoutWordWrapWithOffsets buffer cols = Some vis
    /\ Forall (fun v => length (text v) <= cols) vis
    /\ renderedInk vis = inkOf buffer
    /\ renderedWords vis = flat_map (pieces cols) (bufferWords buffer)
    /\ forall w,
         pieces cols w
         = if length w <=? cols then [w]
           else firstn cols w :: pieces cols (skipn cols w).
Proof.
  intros Hcols. rewrite layout_unfold.
  destruct (@layoutParas_shows cols buffer (S (length buffer)) 0 1 Hcols)
    as (out & E & T & I & _); [lia | lia |].
  destruct (layoutParas_pieces cols buffer (S (length buffer)) 0 1 Hcols)
    as (out' & E' & W); [lia | lia |].
  rewrite E in E'. injection E' as <-.
  rewrite E. simpl in I, W. eexists. split; [reflexivity|].
  assert (Hp : forall w,
             pieces cols w
             = if length w <=? cols then [w]
               else firstn cols w :: pieces cols (skipn cols w))
    by (intros w; apply pieces_eq; exact Hcols).
  destruct out as [|v out]; simpl length; cbv iota beta.
  - split; [repeat constructor; simpl; lia|].
    split; [exact I|]. split; [exact W | exact Hp].
  - simpl Nat.eqb. cbv iota. split; [exact T|].
    split; [exact I|]. split; [exact W | exact Hp].
Qed.

Lemma wrap_keeps_words_witness :
  1 <= 10 /\
  exists vis,
    layoutWordWrapWithOffsets
      (lit "abcdefghijklmno" ++ "010"%char :: lit "ab cd") 10 = Some vis
    /\ Forall (fun v => length (text v) <= 10) vis
    /\ renderedInk vis = lit "abcdefghijklmnoabcd"
    /\ renderedWords vis
       = [lit "abcdefghij"; lit "klmno"; lit "ab"; lit "cd"].
Proof.
  split; [lia|].
  destruct (wrap_keeps_words
              (lit "abcdefghijklmno" ++ "010"%char :: lit "ab cd") 10)
    as (vis & E & T & I & W & _); [lia|].
  exists vis. split; [exact E|]. split; [exact T|].
  split; [exact I | exact W].
Defined.

(** C4 as stated fails: a word of 15 characters wrapped at 10 columns is
    shown as two words, neither of which is the word of the buffer. *)
Lemma wrap_keeps_words_counterexample :
  exists vis,
    layoutWordWrapWithOffsets (lit "abcdefghijklmno") 10 = Some vis
    /\ renderedWords vis = [lit "abcdefghij"; lit "klmno"]
    /\ bufferWords (lit "abcdefghijklmno") = [lit "abcdefghijklmno"]
    /\ renderedWords vis <> bufferWords (lit "abcdefghijklmno").
Proof.
  eexists. split; [reflexivity|]. repeat split. discriminate.
Qed.

(** ** Paragraphs without a word *)

Lemma wrapPara_allSpaces cols pStart para fuel ln :
  allSpaces para -> wrapPara cols pStart para (S fuel) 0 ln = Some [].
Proof.
  intros H. rewrite wrapPara_unfold.
  destruct (0 <? length para); [|reflexivity].
  assert (E : scan is_space para 0 = length para).
  { unfold scan. simpl. apply span_all. exact H. }
  rewrite E, Nat.leb_refl. reflexivity.
Qed.

Lemma space_not_newline c : is_space c = true -> is_newline c = false.
Proof.
  unfold is_space, is_newline. intros H. apply Ascii.eqb_eq in H. subst c.
  reflexivity.
Qed.

Lemma noNewlines_nth para j c :
  noNewlines para -> nth_error para j = Some c -> is_newline c = false.
Proof.
  intros H Hj. apply nth_error_In in Hj. revert c Hj. apply Forall_forall. exact H.
Qed.

Lemma allSpaces_spaces n : allSpaces (spaces n).
Proof. induction n; simpl; constructor; [reflexivity | assumption]. Qed.

Lemma length_spaces n : length (spaces n) = n.
Proof. apply repeat_length. Qed.

(** In a paragraph that has no newline, a run of spaces that is followed by
    a newline or by the end of the buffer is the whole paragraph. *)
Lemma blank_is_para s i para tail n :
  skipn i s = para ++ tail -> noNewlines para ->
  (tail = [] \/ exists c r, tail = c :: r /\ is_newline c = true) ->
  blankAt s i n -> n = length para /\ allSpaces para.
Proof.
  intros Hsk Hnn Htail (Hle & Hsp & Hend).
  assert (Hlen : length s - i = length para + length tail).
  { rewrite <- length_skipn, Hsk, length_app. reflexivity. }
  assert (Hn : n = length para).
  { destruct (Nat.lt_trichotomy n (length para)) as [Hlt|[Heq|Hgt]];
      [exfalso | assumption | exfalso].
    - destruct Hend as [Hend|(c & r & Hc & Hnl)]; [lia|].
      replace (i + n) with (n + i) in Hc by lia.
      rewrite <- skipn_skipn, Hsk, skipn_app in Hc.
      replace (n - length para) with 0 in Hc by lia.
      destruct (skipn n para) as [|x xs] eqn:Ex.
      + apply skipn_nil_iff in Ex. lia.
      + simpl in Hc. injection Hc as -> _.
        assert (Hin : In c para).
        { rewrite <- (firstn_skipn n para), Ex. apply in_or_app. right. left.
          reflexivity. }
        pose proof (proj1 (Forall_forall _ _) Hnn c Hin). congruence.
    - destruct Htail as [->|(c & r & -> & Hnl)]; [simpl in Hlen; lia|].
      rewrite Hsk, firstn_app in Hsp.
      apply Forall_app in Hsp. destruct Hsp as [_ Hsp].
      destruct (n - length para) as [|m] eqn:Em; [lia|].
      simpl in Hsp. inversion Hsp; subst.
      pose proof (space_not_newline c). intuition congruence. }
  split; [exact Hn|].
  subst n. rewrite Hsk, firstn_app, Nat.sub_diag, firstn_all in Hsp.
  simpl in Hsp. rewrite app_nil_r in Hsp. exact Hsp.
Qed.

(** A paragraph that starts after [i] starts after the paragraph at [i]. *)
Lemma startsAt_next s i para tail k :
  skipn i s = para ++ tail -> noNewlines para ->
  startsAt s i k -> k <= length s -> k <> i ->
  i + length para + 1 <= k /\ startsAt s (i + length para + 1) k.
Proof.
  intros Hsk Hnn [->|(Hlt & c & Hc & Hnl)] Hk Hne; [congruence|].
  assert (Hge : length para <= k - 1 - i).
  { destruct (Nat.le_gt_cases (length para) (k - 1 - i)) as [H|H]; [exact H|].
    exfalso.
    replace (k - 1) with (i + (k - 1 - i)) in Hc by lia.
    rewrite <- nth_error_skipn, Hsk, nth_error_app1 in Hc by assumption.
    pose proof (noNewlines_nth _ _ _ Hnn Hc). congruence. }
  split; [lia|].
  destruct (Nat.eq_dec k (i + length para + 1)) as [->|Hk'].
  - left. reflexivity.
  - right. split; [lia|]. exists c. split; assumption.
Qed.

Lemma emptyLine_spaces para n ln k :
  length para = n -> emptyLine para ln k = emptyLine (spaces n) ln k.
Proof. intros H. unfold emptyLine. rewrite length_spaces, H. reflexivity. Qed.

Lemma layoutParas_blank cols s fuel i ln :
  1 <= cols -> i <= length s -> length s - i < fuel ->
  exists out, layoutParas cols s fuel i ln = Some out /\ blankParaLines s i ln out.
Proof.
  intros Hcols.
  apply (@layoutParas_paras cols s (blankParaLines s) Hcols); clear fuel i ln.
  - intros i ln para ls Hsk Hnn Hlen Hw (O & E & _).
    rewrite Nat.add_0_r in O. split.
    { eapply ordered_app; [exact O | exact E | lia | apply ordered_emptyLine]. }
    intros k n Hst Hbl.
    rewrite <- (app_nil_r para) in Hsk.
    destruct (Nat.eq_dec k i) as [->|Hne].
    + destruct (blank_is_para _ _ _ _ _ Hsk Hnn (or_introl eq_refl) Hbl) as (Hn & Hall).
      rewrite (wrapPara_allSpaces cols i _ _ ln Hall) in Hw.
      injection Hw as <-. exists [], []. simpl.
      rewrite Nat.add_0_r, app_nil_r. repeat split; try constructor.
      apply emptyLine_spaces. symmetry. exact Hn.
    + exfalso. destruct Hbl as (Hle & _).
      destruct (startsAt_next _ _ _ _ _ Hsk Hnn Hst) as (Hk & _); [lia | exact Hne | lia].
  - intros i ln para c r ls rest Hsk Hc Hnn Hlt Hr Hw (O & E & _) (Orest & IH).
    rewrite Nat.add_0_r in O. split.
    { eapply ordered_app; [exact O | exact E | lia |].
      eapply ordered_app;
        [apply ordered_emptyLine | apply emptyLine_end | lia |].
      eapply ordered_weaken; [|exact Orest]. lia. }
    intros k n Hst Hbl.
    destruct (Nat.eq_dec k i) as [->|Hne].
    + assert (Htail : c :: r = [] \/
                      exists c0 r0, c :: r = c0 :: r0 /\ is_newline c0 = true)
        by (right; exists c, r; split; [reflexivity | exact Hc]).
      destruct (blank_is_para _ _ _ _ _ Hsk Hnn Htail Hbl) as (Hn & Hall).
      rewrite (wrapPara_allSpaces cols i _ _ ln Hall) in Hw.
      injection Hw as <-. exists [], rest. simpl.
      rewrite Nat.add_0_r. repeat split; try constructor.
      * f_equal. apply emptyLine_spaces. symmetry. exact Hn.
      * apply ordered_start in Orest.
        eapply Forall_impl; [|exact Orest]. simpl. intros v Hv. lia.
    + assert (Hk : k <= length s) by (destruct Hbl as (Hle & _); lia).
      destruct (startsAt_next _ _ _ _ _ Hsk Hnn Hst Hk Hne) as (Hge & Hst').
      destruct (IH k n Hst' Hbl) as (la & lb & Erest & Hla & Hlb).
      exists (ls ++ emptyLine para (ln + length ls) i ++ la), lb.
      repeat split.
      * rewrite Erest, <- !app_assoc, !length_app.
        do 3 f_equal.
        replace (ln + (length ls
                       + (length (emptyLine para (ln + length ls) i) + length la)))
          with (ln + length ls + length (emptyLine para (ln + length ls) i)
                + length la) by lia.
        reflexivity.
      * apply Forall_app. split; [|apply Forall_app; split].
        -- eapply Forall_impl; [|exact E]. simpl. intros v Hv. lia.
        -- eapply Forall_impl; [|apply emptyLine_end]. simpl. intros v Hv. lia.
        -- exact Hla.
      * exact Hlb.
Qed.

Lemma blank_boundaries a n b :
  endsPara a -> beginsPara b ->
  startsAt (a ++ spaces n ++ b) 0 (length a)
  /\ blankAt (a ++ spaces n ++ b) (length a) n.
Proof.
  intros Ha Hb. split.
  - destruct Ha as [->|(a' & ->)]; [left; reflexivity|].
    right. rewrite length_app. simpl. split; [lia|].
    exists "010"%char. split; [|reflexivity].
    replace (length a' + 1 - 1) with (length a') by lia.
    rewrite <- !app_assoc. rewrite nth_error_app2 by lia.
    rewrite Nat.sub_diag. reflexivity.
  - assert (Hsk : skipn (length a) (a ++ spaces n ++ b) = spaces n ++ b).
    { rewrite skipn_app, skipn_all, Nat.sub_diag. reflexivity. }
    repeat split.
    + rewrite !length_app, length_spaces. lia.
    + rewrite Hsk, firstn_app, length_spaces, Nat.sub_diag.
      rewrite firstn_all2 by (rewrite length_spaces; lia).
      simpl. rewrite app_nil_r. apply allSpaces_spaces.
    + replace (length a + n) with (n + length a) by lia.
      rewrite <- skipn_skipn, Hsk, skipn_app, length_spaces, Nat.sub_diag.
      rewrite skipn_all2 by (rewrite length_spaces; lia). simpl.
      destruct Hb as [->|(b' & ->)].
      * left. rewrite !length_app, length_spaces. simpl. lia.
      * right. exists "010"%char, b'. split; reflexivity.
Qed.

Lemma layout_blank cols a n b :
  1 <= cols -> endsPara a -> beginsPara b ->
  exists la lb,
    layoutParas cols (a ++ spaces n ++ b) (S (length (a ++ spaces n ++ b))) 0 1
    = Some (la ++ emptyLine (spaces n) (S (length la)) (length a) ++ lb)
    /\ Forall (fun v => end_ v < length a) la
    /\ Forall (fun v => length a + n < start v) lb.
Proof.
  intros Hcols Ha Hb.
  destruct (layoutParas_blank cols (a ++ spaces n ++ b)
              (S (length (a ++ spaces n ++ b))) 0 1 Hcols)
    as (out & E & _ & H); [lia | lia |].
  destruct (blank_boundaries a n b Ha Hb) as (Hst & Hbl).
  destruct (H _ _ Hst Hbl) as (la & lb & -> & Hla & Hlb).
  exists la, lb. repeat split; assumption.
Qed.

Lemma layout_spaces cols n :
  layoutWordWrapWithOffsets (spaces n) cols = Some [fallbackLine].
Proof.
  rewrite layout_unfold, layoutParas_unfold. simpl Nat.leb. cbv iota zeta.
  assert (Hend : indexOfNewline (spaces n) 0 = length (spaces n)).
  { unfold indexOfNewline, scan. simpl. apply span_all.
    eapply Forall_impl; [|apply allSpaces_spaces].
    intros c Hc. apply not_newline_true, space_not_newline. exact Hc. }
  rewrite Hend.
  assert (Hpara : slice (spaces n) 0 (length (spaces n)) = spaces n).
  { unfold slice. rewrite Nat.sub_0_r. simpl. apply firstn_all. }
  rewrite Hpara, (wrapPara_allSpaces cols 0 _ _ 1 (allSpaces_spaces n)).
  rewrite Nat.eqb_refl. unfold emptyLine. rewrite length_spaces.
  destruct n; reflexivity.
Qed.

(** C10. For a width of at least one, a paragraph that consists of one or
    more spaces and nothing else gets no visual line: the layout is made of
    the lines of the paragraphs before it, which end before it, and the
    lines of the paragraphs after it, which start after it (and of the
    fallback line when there is no line at all).  A buffer of spaces only
    is laid out as the fallback line [{lineNo: 1, text: empty, start: 0,
    end: 0}], whatever the width.  So a buffer can have fewer lines than
    paragraphs: "a", a space and "b" on three lines make two visual
    lines. *)
Theorem blank_paragraph_no_line :
  (forall cols a n b,
      1 <= cols -> 1 <= n -> endsPara a -> beginsPara b ->
      exists la lb,
        layoutWordWrapWithOffsets (a ++ spaces n ++ b) cols
        = Some (match la ++ lb with
                | [] => [{| lineNo := 1; text := []; start := 0; end_ := 0 |}]
                | _ :: _ => la ++ lb
                end)
        /\ Forall (fun v => end_ v < length a) la
        /\ Forall (fun v => length a + n < start v) lb)
  /\ (forall cols n,
         layoutWordWrapWithOffsets (spaces n) cols
         = Some [{| lineNo := 1; text := []; start := 0; end_ := 0 |}])
  /\ (exists vis,
         layoutWordWrapWithOffsets
           (lit "a" ++ "010"%char :: " "%char :: "010"%char :: lit "b") 26
         = Some vis
         /\ length vis = 2
         /\ paragraphCount
              (lit "a" ++ "010"%char :: " "%char :: "010"%char :: lit "b") = 3).
Proof.
  split; [|split].
  - intros cols a n b Hcols Hn Ha Hb.
    destruct (layout_blank cols a n b Hcols Ha Hb) as (la & lb & E & Hla & Hlb).
    rewrite layout_unfold, E.
    assert (Hemp : emptyLine (spaces n) (S (length la)) (length a) = []).
    { unfold emptyLine. rewrite length_spaces.
      destruct n; [lia | reflexivity]. }
    rewrite Hemp. simpl app.
    exists la, lb. split; [|split; assumption].
    destruct (la ++ lb); reflexivity.
  - intros cols n. apply layout_spaces.
  - eexists. split; [reflexivity|]. split; reflexivity.
Qed.

Lemma blank_paragraph_no_line_witness :
  1 <= 26 /\ 1 <= 2 /\ endsPara (lit "ab" ++ ["010"%char])
  /\ beginsPara ("010"%char :: lit "cd")
  /\ exists la lb,
       layoutWordWrapWithOffsets
         ((lit "ab" ++ ["010"%char]) ++ spaces 2 ++ "010"%char :: lit "cd") 26
       = Some (match la ++ lb with
               | [] => [{| lineNo := 1; text := []; start := 0; end_ := 0 |}]
               | _ :: _ => la ++ lb
               end)
       /\ Forall (fun v => end_ v < 3) la
       /\ Forall (fun v => 3 + 2 < start v) lb.
Proof.
  assert (Ha : endsPara (lit "ab" ++ ["010"%char]))
    by (right; exists (lit "ab"); reflexivity).
  assert (Hb : beginsPara ("010"%char :: lit "cd"))
    by (right; exists (lit "cd"); reflexivity).
  split; [lia|]. split; [lia|]. split; [exact Ha|]. split; [exact Hb|].
  exact (proj1 blank_paragraph_no_line 26 (lit "ab" ++ ["010"%char]) 2
           ("010"%char :: lit "cd") (Nat.lt_0_succ 25) (Nat.lt_0_succ 1) Ha Hb).
Defined.

(** ** A word longer than the width *)

Lemma span_word w rest :
  noSpaces w -> atWordEnd rest -> span not_space (w ++ rest) = length w.
Proof.
  intros Hw [->|(c & r & -> & Hc)].
  - rewrite app_nil_r. apply span_all.
    eapply Forall_impl; [|exact Hw]. intros a. apply not_space_true.
  - apply span_app_stop.
    + eapply Forall_impl; [|exact Hw]. intros a. apply not_space_true.
    + apply not_space_false. exact Hc.
Qed.

(** A text reads as spaces, a word and the rest in one way only. *)
Lemma word_split_unique sp word rest w rest' :
  allSpaces sp -> word <> [] -> noSpaces word -> atWordEnd rest ->
  w <> [] -> noSpaces w -> atWordEnd rest' ->
  sp ++ word ++ rest = w ++ rest' ->
  sp = [] /\ word = w /\ rest = rest'.
Proof.
  intros Hsp Hne Hword Hrest Hwne Hw Hrest' E.
  assert (Hnil : sp = []).
  { destruct sp as [|x sp]; [reflexivity|]. exfalso.
    destruct w as [|y w]; [congruence|]. simpl in E. injection E as -> _.
    inversion Hsp; subst. inversion Hw; subst. congruence. }
  subst sp. simpl in E. split; [reflexivity|].
  assert (Hlen : length word = length w).
  { rewrite <- (span_word word rest Hword Hrest), E. apply span_word; assumption. }
  assert (Hw' : word = w).
  { pose proof (f_equal (firstn (length word)) E) as F.
    rewrite firstn_app, firstn_all, Nat.sub_diag in F. simpl in F.
    rewrite app_nil_r in F. rewrite F, Hlen, firstn_app, firstn_all, Nat.sub_diag.
    simpl. apply app_nil_r. }
  split; [exact Hw'|]. subst word. apply app_inv_head in E. exact E.
Qed.

(** The step of the line loop when the cursor stands at a word. *)
Lemma fillStep_at_word cols pStart para st w rest :
  skipn (cursor st) para = w ++ rest ->
  w <> [] -> noSpaces w -> atWordEnd rest ->
  fillStep cols pStart para st =
  if length (candidateOf st w) <=? cols then
    Continue
      {| cursor := cursor st + length w + span is_space rest;
         lineStartAbs :=
           if isEmpty (lineText st) then pStart + cursor st else lineStartAbs st;
         lineEndAbs := pStart + (cursor st + length w);
         lineText := candidateOf st w |}
  else if isEmpty (lineText st) then
    Break
      {| cursor := cursor st + Nat.min cols (length w);
         lineStartAbs := pStart + cursor st;
         lineEndAbs := pStart + cursor st + Nat.min cols (length w);
         lineText := firstn cols w |}
  else Break st.
Proof.
  intros Hsk Hne Hw Hrest.
  destruct (fillStep_cases cols pStart para st)
    as [[Hall _]|(sp & word & rest' & H1 & H2 & H3 & H4 & H5 & H6 & H7 & E)].
  - exfalso. rewrite Hsk in Hall. destruct w as [|y w]; [congruence|].
    inversion Hall; subst. inversion Hw; subst. congruence.
  - rewrite Hsk in H1. symmetry in H1.
    destruct (word_split_unique sp word rest' w rest H2 H3 H4 H5 Hne Hw Hrest H1)
      as (-> & -> & ->).
    rewrite E. simpl length. rewrite !Nat.add_0_r. reflexivity.
Qed.

Lemma word_starts_line para c w rest :
  skipn c para = w ++ rest -> w <> [] -> noSpaces w ->
  scan is_space para c = c /\ c + length w <= length para.
Proof.
  intros Hsk Hne Hw. split.
  - unfold scan. rewrite Hsk. destruct w as [|y w]; [congruence|].
    inversion Hw; subst. simpl. rewrite H1. lia.
  - pose proof (length_skipn c para) as L. rewrite Hsk, length_app in L.
    destruct w; [congruence|]. simpl in L. simpl. lia.
Qed.

(** The line begun at a word longer than the width. *)
Lemma lineFrom_cut cols pStart para c w rest :
  skipn c para = w ++ rest -> noSpaces w -> atWordEnd rest ->
  cols < length w ->
  lineFrom cols pStart para c =
  {| cursor := c + cols; lineStartAbs := pStart + c;
     lineEndAbs := pStart + c + cols; lineText := firstn cols w |}.
Proof.
  intros Hsk Hw Hrest Hlong.
  assert (Hne : w <> []) by (destruct w; [simpl in Hlong; lia | discriminate]).
  destruct (word_starts_line para c w rest Hsk Hne Hw) as (Hscan & Hlen).
  unfold lineFrom. rewrite Hscan.
  destruct (length para) as [|f] eqn:El; [lia|]. simpl fillLine.
  rewrite (fillStep_at_word cols pStart para (lineInit pStart c) w rest Hsk Hne Hw Hrest).
  simpl. change (candidateOf (lineInit pStart c) w) with w.
  destruct (Nat.leb_spec (length w) cols) as [H|H]; [lia|].
  rewrite Nat.min_l by lia. reflexivity.
Qed.

(** Once a line has text, the loop only adds to its end. *)
Lemma fillLine_prefix cols pStart para fuel st x lo :
  lineText st <> [] -> lineStartAbs st = lo ->
  (exists more, lineText st = x ++ more) ->
  lineStartAbs (fillLine cols pStart para fuel st) = lo
  /\ exists more, lineText (fillLine cols pStart para fuel st) = x ++ more.
Proof.
  intros Hne Hlo Hpre.
  assert (H : lineText (fillLine cols pStart para fuel st) <> []
              /\ lineStartAbs (fillLine cols pStart para fuel st) = lo
              /\ exists more, lineText (fillLine cols pStart para fuel st) = x ++ more).
  { apply (fillLine_inv cols pStart para
             (fun st' => lineText st' <> [] /\ lineStartAbs st' = lo
                         /\ exists more, lineText st' = x ++ more)).
    - intros a b (Hn & Hs & more & Hm) E. apply fillStep_Continue in E.
      destruct E as (sp & word & rest & _ & _ & Hw & _ & _ & _ & _ & _ & ->).
      simpl. unfold candidateOf.
      destruct (lineText a) as [|t0 t] eqn:Et; [congruence|]. simpl isEmpty.
      cbv iota. split; [discriminate|]. split; [exact Hs|].
      exists (more ++ " "%char :: word). rewrite Hm, <- app_assoc. reflexivity.
    - intros a b (Hn & Hs & Hm) E. apply fillStep_Break in E.
      destruct E as [->|(Ht & _)]; [|congruence].
      split; [exact Hn|]. split; [exact Hs | exact Hm].
    - split; [exact Hne|]. split; [exact Hlo | exact Hpre]. }
  destruct H as (_ & H2 & H3). split; assumption.
Qed.

(** The line begun at a word starts where the word starts, and begins with
    the word, or with as much of it as the width allows. *)
Lemma lineFrom_at_word cols pStart para c w rest :
  skipn c para = w ++ rest -> w <> [] -> noSpaces w -> atWordEnd rest ->
  lineStartAbs (lineFrom cols pStart para c) = pStart + c
  /\ exists more, lineText (lineFrom cols pStart para c) = firstn cols w ++ more.
Proof.
  intros Hsk Hne Hw Hrest.
  destruct (word_starts_line para c w rest Hsk Hne Hw) as (Hscan & Hlen).
  unfold lineFrom. rewrite Hscan.
  destruct (length para) as [|f] eqn:El;
    [destruct w; [congruence | simpl in Hlen; lia]|].
  simpl fillLine.
  rewrite (fillStep_at_word cols pStart para (lineInit pStart c) w rest Hsk Hne Hw Hrest).
  simpl. change (candidateOf (lineInit pStart c) w) with w.
  destruct (Nat.leb_spec (length w) cols) as [H|H].
  - apply fillLine_prefix; simpl.
    + exact Hne.
    + reflexivity.
    + exists []. rewrite firstn_all2 by assumption. symmetry. apply app_nil_r.
  - simpl. split; [reflexivity|]. exists []. symmetry. apply app_nil_r.
Qed.

(** C5. In the loop over the lines of a paragraph, when the line begun at
    cursor [c] finds, after the spaces at the cursor, a word [w] longer
    than the width (so the line being built is empty), the line pushed has
    as text exactly the first [cols] characters of [w] and covers exactly
    these characters of the buffer; the next line starts at the first
    character of [w] that was cut off and its text begins with what is left
    of [w] (with its first [cols] characters, when that is again too long).
    For instance a word of 15 characters at a width of 10 gives a line of
    its first 10 characters and a line of its last 5. *)
Theorem long_word_is_cut :
  (forall cols pStart para fuel c ln w rest,
      1 <= cols -> cols < length w -> noSpaces w -> atWordEnd rest ->
      skipn (scan is_space para c) para = w ++ rest ->
      length para - c < fuel ->
      exists l2 ls,
        wrapPara cols pStart para fuel c ln
        = Some ({| lineNo := ln; text := firstn cols w;
                   start := pStart + scan is_space para c;
                   end_ := pStart + scan is_space para c + cols |}
                :: l2 :: ls)
        /\ lineNo l2 = S ln
        /\ start l2 = pStart + scan is_space para c + cols
        /\ exists more, text l2 = firstn cols (skipn cols w) ++ more)
  /\ layoutWordWrapWithOffsets (lit "abcdefghijklmno") 10
     = Some [ {| lineNo := 1; text := lit "abcdefghij"; start := 0; end_ := 10 |};
              {| lineNo := 2; text := lit "klmno"; start := 10; end_ := 15 |} ].
Proof.
  split; [|reflexivity].
  intros cols pStart para fuel c ln w rest Hcols Hlong Hw Hrest Hsk Hfuel.
  set (c1 := scan is_space para c) in *.
  assert (Hne : w <> []) by (destruct w; [simpl in Hlong; lia | discriminate]).
  destruct (word_starts_line para c1 w rest Hsk Hne Hw) as (Hscan1 & Hlen1).
  assert (Hc : c <= c1) by apply scan_ge.
  assert (Hwpos : cols < length w) by exact Hlong.
  assert (HL1 : lineFrom cols pStart para c = lineFrom cols pStart para c1).
  { unfold lineFrom. fold c1. rewrite Hscan1. reflexivity. }
  pose proof (lineFrom_cut cols pStart para c1 w rest Hsk Hw Hrest Hlong) as Hcut.
  (* the second line starts inside the word *)
  set (w2 := skipn cols w).
  assert (Hsk2 : skipn (c1 + cols) para = w2 ++ rest).
  { replace (c1 + cols) with (cols + c1) by lia.
    rewrite <- skipn_skipn, Hsk, skipn_app.
    replace (cols - length w) with 0 by lia. reflexivity. }
  assert (Hne2 : w2 <> []).
  { intros E. apply skipn_nil_iff in E. lia. }
  assert (Hw2 : noSpaces w2).
  { unfold noSpaces in *. rewrite <- (firstn_skipn cols w) in Hw.
    apply Forall_app in Hw. apply Hw. }
  destruct (word_starts_line para (c1 + cols) w2 rest Hsk2 Hne2 Hw2)
    as (Hscan2 & Hlen2).
  destruct (lineFrom_at_word cols pStart para (c1 + cols) w2 rest Hsk2 Hne2 Hw2 Hrest)
    as (Hstart2 & more & Htext2).
  assert (Hprog : c1 + cols < cursor (lineFrom cols pStart para (c1 + cols))).
  { rewrite <- Hscan2 at 1. apply lineFrom_progress; [exact Hcols|].
    rewrite Hscan2. destruct w2; [congruence | simpl in Hlen2; lia]. }
  destruct fuel as [|f]; [lia|]. rewrite wrapPara_unfold.
  destruct (Nat.ltb_spec c (length para)) as [_|H]; [|lia].
  fold c1. destruct (Nat.leb_spec (length para) c1) as [H|_]; [lia|].
  rewrite HL1, Hcut. simpl cursor.
  destruct f as [|f]; [lia|]. rewrite wrapPara_unfold.
  destruct (Nat.ltb_spec (c1 + cols) (length para)) as [_|H];
    [|destruct w2; [congruence | simpl in Hlen2; lia]].
  rewrite Hscan2.
  destruct (Nat.leb_spec (length para) (c1 + cols)) as [H|_];
    [destruct w2; [congruence | simpl in Hlen2; lia]|].
  destruct (@wrapPara_ok cols pStart para f
              (cursor (lineFrom cols pStart para (c1 + cols))) (S (S ln)) Hcols)
    as (ls & E & _); [lia|].
  rewrite E.
  exists (lineOf (S ln) (lineFrom cols pStart para (c1 + cols))), ls.
  split; [reflexivity|]. split; [reflexivity|]. split.
  - simpl. rewrite Hstart2. lia.
  - exists more. exact Htext2.
Qed.

Lemma long_word_is_cut_witness :
  1 <= 10 /\ 10 < length (lit "abcdefghijklmno")
  /\ noSpaces (lit "abcdefghijklmno") /\ atWordEnd []
  /\ exists l2 ls,
       wrapPara 10 0 (lit "abcdefghijklmno") 16 0 1
       = Some ({| lineNo := 1; text := lit "abcdefghij"; start := 0; end_ := 10 |}
               :: l2 :: ls)
       /\ lineNo l2 = 2 /\ start l2 = 10
       /\ exists more, text l2 = lit "klmno" ++ more.
Proof.
  assert (H1 : 1 <= 10) by lia.
  assert (H2 : 10 < length (lit "abcdefghijklmno")) by (simpl; lia).
  assert (H3 : noSpaces (lit "abcdefghijklmno")) by (repeat constructor).
  assert (H4 : atWordEnd []) by (left; reflexivity).
  split; [exact H1|]. split; [exact H2|]. split; [exact H3|]. split; [exact H4|].
  assert (H5 : skipn (scan is_space (lit "abcdefghijklmno") 0)
                 (lit "abcdefghijklmno") = lit "abcdefghijklmno" ++ [])
    by reflexivity.
  assert (H6 : length (lit "abcdefghijklmno") - 0 < 16) by (simpl; lia).
  exact (proj1 long_word_is_cut 10 0 (lit "abcdefghijklmno") 16 0 1
           (lit "abcdefghijklmno") [] H1 H2 H3 H4 H5 H6).
Defined.

(** ** The kernel *)

Lemma getVisualLines_returns paper :
  1 <= Paper.cols paper ->
  exists vis, getVisualLines paper = Some vis /\ 1 <= length vis.
Proof.
  intros Hcols. unfold getVisualLines.
  destruct (layout_ordered (Paper.text paper) Hcols) as (vis & E & _).
  exists vis. split; [exact E|]. eapply layout_nonempty. exact E.
Qed.

(** C9. [setCols] with a finite width between 10 and 120 sets the width to
    the integer part of the number, which is again between 10 and 120, and
    leaves the rest of the state alone; with a finite width outside that
    range, with NaN or with an infinity it leaves the whole state, and so
    the previous width, as it was.  [setCols] is a total function of the
    number and the state: no call fails. *)
Theorem setCols_rule :
  (forall q paper,
      (10 <= q)%Q -> (q <= 120)%Q ->
      setCols (Fin q) paper
      = {| Paper.cols := Z.to_nat (Qfloor q); Paper.rev := Paper.rev paper;
           Paper.text := Paper.text paper; Paper.diff := Paper.diff paper |}
      /\ 10 <= Z.to_nat (Qfloor q) /\ Z.to_nat (Qfloor q) <= 120
      /\ (inject_Z (Z.of_nat (Z.to_nat (Qfloor q))) <= q)%Q
      /\ (q < inject_Z (Z.of_nat (Z.to_nat (Qfloor q)) + 1))%Q)
  /\ (forall q paper,
         ~ ((10 <= q)%Q /\ (q <= 120)%Q) -> setCols (Fin q) paper = paper)
  /\ (forall paper,
         setCols NaN paper = paper /\ setCols PosInf paper = paper
         /\ setCols NegInf paper = paper).
Proof.
  split; [|split].
  - intros q paper Hlo Hhi.
    assert (H10 : (10 <= Qfloor q)%Z).
    { change 10%Z with (Qfloor (inject_Z 10)). apply Qfloor_resp_le. exact Hlo. }
    assert (H120 : (Qfloor q <= 120)%Z).
    { change 120%Z with (Qfloor (inject_Z 120)). apply Qfloor_resp_le. exact Hhi. }
    assert (Hnat : Z.of_nat (Z.to_nat (Qfloor q)) = Qfloor q)
      by (apply Z2Nat.id; lia).
    split; [|split; [|split; [|split]]].
    + unfold setCols.
      rewrite (proj2 (Qle_bool_iff 10 q) Hlo), (proj2 (Qle_bool_iff q 120) Hhi).
      reflexivity.
    + lia.
    + lia.
    + rewrite Hnat. apply Qfloor_le.
    + rewrite Hnat. apply Qlt_floor.
  - intros q paper Hout. unfold setCols.
    destruct (Qle_bool 10 q) eqn:E1; [|reflexivity].
    destruct (Qle_bool q 120) eqn:E2; [|reflexivity].
    exfalso. apply Hout. split; apply Qle_bool_iff; assumption.
  - intros paper. repeat split.
Qed.

Lemma setCols_rule_witness :
  (10 <= 85 # 2)%Q /\ (85 # 2 <= 120)%Q
  /\ setCols (Fin (85 # 2)) (createPaperKernel defaultCols)
     = {| Paper.cols := 42; Paper.rev := 0; Paper.text := []; Paper.diff := None |}.
Proof.
  assert (H1 : (10 <= 85 # 2)%Q) by (unfold Qle; simpl; lia).
  assert (H2 : (85 # 2 <= 120)%Q) by (unfold Qle; simpl; lia).
  split; [exact H1|]. split; [exact H2|].
  exact (proj1 (proj1 setCols_rule (85 # 2)%Q (createPaperKernel defaultCols) H1 H2)).
Defined.

(** C8. [write_append] with a text that trims to nothing is turned down:
    it answers [ok = false] with the reason ["empty_text"] and the current
    revision, and the state - buffer, revision and diff - is as before.
    (The width is at least one, so that the layout computed on entry
    returns.) *)
Theorem write_append_empty_rejected paper text ensureNewParagraph :
  1 <= Paper.cols paper ->
  trim text = [] ->
  write_append text ensureNewParagraph paper
  = Some ({| AppendResult.ok := false;
             AppendResult.op := lit "write_append";
             AppendResult.reason := Some (lit "empty_text");
             AppendResult.paper_rev := Paper.rev paper;
             AppendResult.highlightLines := None |},
          paper).
Proof.
  intros Hcols Htrim. unfold write_append.
  destruct (getVisualLines_returns paper Hcols) as (vis & E & _).
  rewrite E, Htrim. reflexivity.
Qed.

Lemma write_append_empty_rejected_witness :
  1 <= 26 /\ trim (lit "  ") = []
  /\ write_append (lit "  ") true (seed (lit "abc") (createPaperKernel 26))
     = Some ({| AppendResult.ok := false;
                AppendResult.op := lit "write_append";
                AppendResult.reason := Some (lit "empty_text");
                AppendResult.paper_rev := 1;
                AppendResult.highlightLines := None |},
             seed (lit "abc") (createPaperKernel 26)).
Proof.
  assert (H1 : 1 <= 26) by lia.
  assert (H2 : trim (lit "  ") = []) by reflexivity.
  split; [exact H1|]. split; [exact H2|].
  exact (write_append_empty_rejected (seed (lit "abc") (createPaperKernel 26))
           (lit "  ") true H1 H2).
Defined.

(** Every replace that returns has advanced the revision by one, whether
    or not it changed the buffer. *)
Lemma writeReplace_rev anchorLine newText paper r paper' :
  _writeReplaceInternal anchorLine newText paper = Some (r, paper') ->
  Paper.rev paper' = S (Paper.rev paper)
  /\ ReplaceResult.paper_rev r = S (Paper.rev paper).
Proof.
  unfold _writeReplaceInternal, _setDiff.
  destruct (getVisualLines paper) as [beforeVis|]; [|discriminate].
  destruct (index beforeVis _) as [target|]; [|discriminate].
  match goal with
  | |- context [getVisualLines ?p1] =>
      destruct (getVisualLines p1) as [afterVis|]; [|discriminate]
  end.
  simpl. intros H. injection H as <- <-. split; reflexivity.
Qed.

(** C1, at inputs where the code does otherwise.  The buffer is "abc",
    one visual line; [write_replace(1, "abc")] replaces the line by itself.
    The buffer is as it was, yet the revision has advanced from 1 to 2, and
    the result - [ok], [anchorLine], [removedText], [removedLines],
    [paper_rev], [highlightLines], [op] - has no field [changed].  In the
    same way [clear_all] on a new kernel, whose buffer is empty, leaves the
    buffer empty and advances the revision from 0 to 1. *)
Theorem write_replace_same_text_advances_rev :
  (let paper := seed (lit "abc") (createPaperKernel defaultCols) in
   exists r paper',
     write_replace (Fin 1) (lit "abc") paper = Some (r, paper')
     /\ Paper.text paper' = Paper.text paper
     /\ Paper.rev paper = 1
     /\ Paper.rev paper' = 2
     /\ ReplaceResult.paper_rev r = 2
     /\ ReplaceResult.ok r = true
     /\ ReplaceResult.removedText r = Some (lit "abc"))
  /\ (let paper := createPaperKernel defaultCols in
      exists r paper',
        clear_all paper = Some (r, paper')
        /\ Paper.text paper' = Paper.text paper
        /\ Paper.rev paper = 0
        /\ Paper.rev paper' = 1
        /\ ClearAllResult.paper_rev r = 1
        /\ ClearAllResult.ok r = true).
Proof.
  split.
  - eexists. eexists. split; [vm_compute; reflexivity|]. repeat split.
  - eexists. eexists. split; [vm_compute; reflexivity|]. repeat split.
Qed.

(** C3, at an input where the code does otherwise.  At a width of 10 the
    buffer "a bbbbbbbbbb c" has the three lines "a", "bbbbbbbbbb" and "c".
    [write_replace(2, empty)] leaves "a  c", which is one line, "a c", from
    offset 0 to offset 4; the cut was made at offset 2, inside that line,
    and the line is reported as highlighted. *)
Theorem clear_line_highlights_joined_line :
  let paper :=
    seed (lit "a bbbbbbbbbb c") (setCols (Fin 10) (createPaperKernel defaultCols)) in
  option_map (map text) (getVisualLines paper)
  = Some [lit "a"; lit "bbbbbbbbbb"; lit "c"]
  /\ exists r paper',
      write_replace (Fin 2) [] paper = Some (r, paper')
      /\ Paper.text paper' = lit "a  c"
      /\ getVisualLines paper'
         = Some [{| lineNo := 1; text := lit "a c"; start := 0; end_ := 4 |}]
      /\ ReplaceResult.removedLines r = Some [lit "bbbbbbbbbb"]
      /\ ReplaceResult.removedText r = None
      /\ ReplaceResult.highlightLines r = [1]
      /\ option_map Diff.highlightLines (Paper.diff paper') = Some [1].
Proof.
  split; [vm_compute; reflexivity|].
  eexists. eexists. split; [vm_compute; reflexivity|].
  repeat split.
Qed.

(** ** Line numbers *)

Lemma Qmin_inject a b : Qmin (inject_Z a) (inject_Z b) = inject_Z (Z.min a b).
Proof.
  unfold Qmin, GenericMinMax.gmin, Qcompare, Z.min. simpl.
  rewrite !Z.mul_1_r. destruct (a ?= b)%Z; reflexivity.
Qed.

Lemma Qmax_inject a b : Qmax (inject_Z a) (inject_Z b) = inject_Z (Z.max a b).
Proof.
  unfold Qmax, GenericMinMax.gmax, Qcompare, Z.max. simpl.
  rewrite !Z.mul_1_r. destruct (a ?= b)%Z; reflexivity.
Qed.

(** Clamping always gives a finite number between the bounds. *)
Lemma clamp_fin x d lo len :
  (lo <= inject_Z len)%Q ->
  exists r,
    jsmax (Fin lo) (jsmin (orElse x (Fin d)) (Fin (inject_Z len))) = Fin r
    /\ (lo <= r)%Q /\ (r <= inject_Z len)%Q.
Proof.
  intros Hlo.
  assert (Hd : forall q,
             (lo <= Qmax lo (Qmin q (inject_Z len)))%Q
             /\ (Qmax lo (Qmin q (inject_Z len)) <= inject_Z len)%Q).
  { intros q. split; [apply Q.le_max_l|].
    apply Q.max_lub; [exact Hlo | apply Q.le_min_r]. }
  destruct x as [q| | |]; simpl.
  - destruct (Qeq_bool q 0); simpl; eexists; (split; [reflexivity | apply Hd]).
  - eexists. split; [reflexivity | apply Hd].
  - eexists. split; [reflexivity|]. split; [apply Q.le_max_l|].
    apply Q.max_lub; [exact Hlo | apply Qle_refl].
  - eexists. split; [reflexivity|]. split; [apply Qle_refl | exact Hlo].
Qed.

Lemma clamp_int lo d x len :
  jsmax (Fin (inject_Z lo))
    (jsmin (orElse (Fin (inject_Z x)) (Fin (inject_Z d))) (ofNat len))
  = Fin (inject_Z (clampLineZ lo d x (Z.of_nat len))).
Proof.
  unfold clampLineZ, ofNat, orElse, Qeq_bool.
  change (Qnum (inject_Z x) * QDen 0)%Z with (x * 1)%Z.
  change (Qnum 0 * QDen (inject_Z x))%Z with 0%Z.
  rewrite Z.mul_1_r.
  destruct (x =? 0)%Z; unfold jsmin, jsmax;
    rewrite Qmin_inject, Qmax_inject; reflexivity.
Qed.

Lemma relIndex_int len z :
  (0 <= z)%Z -> relIndex len (Fin (inject_Z z)) = Nat.min (Z.to_nat z) len.
Proof.
  intros Hz. unfold relIndex, Qtrunc, Qle_bool. simpl.
  rewrite Z.mul_1_r, Z.div_1_r.
  destruct (Z.leb_spec 0 z) as [_|H]; [|lia].
  destruct (Z.ltb_spec z 0) as [H|_]; [lia | reflexivity].
Qed.

Lemma relIndex_pred len z :
  (1 <= z)%Z ->
  relIndex len (jssub (Fin (inject_Z z)) 1) = Nat.min (Z.to_nat z - 1) len.
Proof.
  intros Hz. unfold relIndex, jssub, jsadd, Qtrunc, Qle_bool. simpl.
  rewrite !Z.mul_1_r, Z.div_1_r.
  destruct (Z.leb_spec 0 (z + -1)) as [_|H]; [|lia].
  destruct (Z.ltb_spec (z + -1) 0) as [H|_]; [lia|].
  f_equal. lia.
Qed.

Lemma slice_one {A : Type} (l : list A) n :
  1 <= n -> n <= length l ->
  exists v, nth_error l (n - 1) = Some v /\ slice l (n - 1) n = [v].
Proof.
  intros H1 Hn. unfold slice. replace (n - (n - 1)) with 1 by lia.
  destruct (skipn (n - 1) l) as [|v r] eqn:E.
  - apply skipn_nil_iff in E. lia.
  - exists v. split; [|reflexivity].
    rewrite <- (Nat.add_0_r (n - 1)), <- nth_error_skipn, E. reflexivity.
Qed.

(** C2, as the code has it.  [read] leaves the state as it is.  It clamps
    [startLine] into [1, lineCount], which gives [s], and [endLine] into
    [s, lineCount], which gives [e]: an end before the start is raised to
    the start, the bounds are not swapped.  This holds for every number,
    NaN and the infinities included.  For whole numbers the lines returned
    are the visual lines [s] to [e]; so [read(a, b)] with [b < a] and [a] in
    range returns line [a] alone, and on a buffer of three lines
    [read(-5, 99999)] returns exactly the lines 1 to 3. *)
Theorem read_clamps_without_swap paper :
  1 <= Paper.cols paper ->
  exists vis,
    getVisualLines paper = Some vis
    /\ (forall startLine endLine,
           exists s e ls,
             read startLine endLine paper
             = Some ({| ReadResult.rev := Paper.rev paper;
                        ReadResult.startLine := Fin s;
                        ReadResult.endLine := Fin e;
                        ReadResult.lines := ls |}, paper)
             /\ (1 <= s)%Q /\ (s <= e)%Q
             /\ (e <= inject_Z (Z.of_nat (length vis)))%Q)
    /\ (forall a b : Z,
           let s := clampLineZ 1 1 a (Z.of_nat (length vis)) in
           let e := clampLineZ s s b (Z.of_nat (length vis)) in
           read (Fin (inject_Z a)) (Fin (inject_Z b)) paper
           = Some ({| ReadResult.rev := Paper.rev paper;
                      ReadResult.startLine := Fin (inject_Z s);
                      ReadResult.endLine := Fin (inject_Z e);
                      ReadResult.lines := slice vis (Z.to_nat s - 1) (Z.to_nat e) |},
                   paper))
    /\ (forall a b : Z,
           (1 <= a <= Z.of_nat (length vis))%Z -> (b < a)%Z ->
           exists v r,
             nth_error vis (Z.to_nat a - 1) = Some v
             /\ read (Fin (inject_Z a)) (Fin (inject_Z b)) paper = Some (r, paper)
             /\ ReadResult.lines r = [v])
    /\ (length vis = 3 ->
        exists r,
          read (Fin (-5)) (Fin 99999) paper = Some (r, paper)
          /\ ReadResult.lines r = vis).
Proof.
  intros Hcols.
  destruct (getVisualLines_returns paper Hcols) as (vis & E & Hlen).
  exists vis. split; [exact E|].
  assert (Hone : (1 <= inject_Z (Z.of_nat (length vis)))%Q).
  { change 1%Q with (inject_Z 1). rewrite <- Zle_Qle. lia. }
  assert (HB : forall a b : Z,
             let s := clampLineZ 1 1 a (Z.of_nat (length vis)) in
             let e := clampLineZ s s b (Z.of_nat (length vis)) in
             read (Fin (inject_Z a)) (Fin (inject_Z b)) paper
             = Some ({| ReadResult.rev := Paper.rev paper;
                        ReadResult.startLine := Fin (inject_Z s);
                        ReadResult.endLine := Fin (inject_Z e);
                        ReadResult.lines :=
                          slice vis (Z.to_nat s - 1) (Z.to_nat e) |},
                     paper)).
  { intros a b s e. unfold read. rewrite E.
    change (Fin 1) with (Fin (inject_Z 1)).
    rewrite (clamp_int 1 1 a (length vis)). fold s.
    rewrite (clamp_int s s b (length vis)). fold e.
    assert (Hs : (1 <= s <= Z.of_nat (length vis))%Z)
      by (unfold s, clampLineZ; lia).
    assert (He : (s <= e <= Z.of_nat (length vis))%Z)
      by (unfold e, clampLineZ; lia).
    unfold jsslice.
    rewrite relIndex_pred by lia. rewrite relIndex_int by lia.
    rewrite !Nat.min_l by lia. reflexivity. }
  split; [|split; [exact HB|split]].
  - intros startLine endLine. unfold read. rewrite E. unfold ofNat.
    destruct (clamp_fin startLine 1 1 (Z.of_nat (length vis)) Hone)
      as (s & -> & Hs1 & Hs2).
    destruct (clamp_fin endLine s s (Z.of_nat (length vis)) Hs2)
      as (e & -> & He1 & He2).
    exists s, e. eexists. split; [reflexivity|]. repeat split; assumption.
  - intros a b Ha Hb. specialize (HB a b). cbv zeta in HB.
    assert (Hs : clampLineZ 1 1 a (Z.of_nat (length vis)) = a).
    { unfold clampLineZ. destruct (Z.eqb_spec a 0); lia. }
    rewrite Hs in HB.
    assert (He : clampLineZ a a b (Z.of_nat (length vis)) = a).
    { unfold clampLineZ. destruct (Z.eqb_spec b 0); lia. }
    rewrite He in HB.
    destruct (@slice_one _ vis (Z.to_nat a)) as (v & Hv & Hsl); [lia | lia |].
    exists v. eexists. split; [exact Hv|]. split; [exact HB|]. exact Hsl.
  - intros H3. specialize (HB (-5)%Z 99999%Z). cbv zeta in HB.
    rewrite H3 in HB. eexists. split; [exact HB|].
    destruct vis as [|v1 [|v2 [|v3 [|v4 vis]]]]; try discriminate. reflexivity.
Qed.

Lemma read_clamps_without_swap_witness :
  1 <= Paper.cols (seed (lit "a bbbbbbbbbb c")
                     (setCols (Fin 10) (createPaperKernel defaultCols)))
  /\ exists vis,
      getVisualLines (seed (lit "a bbbbbbbbbb c")
                        (setCols (Fin 10) (createPaperKernel defaultCols)))
      = Some vis
      /\ length vis = 3.
Proof.
  assert (H : 1 <= Paper.cols (seed (lit "a bbbbbbbbbb c")
                                 (setCols (Fin 10) (createPaperKernel defaultCols))))
    by (simpl; lia).
  split; [exact H|].
  destruct (read_clamps_without_swap
              (seed (lit "a bbbbbbbbbb c")
                 (setCols (Fin 10) (createPaperKernel defaultCols))) H)
    as (vis & E & _).
  exists vis. split; [exact E|].
  vm_compute in E. injection E as <-. reflexivity.
Defined.

(** C2 as stated fails: on a buffer of three lines [read(3, 1)] returns
    line 3 alone, and [read(1, 3)] returns the three lines. *)
Lemma read_reversed_counterexample :
  let paper :=
    seed (lit "a bbbbbbbbbb c") (setCols (Fin 10) (createPaperKernel defaultCols)) in
  exists r31 r13,
    read (Fin 3) (Fin 1) paper = Some (r31, paper)
    /\ read (Fin 1) (Fin 3) paper = Some (r13, paper)
    /\ map text (ReadResult.lines r31) = [lit "c"]
    /\ map text (ReadResult.lines r13) = [lit "a"; lit "bbbbbbbbbb"; lit "c"]
    /\ ReadResult.lines r31 <> ReadResult.lines r13.
Proof.
  eexists. eexists. split; [vm_compute; reflexivity|].
  split; [vm_compute; reflexivity|].
  split; [reflexivity|]. split; [reflexivity|]. discriminate.
Qed.

Lemma index_pred {A : Type} (arr : list A) z :
  (1 <= z)%Z ->
  index arr (jssub (Fin (inject_Z z)) 1) = nth_error arr (Z.to_nat z - 1).
Proof.
  intros Hz. unfold index, jssub, jsadd, isInteger, Qeq_bool, Qle_bool. simpl.
  rewrite !Z.mul_1_r, Z.div_1_r, Z.eqb_refl. simpl.
  destruct (Z.leb_spec 0 (z + -1)) as [_|H]; [|lia].
  f_equal. lia.
Qed.

(** What a clear removes.  For every buffer, every line number in range
    and every new text that is empty once normalised, the result and the
    diff record of [write_replace] have [removedLines = [text of the
    line]] and [removedText = null]. *)
Lemma write_replace_clear_removed paper vis n target newText :
  1 <= Paper.cols paper ->
  getVisualLines paper = Some vis ->
  nth_error vis n = Some target ->
  trim (collapseWs newText) = [] ->
  exists r paper',
    write_replace (ofNat (S n)) newText paper = Some (r, paper')
    /\ ReplaceResult.anchorLine r = ofNat (S n)
    /\ ReplaceResult.removedLines r = Some [text target]
    /\ ReplaceResult.removedText r = None
    /\ option_map Diff.removedLines (Paper.diff paper') = Some (Some [text target])
    /\ option_map Diff.removedText (Paper.diff paper') = Some None
    /\ Paper.text paper'
       = firstn (start target) (Paper.text paper)
         ++ skipn (end_ target) (Paper.text paper).
Proof.
  intros Hcols E Hn Hrep.
  assert (Hlen : n < length vis) by (apply nth_error_Some; congruence).
  unfold write_replace, _writeReplaceInternal. rewrite E.
  change (Fin 1) with (Fin (inject_Z 1)).
  change (ofNat (S n)) with (Fin (inject_Z (Z.of_nat (S n)))).
  rewrite (clamp_int 1 1 (Z.of_nat (S n)) (length vis)).
  assert (HN : clampLineZ 1 1 (Z.of_nat (S n)) (Z.of_nat (length vis))
               = Z.of_nat (S n)).
  { unfold clampLineZ. destruct (Z.eqb_spec (Z.of_nat (S n)) 0); lia. }
  rewrite HN, index_pred by lia.
  replace (Z.to_nat (Z.of_nat (S n)) - 1) with n by lia.
  rewrite Hn, Hrep. simpl length. simpl Nat.eqb. cbv iota.
  set (paper1 := {| Paper.cols := Paper.cols paper;
                    Paper.rev := S (Paper.rev paper);
                    Paper.text := _; Paper.diff := Paper.diff paper |}).
  destruct (getVisualLines_returns paper1 Hcols) as (afterVis & E1 & _).
  unfold _setDiff. rewrite E1.
  eexists. eexists. split; [reflexivity|].
  simpl. unfold slice. rewrite Nat.sub_0_r. repeat split.
Qed.

(** ** A width of zero *)

(** With a width of zero a paragraph that has a word is never finished:
    the word is cut to nothing, the cursor stays at its first character,
    and no amount of fuel is enough.  This is why the properties above ask
    for a width of at least one. *)
Lemma wrapPara_zero_width pStart para fuel c ln :
  scan is_space para c < length para ->
  wrapPara 0 pStart para fuel c ln = None.
Proof.
  revert c ln. induction fuel as [|fuel IH]; intros c ln Hmore; [reflexivity|].
  rewrite wrapPara_unfold.
  pose proof (scan_ge is_space para c) as Hc.
  destruct (Nat.ltb_spec c (length para)) as [_|H]; [|lia].
  destruct (Nat.leb_spec (length para) (scan is_space para c)) as [H|_]; [lia|].
  set (c1 := scan is_space para c) in *.
  destruct (scan_more_head para c Hmore) as (x & r & Hx & Hsp). fold c1 in Hx.
  destruct (@word_at para c1 x r Hx Hsp) as (w & rest & Hsk & Hne & Hw & Hrest).
  destruct (word_starts_line para c1 w rest Hsk Hne Hw) as (Hscan & _).
  assert (HL : lineFrom 0 pStart para c = lineFrom 0 pStart para c1).
  { unfold lineFrom. fold c1. rewrite Hscan. reflexivity. }
  assert (Hlong : 0 < length w) by (destruct w; [congruence | simpl; lia]).
  rewrite HL, (lineFrom_cut 0 pStart para c1 w rest Hsk Hw Hrest Hlong).
  simpl cursor. rewrite Nat.add_0_r.
  rewrite IH; [reflexivity|]. rewrite Hscan. exact Hmore.
Qed.

Example zero_width_never_returns :
  layoutWordWrapWithOffsets (lit "a") 0 = None.
Proof. reflexivity. Qed.

(** * Further properties *)

(** ** The span of a line *)

Lemma firstn_plus {A : Type} (n m : nat) (l : list A) :
  firstn (n + m) l = firstn n l ++ firstn m (skipn n l).
Proof.
  revert l. induction n as [|n IH]; intros l; simpl; [reflexivity|].
  destruct l as [|x l]; simpl.
  - rewrite firstn_nil. reflexivity.
  - rewrite IH. reflexivity.
Qed.

Lemma slice_app {A : Type} (l : list A) a b c :
  a <= b -> b <= c -> slice l a c = slice l a b ++ slice l b c.
Proof.
  intros Hab Hbc. unfold slice.
  replace (c - a) with ((b - a) + (c - b)) by lia.
  rewrite firstn_plus, skipn_skipn.
  replace (b - a + a) with b by lia. reflexivity.
Qed.

Lemma slice_nil {A : Type} (l : list A) a : slice l a a = [].
Proof. unfold slice. rewrite Nat.sub_diag. reflexivity. Qed.

Lemma slice_prefix {A : Type} (l x y : list A) c k :
  skipn c l = x ++ y -> k <= length x -> slice l c (c + k) = firstn k x.
Proof.
  intros Hsk Hk. unfold slice. replace (c + k - c) with k by lia.
  rewrite Hsk, firstn_app. replace (k - length x) with 0 by lia.
  simpl. apply app_nil_r.
Qed.

Lemma slice_length {A : Type} (l : list A) a b :
  a <= b -> b <= length l -> length (slice l a b) = b - a.
Proof.
  intros Hab Hb. unfold slice. rewrite length_firstn, length_skipn. lia.
Qed.

Lemma slice_In {A : Type} (l : list A) a b x : In x (slice l a b) -> In x l.
Proof.
  unfold slice. intros H.
  rewrite <- (firstn_skipn a l). apply in_or_app. right.
  rewrite <- (firstn_skipn (b - a) (skipn a l)). apply in_or_app. left. exact H.
Qed.

(** A part of a paragraph, seen from the buffer. *)
Lemma slice_sub (s para tail : str) i a b :
  skipn i s = para ++ tail -> a <= b -> b <= length para ->
  slice s (i + a) (i + b) = slice para a b.
Proof.
  intros Hsk Hab Hb. unfold slice.
  replace (i + b - (i + a)) with (b - a) by lia.
  replace (i + a) with (a + i) by lia.
  rewrite <- skipn_skipn, Hsk, skipn_app.
  replace (a - length para) with 0 by lia. simpl.
  rewrite firstn_app, length_skipn.
  replace (b - a - (length para - a)) with 0 by lia.
  simpl. apply app_nil_r.
Qed.

Lemma unwords_one w : unwords [w] = w.
Proof. reflexivity. Qed.

Lemma unwords_snoc ws w :
  ws <> [] -> unwords (ws ++ [w]) = unwords ws ++ " "%char :: w.
Proof.
  induction ws as [|x ws IH]; intros Hne; [congruence|].
  destruct ws as [|y ws].
  - reflexivity.
  - change (unwords ((x :: y :: ws) ++ [w]))
      with (x ++ [" "%char] ++ unwords ((y :: ws) ++ [w])).
    rewrite IH by discriminate.
    change (unwords (x :: y :: ws)) with (x ++ [" "%char] ++ unwords (y :: ws)).
    rewrite <- !app_assoc. reflexivity.
Qed.

Lemma unwords_nil_inv ws : unwords ws <> [] -> ws <> [].
Proof. intros H E. subst ws. apply H. reflexivity. Qed.

Lemma words_noSpaces w : noSpaces w -> unwords (words is_space w) = w.
Proof.
  intros Hw. destruct w as [|c w]; [reflexivity|].
  rewrite (@words_word is_space (c :: w)); [reflexivity | discriminate | exact Hw].
Qed.

Lemma noSpaces_firstn n w : noSpaces w -> noSpaces (firstn n w).
Proof.
  intros Hw. unfold noSpaces in *. rewrite <- (firstn_skipn n w) in Hw.
  apply Forall_app in Hw. apply Hw.
Qed.

(** The first word of a line. *)
Lemma lineSpan_first pStart para st sp word rest :
  skipn (cursor st) para = sp ++ word ++ rest ->
  word <> [] -> noSpaces word -> atWordEnd rest ->
  cursor st + length sp + length word <= length para ->
  lineText st = [] ->
  let st' :=
    {| cursor := cursor st + length sp + length word + span is_space rest;
       lineStartAbs := pStart + (cursor st + length sp);
       lineEndAbs := pStart + (cursor st + length sp + length word);
       lineText := word |} in
  lineSpan pStart para st' (cursor st + length sp)
    (cursor st + length sp + length word)
  /\ lineGap para st' (cursor st + length sp + length word).
Proof.
  intros Hsk Hne Hw Hrest Hle Ht st'.
  assert (Hsk2 : skipn (cursor st + length sp) para = word ++ rest).
  { replace (cursor st + length sp) with (length sp + cursor st) by lia.
    rewrite <- skipn_skipn, Hsk, skipn_app, skipn_all, Nat.sub_diag.
    reflexivity. }
  assert (Hsk3 : skipn (cursor st + length sp + length word) para = rest).
  { replace (cursor st + length sp + length word)
      with (length word + (cursor st + length sp)) by lia.
    rewrite <- skipn_skipn, Hsk2, skipn_app, skipn_all, Nat.sub_diag.
    reflexivity. }
  assert (Hspan : cursor st + length sp + length word + span is_space rest
                  <= length para).
  { pose proof (span_le is_space rest) as H.
    pose proof (length_skipn (cursor st + length sp + length word) para) as L.
    rewrite Hsk3 in L. lia. }
  assert (Hslice : slice para (cursor st + length sp)
                     (cursor st + length sp + length word) = word).
  { rewrite (slice_prefix para word rest _ _ Hsk2) by lia. apply firstn_all. }
  split.
  - unfold lineSpan, st'; simpl. repeat split; try lia.
    + rewrite Hslice. symmetry. apply words_noSpaces. exact Hw.
    + intros E. congruence.
    + intros E. destruct word; [congruence | simpl in E; lia].
  - unfold lineGap, st'; simpl. split.
    + assert (Hg : slice para (cursor st + length sp + length word)
                     (cursor st + length sp + length word + span is_space rest)
                   = firstn (span is_space rest) rest).
      { apply (slice_prefix para rest []); [|apply span_le].
        rewrite app_nil_r. exact Hsk3. }
      rewrite Hg. apply span_firstn.
    + intros _ E.
      assert (Hz : span is_space rest = 0) by lia.
      destruct Hrest as [->|(c & r & -> & Hc)].
      * apply skipn_nil_iff in Hsk3. lia.
      * simpl in Hz. rewrite Hc in Hz. discriminate.
Qed.

(** A further word of a line. *)
Lemma lineSpan_next pStart para st a b sp word rest :
  lineSpan pStart para st a b -> lineGap para st b ->
  lineText st <> [] ->
  skipn (cursor st) para = sp ++ word ++ rest ->
  allSpaces sp -> word <> [] -> noSpaces word -> atWordEnd rest ->
  cursor st + length sp + length word <= length para ->
  let st' :=
    {| cursor := cursor st + length sp + length word + span is_space rest;
       lineStartAbs := lineStartAbs st;
       lineEndAbs := pStart + (cursor st + length sp + length word);
       lineText := lineText st ++ " "%char :: word |} in
  lineSpan pStart para st' a (cursor st + length sp + length word)
  /\ lineGap para st' (cursor st + length sp + length word).
Proof.
  intros (Hs & He & Hab & Hbc & Hcl & Ht & Hiff) (Hgap & Hsep) Hne Hsk Hsp Hw Hns
         Hrest Hle st'.
  set (b' := cursor st + length sp + length word) in *.
  assert (Hsk3 : skipn b' para = rest).
  { unfold b'.
    replace (cursor st + length sp + length word)
      with (length (sp ++ word) + cursor st) by (rewrite length_app; lia).
    rewrite <- skipn_skipn, Hsk, app_assoc, skipn_app, skipn_all, Nat.sub_diag.
    reflexivity. }
  assert (Hspan : b' + span is_space rest <= length para).
  { pose proof (span_le is_space rest) as H.
    pose proof (length_skipn b' para) as L. rewrite Hsk3 in L. lia. }
  assert (Hcur : slice para (cursor st) b' = sp ++ word).
  { unfold b'. rewrite <- Nat.add_assoc.
    rewrite (slice_prefix para (sp ++ word) rest);
      [rewrite <- length_app; apply firstn_all
      | rewrite <- app_assoc; exact Hsk
      | rewrite length_app; lia]. }
  assert (Hslice : slice para a b'
                   = slice para a b ++ (slice para b (cursor st) ++ sp) ++ word).
  { rewrite (slice_app para a b b') by (unfold b'; lia).
    rewrite (slice_app para b (cursor st) b') by (unfold b'; lia).
    rewrite Hcur, <- !app_assoc. reflexivity. }
  assert (Hgap' : allSpaces (slice para b (cursor st) ++ sp)).
  { apply Forall_app. split; assumption. }
  assert (Hgne : slice para b (cursor st) ++ sp <> []).
  { intros E. apply app_eq_nil in E. destruct E as [E1 E2].
    pose proof (slice_length para b (cursor st) Hbc Hcl) as L.
    rewrite E1 in L. simpl in L.
    assert (Hb : b = cursor st) by lia.
    specialize (Hsep Hne Hb).
    destruct word; [congruence | simpl in Hle; unfold b' in *; simpl in *; lia]. }
  assert (Hwords : words is_space (slice para a b')
                   = words is_space (slice para a b) ++ [word]).
  { rewrite Hslice.
    destruct (slice para b (cursor st) ++ sp) as [|c g] eqn:Eg; [congruence|].
    inversion Hgap' as [|c0 g0 Hc Hg]; subst.
    change ((c :: g) ++ word) with (c :: (g ++ word)).
    rewrite (@words_app_sep is_space _ c _ Hc).
    rewrite (@words_seps_app is_space g word Hg).
    rewrite (@words_word is_space word Hw Hns). reflexivity. }
  split.
  - unfold lineSpan, st'; simpl. repeat split; try (unfold b'; lia); try assumption.
    + rewrite Hwords, unwords_snoc.
      * rewrite <- Ht. reflexivity.
      * apply unwords_nil_inv. rewrite <- Ht. exact Hne.
    + intros E. destruct (lineText st); discriminate.
    + intros E. exfalso. apply Hne. apply Hiff.
      destruct word; [congruence | unfold b' in *; simpl in *; lia].
  - unfold lineGap, st'; simpl. split.
    + assert (Hg : slice para b' (b' + span is_space rest)
                   = firstn (span is_space rest) rest).
      { apply (slice_prefix para rest []); [|apply span_le].
        rewrite app_nil_r. exact Hsk3. }
      rewrite Hg. apply span_firstn.
    + intros _ E.
      assert (Hz : span is_space rest = 0) by lia.
      destruct Hrest as [->|(c & r & -> & Hc)].
      * apply skipn_nil_iff in Hsk3. lia.
      * simpl in Hz. rewrite Hc in Hz. discriminate.
Qed.

(** The line that is the beginning of a word too long for it. *)
Lemma lineSpan_cut cols pStart para st sp word rest :
  skipn (cursor st) para = sp ++ word ++ rest ->
  noSpaces word ->
  cursor st + length sp + length word <= length para ->
  let st' :=
    {| cursor := cursor st + length sp + Nat.min cols (length word);
       lineStartAbs := pStart + (cursor st + length sp);
       lineEndAbs := pStart + (cursor st + length sp)
                     + Nat.min cols (length word);
       lineText := firstn cols word |} in
  lineSpan pStart para st' (cursor st + length sp)
    (cursor st + length sp + Nat.min cols (length word)).
Proof.
  intros Hsk Hns Hle st'.
  assert (Hsk2 : skipn (cursor st + length sp) para = word ++ rest).
  { replace (cursor st + length sp) with (length sp + cursor st) by lia.
    rewrite <- skipn_skipn, Hsk, skipn_app, skipn_all, Nat.sub_diag.
    reflexivity. }
  assert (Hslice : slice para (cursor st + length sp)
                     (cursor st + length sp + Nat.min cols (length word))
                   = firstn cols word).
  { rewrite (slice_prefix para word rest _ _ Hsk2) by lia.
    destruct (Nat.le_ge_cases cols (length word)) as [H|H].
    - rewrite Nat.min_l by exact H. reflexivity.
    - rewrite Nat.min_r by exact H.
      rewrite firstn_all, firstn_all2 by exact H. reflexivity. }
  assert (Hlen : length (firstn cols word) = Nat.min cols (length word))
    by apply length_firstn.
  unfold lineSpan, st'; simpl. repeat split; try lia.
  - rewrite Hslice. symmetry. apply words_noSpaces, noSpaces_firstn. exact Hns.
  - intros E. rewrite E in Hlen. simpl in Hlen. lia.
  - intros E. destruct (firstn cols word); [reflexivity | simpl in Hlen; lia].
Qed.

(** The line loop keeps the line a faithful picture of its span. *)
Lemma fillLine_span cols pStart para fuel st a b :
  lineSpan pStart para st a b -> lineGap para st b ->
  exists a' b', lineSpan pStart para (fillLine cols pStart para fuel st) a' b'.
Proof.
  revert st a b. induction fuel as [|fuel IH]; intros st a b Hspan Hgap; simpl.
  - exists a, b. exact Hspan.
  - destruct (fillStep cols pStart para st) as [st'|st'] eqn:E.
    + apply fillStep_Continue in E.
      destruct E as (sp & word & rest & Hsk & Hsp & Hne & Hns & Hrest & _ & Hle
                     & _ & ->).
      unfold candidateOf.
      destruct (lineText st) as [|t0 t] eqn:Et; simpl isEmpty; cbv iota.
      * destruct (lineSpan_first pStart para st sp word rest Hsk Hne Hns Hrest
                    Hle Et) as (S1 & G1).
        eapply IH; eassumption.
      * assert (Hne' : lineText st <> []) by (rewrite Et; discriminate).
        destruct (lineSpan_next pStart para st a b sp word rest Hspan Hgap Hne'
                    Hsk Hsp Hne Hns Hrest Hle) as (S1 & G1).
        rewrite Et in S1, G1.
        eapply IH; eassumption.
    + apply fillStep_Break in E.
      destruct E as [->|(Ht & sp & word & rest & Hsk & Hsp & Hne & Hns & Hrest
                         & Hle & Hgt & ->)].
      * exists a, b. exact Hspan.
      * eexists. eexists.
        apply (lineSpan_cut cols pStart para st sp word rest Hsk Hns Hle).
Qed.

Lemma lineFrom_span cols pStart para c :
  scan is_space para c < length para ->
  lineShowsSpan pStart para (lineOf 0 (lineFrom cols pStart para c)).
Proof.
  intros Hmore. unfold lineFrom.
  set (c1 := scan is_space para c) in *.
  destruct (fillLine_span cols pStart para (length para) (lineInit pStart c1) c1 c1)
    as (a & b & Hs & He & Hab & Hbc & Hcl & Ht & Hiff).
  - unfold lineSpan, lineInit; simpl. rewrite slice_nil.
    repeat split; try lia; reflexivity.
  - unfold lineGap, lineInit; simpl. rewrite slice_nil. split; [constructor|].
    intros H. congruence.
  - exists a, b. simpl. repeat split; try assumption; try lia; apply Hiff.
Qed.

Lemma wrapPara_spans cols pStart para fuel c ln ls :
  1 <= cols -> length para - c < fuel ->
  wrapPara cols pStart para fuel c ln = Some ls ->
  Forall (lineShowsSpan pStart para) ls.
Proof.
  intros Hcols Hfuel E.
  destruct (@wrapPara_lines cols pStart para
              (fun _ _ ls => Forall (lineShowsSpan pStart para) ls) Hcols)
    with (fuel := fuel) (c := c) (ln := ln) as (ls' & E' & H).
  - intros. constructor.
  - intros c0 ln0 rest Hmore Hrest. constructor; [|exact Hrest].
    exact (lineFrom_span cols pStart para c0 Hmore).
  - exact Hfuel.
  - congruence.
Qed.

Lemma lineShowsSpan_buffer s para tail i v :
  skipn i s = para ++ tail -> noNewlines para -> i + length para <= length s ->
  lineShowsSpan i para v -> showsSpan s v.
Proof.
  intros Hsk Hnn Hlen (a & b & Hs & He & Hab & Hb & Ht & Hiff).
  unfold showsSpan. rewrite Hs, He.
  rewrite (slice_sub s para tail i a b Hsk Hab Hb).
  repeat split; try lia.
  - unfold noNewlines in *. apply Forall_forall. intros x Hx.
    apply slice_In in Hx. revert x Hx. apply Forall_forall. exact Hnn.
  - exact Ht.
  - intros E. apply Hiff in E. lia.
  - intros E. apply Hiff. lia.
Qed.

Lemma emptyLine_showsSpan s para n i :
  i <= length s -> Forall (showsSpan s) (emptyLine para n i).
Proof.
  intros Hi. unfold emptyLine. destruct (length para =? 0); constructor; [|constructor].
  unfold showsSpan; simpl. rewrite slice_nil.
  repeat split; try lia; try constructor.
Qed.

Lemma layoutParas_spans cols s fuel i ln :
  1 <= cols -> i <= length s -> length s - i < fuel ->
  exists out,
    layoutParas cols s fuel i ln = Some out /\ Forall (showsSpan s) out.
Proof.
  intros Hcols.
  apply (@layoutParas_paras cols s (fun _ _ out => Forall (showsSpan s) out) Hcols);
    clear fuel i ln.
  - intros i ln para ls Hsk Hnn Hlen Hw _.
    rewrite <- (app_nil_r para) in Hsk.
    apply Forall_app. split; [|apply emptyLine_showsSpan; lia].
    eapply Forall_impl;
      [|apply (wrapPara_spans cols i para (S (length para)) 0 ln ls Hcols);
         [lia | exact Hw]].
    intros v. apply (lineShowsSpan_buffer s para [] i v Hsk Hnn). lia.
  - intros i ln para c r ls rest Hsk Hc Hnn Hlt Hr Hw _ Hrest.
    apply Forall_app. split; [|apply Forall_app; split].
    + eapply Forall_impl;
        [|apply (wrapPara_spans cols i para (S (length para)) 0 ln ls Hcols);
         [lia | exact Hw]].
      intros v. apply (lineShowsSpan_buffer s para (c :: r) i v Hsk Hnn). lia.
    + apply emptyLine_showsSpan. lia.
    + exact Hrest.
Qed.

Lemma layout_spans buffer cols :
  1 <= cols ->
  exists vis,
    layoutWordWrapWithOffsets buffer cols = Some vis
    /\ Forall (showsSpan buffer) vis.
Proof.
  intros Hcols. rewrite layout_unfold.
  destruct (layoutParas_spans cols buffer (S (length buffer)) 0 1 Hcols)
    as (out & E & H); [lia | lia |].
  rewrite E. eexists. split; [reflexivity|].
  destruct out as [|v out]; simpl; [|exact H].
  constructor; [|constructor].
  unfold showsSpan; simpl. rewrite slice_nil.
  repeat split; try lia; try constructor.
Qed.

(** X1. For every buffer and every width of at least one, every visual
    line lies within the buffer and within one paragraph: its end is no
    later than the end of the buffer, and between its start and its end
    the buffer has no newline. *)
Theorem line_spans_inside_paragraphs buffer cols :
  1 <= cols ->
  exists vis,
    layoutWordWrapWithOffsets buffer cols = Some vis
    /\ Forall (fun v => start v <= end_ v /\ end_ v <= length buffer
                        /\ noNewlines (slice buffer (start v) (end_ v))) vis.
Proof.
  intros Hcols. destruct (layout_spans buffer cols Hcols) as (vis & E & H).
  exists vis. split; [exact E|].
  eapply Forall_impl; [|exact H].
  intros v (H1 & H2 & H3 & _). repeat split; assumption.
Qed.

Lemma line_spans_inside_paragraphs_witness :
  1 <= 10 /\
  exists vis,
    layoutWordWrapWithOffsets (lit "one two" ++ "010"%char :: lit "three") 10
    = Some vis
    /\ Forall (fun v =>
                 start v <= end_ v
                 /\ end_ v <= length (lit "one two" ++ "010"%char :: lit "three")
                 /\ noNewlines
                      (slice (lit "one two" ++ "010"%char :: lit "three")
                         (start v) (end_ v))) vis.
Proof.
  split; [lia|].
  apply (line_spans_inside_paragraphs
           (lit "one two" ++ "010"%char :: lit "three") 10). lia.
Defined.

(** X2. For every buffer and every width of at least one, the text of
    every visual line is its span of the buffer with every run of spaces
    made one space: the words of the buffer from [start] to [end], joined
    by single spaces.  The text is empty exactly when the span is. *)
Theorem line_text_is_collapsed_span buffer cols :
  1 <= cols ->
  exists vis,
    layoutWordWrapWithOffsets buffer cols = Some vis
    /\ Forall (fun v =>
                 text v
                 = unwords (words is_space (slice buffer (start v) (end_ v)))
                 /\ (text v = [] <-> start v = end_ v)) vis.
Proof.
  intros Hcols. destruct (layout_spans buffer cols Hcols) as (vis & E & H).
  exists vis. split; [exact E|].
  eapply Forall_impl; [|exact H].
  intros v (_ & _ & _ & H4 & H5). split; assumption.
Qed.

Lemma line_text_is_collapsed_span_witness :
  1 <= 10 /\
  exists vis,
    layoutWordWrapWithOffsets (lit "one   two  three") 10 = Some vis
    /\ Forall (fun v =>
                 text v
                 = unwords (words is_space
                              (slice (lit "one   two  three") (start v) (end_ v)))
                 /\ (text v = [] <-> start v = end_ v)) vis.
Proof.
  split; [lia|].
  apply (line_text_is_collapsed_span (lit "one   two  three") 10). lia.
Defined.

(** ** Highlighted lines *)

Lemma computeHighlight_filter vis absStart absEnd :
  computeHighlightLinesByAbsRange vis absStart absEnd
  = map lineNo (filter (overlaps absStart (Nat.max absStart absEnd)) vis).
Proof.
  unfold computeHighlightLinesByAbsRange, orNat, overlaps.
  assert (Ha : Nat.max 0 (if absStart =? 0 then 0 else absStart) = absStart).
  { destruct (Nat.eqb_spec absStart 0); lia. }
  rewrite Ha.
  assert (Hb : Nat.max absStart (if absEnd =? 0 then absStart else absEnd)
               = Nat.max absStart absEnd).
  { destruct (Nat.eqb_spec absEnd 0); lia. }
  rewrite Hb. reflexivity.
Qed.

Lemma filter_drops {A : Type} (p : A -> bool) l :
  Forall (fun x => p x = false) l -> filter p l = [].
Proof.
  induction 1 as [|x l Hx _ IH]; simpl; [reflexivity|]. rewrite Hx. exact IH.
Qed.

Lemma filter_keeps {A : Type} (p : A -> bool) l :
  Forall (fun x => p x = true) l -> filter p l = l.
Proof.
  induction 1 as [|x l Hx _ IH]; simpl; [reflexivity|]. rewrite Hx, IH. reflexivity.
Qed.

(** In a layout in order the lines that overlap a range stand together. *)
Lemma overlap_block a b lo n vis :
  ordered lo n vis ->
  exists pre mid post,
    vis = pre ++ mid ++ post
    /\ Forall (fun v => overlaps a b v = false) pre
    /\ Forall (fun v => overlaps a b v = true) mid
    /\ Forall (fun v => overlaps a b v = false) post.
Proof.
  revert lo n. induction vis as [|v vis IH]; intros lo n Ho.
  - exists [], [], []. repeat split; constructor.
  - destruct Ho as (Hn & Hlo & Hse & Ho).
    destruct (IH _ _ Ho) as (pre & mid & post & E & Hpre & Hmid & Hpost).
    destruct (overlaps a b v) eqn:Ev.
    + destruct pre as [|u pre].
      * exists [], (v :: mid), post. simpl in E. subst vis.
        repeat split; try constructor; assumption.
      * destruct mid as [|w mid].
        -- exists [], [v], vis.
           split; [reflexivity|]. split; [constructor|].
           split; [constructor; [exact Ev | constructor]|].
           subst vis. apply Forall_app. split; [exact Hpre | exact Hpost].
        -- exfalso. subst vis.
           inversion Hpre as [|u0 pre0 Hu _]; subst.
           inversion Hmid as [|w0 mid0 Hw _]; subst.
           simpl in Ho. destruct Ho as (_ & Hvu & Huu & Ho).
           apply ordered_start in Ho.
           assert (Huw : end_ u <= start w).
           { apply (proj1 (Forall_forall _ _) Ho w).
             apply in_or_app. right. left. reflexivity. }
           unfold overlaps in *.
           apply andb_true_iff in Ev. destruct Ev as [Ev1 Ev2].
           apply andb_true_iff in Hw. destruct Hw as [Hw1 Hw2].
           apply Nat.ltb_lt in Ev1, Ev2, Hw1, Hw2.
           apply andb_false_iff in Hu.
           destruct Hu as [Hu|Hu]; apply Nat.ltb_ge in Hu; lia.
    + exists (v :: pre), mid, post. subst vis.
      repeat split; try constructor; assumption.
Qed.

Lemma ordered_skip lo n pre l :
  ordered lo n (pre ++ l) -> exists lo', ordered lo' (n + length pre) l.
Proof.
  revert lo n. induction pre as [|v pre IH]; intros lo n Ho; simpl in *.
  - exists lo. rewrite Nat.add_0_r. exact Ho.
  - destruct Ho as (_ & _ & _ & Ho). destruct (IH _ _ Ho) as (lo' & H).
    exists lo'. replace (n + S (length pre)) with (S n + length pre) by lia.
    exact H.
Qed.

Lemma ordered_numbers lo n mid post :
  ordered lo n (mid ++ post) -> map lineNo mid = seq n (length mid).
Proof.
  revert lo n. induction mid as [|v mid IH]; intros lo n Ho; simpl in *.
  - reflexivity.
  - destruct Ho as (Hn & _ & _ & Ho). rewrite Hn, (IH _ _ Ho). reflexivity.
Qed.

(** X3. For every buffer, every width of at least one and every range,
    the visual lines reported as highlighted are consecutive lines of the
    layout: their numbers are [k+1, k+2, ..., k+m], in rising order and
    without repetition, and each is the number of a line that exists. *)
Theorem highlights_are_consecutive buffer cols absStart absEnd :
  1 <= cols ->
  exists vis k m,
    layoutWordWrapWithOffsets buffer cols = Some vis
    /\ computeHighlightLinesByAbsRange vis absStart absEnd = seq (S k) m
    /\ k + m <= length vis.
Proof.
  intros Hcols. destruct (@layout_ordered buffer cols Hcols) as (vis & E & O).
  destruct (overlap_block absStart (Nat.max absStart absEnd) 0 1 vis O)
    as (pre & mid & post & Evis & Hpre & Hmid & Hpost).
  exists vis, (length pre), (length mid). split; [exact E|]. split.
  - rewrite computeHighlight_filter, Evis, !filter_app.
    rewrite (filter_drops _ pre Hpre), (filter_drops _ post Hpost).
    rewrite (filter_keeps _ mid Hmid), app_nil_r. simpl.
    rewrite Evis in O. destruct (ordered_skip _ _ _ _ O) as (lo' & O').
    apply (ordered_numbers lo' _ mid post O').
  - rewrite Evis, !length_app. lia.
Qed.

Lemma highlights_are_consecutive_witness :
  1 <= 10 /\
  exists vis k m,
    layoutWordWrapWithOffsets (lit "hello world this is a test line") 10 = Some vis
    /\ computeHighlightLinesByAbsRange vis 8 20 = seq (S k) m
    /\ k + m <= length vis.
Proof.
  split; [lia|].
  apply (highlights_are_consecutive (lit "hello world this is a test line") 10 8 20).
  lia.
Defined.

(** ** The text that a replace writes *)

Lemma trimStart_split l :
  exists pre, l = pre ++ trimStart l /\ Forall (fun c => is_ws c = true) pre.
Proof.
  induction l as [|c l IH]; simpl.
  - exists []. split; [reflexivity | constructor].
  - destruct (is_ws c) eqn:E.
    + destruct IH as (pre & Hl & Hpre). exists (c :: pre). split.
      * simpl. rewrite <- Hl. reflexivity.
      * constructor; assumption.
    + exists []. split; [reflexivity | constructor].
Qed.

Lemma trimStart_head l c r : trimStart l = c :: r -> is_ws c = false.
Proof.
  induction l as [|x l IH]; simpl; [discriminate|].
  destruct (is_ws x) eqn:E; [exact IH|].
  intros H. injection H as <- _. exact E.
Qed.

Lemma trimEnd_split l :
  exists post, l = trimEnd l ++ post /\ Forall (fun c => is_ws c = true) post.
Proof.
  destruct (trimStart_split (rev l)) as (pre & Hl & Hpre).
  exists (rev pre). split.
  - unfold trimEnd. rewrite <- rev_app_distr, <- Hl. symmetry. apply rev_involutive.
  - apply Forall_rev. exact Hpre.
Qed.

Lemma trimEnd_last l r c : trimEnd l = r ++ [c] -> is_ws c = false.
Proof.
  unfold trimEnd. intros H.
  apply (f_equal (@rev ascii)) in H.
  rewrite rev_involutive, rev_app_distr in H. simpl in H.
  eapply trimStart_head. exact H.
Qed.

Lemma trim_head l c r : trim l = c :: r -> is_ws c = false.
Proof.
  unfold trim. intros H.
  destruct (trimEnd_split (trimStart l)) as (post & Hl & _).
  rewrite H in Hl. simpl in Hl. eapply trimStart_head. exact Hl.
Qed.

Lemma trim_last l r c : trim l = r ++ [c] -> is_ws c = false.
Proof. unfold trim. apply trimEnd_last. Qed.

(** What [trim] takes away, before and after, is white space. *)
Lemma trim_split l :
  exists pre post,
    l = pre ++ trim l ++ post
    /\ Forall (fun c => is_ws c = true) pre
    /\ Forall (fun c => is_ws c = true) post.
Proof.
  destruct (trimStart_split l) as (pre & Hl & Hpre).
  destruct (trimEnd_split (trimStart l)) as (post & Hl' & Hpost).
  exists pre, post. split; [|split; assumption].
  unfold trim. rewrite <- Hl'. exact Hl.
Qed.

Lemma collapseFrom_spaces inRun l :
  Forall (fun c => is_ws c = true -> c = " "%char) (collapseFrom inRun l).
Proof.
  revert inRun. induction l as [|c l IH]; intros inRun; simpl; [constructor|].
  destruct (is_ws c) eqn:E.
  - destruct inRun; [apply IH|]. constructor; [reflexivity | apply IH].
  - constructor; [congruence | apply IH].
Qed.

Lemma collapseFrom_run_head l c r :
  collapseFrom true l = c :: r -> is_space c = false.
Proof.
  induction l as [|x l IH]; simpl; [discriminate|].
  destruct (is_ws x) eqn:E; [exact IH|].
  intros H. injection H as <- _.
  destruct (is_space x) eqn:Es; [|reflexivity].
  unfold is_space in Es. apply Ascii.eqb_eq in Es. subst x. discriminate.
Qed.

Lemma ws_not_space c : is_ws c = false -> is_space c = false.
Proof.
  intros H. destruct (is_space c) eqn:Es; [|reflexivity].
  unfold is_space in Es. apply Ascii.eqb_eq in Es. subst c. discriminate.
Qed.

Lemma singleSpaced_cons c l :
  singleSpaced (c :: l)
  = match l with
    | [] => true
    | d :: _ => negb (is_space c && is_space d) && singleSpaced l
    end.
Proof. reflexivity. Qed.

Lemma collapseFrom_single inRun l : singleSpaced (collapseFrom inRun l) = true.
Proof.
  revert inRun. induction l as [|c l IH]; intros inRun; simpl; [reflexivity|].
  destruct (is_ws c) eqn:E.
  - destruct inRun; [apply IH|].
    rewrite singleSpaced_cons.
    pose proof (IH true) as H.
    destruct (collapseFrom true l) as [|d r] eqn:Er; [reflexivity|].
    rewrite (collapseFrom_run_head l d r Er), andb_false_r. exact H.
  - rewrite singleSpaced_cons.
    pose proof (IH false) as H.
    destruct (collapseFrom false l) as [|d r] eqn:Er; [reflexivity|].
    rewrite (ws_not_space c E). exact H.
Qed.

Lemma singleSpaced_suffix pre l :
  singleSpaced (pre ++ l) = true -> singleSpaced l = true.
Proof.
  induction pre as [|c pre IH]; simpl app; [trivial|].
  rewrite singleSpaced_cons.
  destruct (pre ++ l) as [|d r] eqn:E.
  - intros _. destruct pre; [simpl in E; subst l; reflexivity | discriminate].
  - intros H. apply andb_true_iff in H. apply IH, H.
Qed.

Lemma singleSpaced_prefix l post :
  singleSpaced (l ++ post) = true -> singleSpaced l = true.
Proof.
  induction l as [|c l IH]; [reflexivity|].
  simpl app. rewrite !singleSpaced_cons.
  destruct l as [|d l]; [reflexivity|].
  simpl app. intros H. apply andb_true_iff in H. destruct H as [H1 H2].
  rewrite H1. simpl. apply IH. exact H2.
Qed.

Lemma visible_app a b : visible (a ++ b) = visible a ++ visible b.
Proof. apply filter_app. Qed.

Lemma visible_ws l : Forall (fun c => is_ws c = true) l -> visible l = [].
Proof.
  intros H. apply filter_drops. eapply Forall_impl; [|exact H].
  intros c Hc. rewrite Hc. reflexivity.
Qed.

Lemma collapseFrom_visible inRun l : visible (collapseFrom inRun l) = visible l.
Proof.
  revert inRun. induction l as [|c l IH]; intros inRun; simpl; [reflexivity|].
  unfold visible in *. simpl.
  destruct (is_ws c) eqn:E; simpl.
  - destruct inRun; [apply IH|]. simpl. apply IH.
  - rewrite E. simpl. rewrite IH. reflexivity.
Qed.

(** The shape of a text made normal. *)
Lemma normalised_shape newText :
  let rep := trim (collapseWs newText) in
  Forall (fun c => is_ws c = false \/ c = " "%char) rep
  /\ singleSpaced rep = true
  /\ match rep with [] => True | c :: _ => is_ws c = false end
  /\ match rev rep with [] => True | c :: _ => is_ws c = false end
  /\ visible rep = visible newText.
Proof.
  intros rep.
  destruct (trim_split (collapseWs newText)) as (pre & post & Hl & Hpre & Hpost).
  fold rep in Hl.
  pose proof (collapseFrom_spaces false newText) as Hsp.
  pose proof (collapseFrom_single false newText) as Hsingle.
  fold (collapseWs newText) in Hsp, Hsingle. rewrite Hl in Hsp, Hsingle.
  split; [|split; [|split; [|split]]].
  - apply Forall_app in Hsp. destruct Hsp as [_ Hsp].
    apply Forall_app in Hsp. destruct Hsp as [Hsp _].
    eapply Forall_impl; [|exact Hsp].
    intros c Hc. simpl in Hc.
    destruct (is_ws c) eqn:Ec; [right; apply Hc; reflexivity | left; reflexivity].
  - apply singleSpaced_suffix in Hsingle.
    apply singleSpaced_prefix in Hsingle. exact Hsingle.
  - destruct rep as [|c r] eqn:E; [exact I|]. eapply trim_head. exact E.
  - destruct (rev rep) as [|c r] eqn:E; [exact I|].
    apply (trim_last (collapseWs newText) (rev r) c).
    fold rep. rewrite <- (rev_involutive rep), E. reflexivity.
  - rewrite <- (collapseFrom_visible false newText).
    fold (collapseWs newText). rewrite Hl, !visible_app.
    rewrite (visible_ws pre Hpre), (visible_ws post Hpost), app_nil_r.
    reflexivity.
Qed.

(** X4. The text that [write_replace] writes - the new text with every
    run of white space made one space and both ends trimmed - has no white
    space but single spaces between other characters: every white-space
    character in it is a plain space (so there is no newline and no tab),
    no two spaces are side by side, its first and its last character are
    not white space, and its other characters are those of the new text, in
    their order. *)
Theorem replacement_is_single_spaced newText :
  let rep := trim (collapseWs newText) in
  Forall (fun c => is_ws c = false \/ c = " "%char) rep
  /\ singleSpaced rep = true
  /\ match rep with [] => True | c :: _ => is_ws c = false end
  /\ match rev rep with [] => True | c :: _ => is_ws c = false end
  /\ visible rep = visible newText.
Proof. exact (normalised_shape newText). Qed.

(** ** What a replace does *)

Lemma index_In {A : Type} (arr : list A) x v : index arr x = Some v -> In v arr.
Proof.
  unfold index. destruct x as [q| | |]; try discriminate.
  destruct (isInteger q && Qle_bool 0 q); [|discriminate].
  apply nth_error_In.
Qed.

Lemma clamp_in_range z len :
  (1 <= len)%Z -> (1 <= clampLineZ 1 1 z len <= len)%Z.
Proof. intros H. unfold clampLineZ. destruct (z =? 0)%Z; lia. Qed.

Lemma clamp_NaN len :
  jsmax (Fin 1) (jsmin (orElse NaN (Fin 1)) (ofNat len))
  = jsmax (Fin 1) (jsmin (orElse (Fin 1) (Fin 1)) (ofNat len)).
Proof. reflexivity. Qed.

Lemma clamp_one len :
  1 <= len ->
  jsmax (Fin 1) (jsmin (orElse (Fin 1) (Fin 1)) (ofNat len)) = Fin (inject_Z 1).
Proof.
  intros H. change (Fin 1) with (Fin (inject_Z 1)).
  rewrite (clamp_int 1 1 1 len). unfold clampLineZ. simpl Z.eqb. cbv iota.
  do 2 f_equal. lia.
Qed.

Lemma clamp_NegInf len :
  jsmax (Fin 1) (jsmin (orElse NegInf (Fin 1)) (ofNat len)) = Fin (inject_Z 1).
Proof. reflexivity. Qed.

Lemma clamp_PosInf len :
  jsmax (Fin 1) (jsmin (orElse PosInf (Fin 1)) (ofNat len))
  = Fin (inject_Z (Z.max 1 (Z.of_nat len))).
Proof.
  simpl. unfold ofNat. change 1%Q with (inject_Z 1).
  rewrite Qmax_inject. reflexivity.
Qed.

Lemma clamp_last len :
  1 <= len ->
  jsmax (Fin 1) (jsmin (orElse (ofNat len) (Fin 1)) (ofNat len))
  = Fin (inject_Z (Z.of_nat len)).
Proof.
  intros H. unfold ofNat at 1. change (Fin 1) with (Fin (inject_Z 1)).
  rewrite (clamp_int 1 1 (Z.of_nat len) len). unfold clampLineZ.
  destruct (Z.eqb_spec (Z.of_nat len) 0); do 2 f_equal; lia.
Qed.

(** A replace at a whole line number, step by step. *)
Lemma writeReplace_after paper vis z newText :
  1 <= Paper.cols paper ->
  getVisualLines paper = Some vis ->
  let n := clampLineZ 1 1 z (Z.of_nat (length vis)) in
  let rep := trim (collapseWs newText) in
  exists target afterVis annot,
    nth_error vis (Z.to_nat n - 1) = Some target
    /\ layoutWordWrapWithOffsets
         (firstn (start target) (Paper.text paper) ++ rep
          ++ skipn (end_ target) (Paper.text paper))
         (Paper.cols paper)
       = Some afterVis
    /\ _writeReplaceInternal (Fin (inject_Z z)) newText paper
       = Some ({| ReplaceResult.ok := true;
                  ReplaceResult.anchorLine := Fin (inject_Z n);
                  ReplaceResult.removedText :=
                    if length rep =? 0 then None else Some (text target);
                  ReplaceResult.removedLines :=
                    if length rep =? 0 then Some [text target] else None;
                  ReplaceResult.paper_rev := S (Paper.rev paper);
                  ReplaceResult.highlightLines :=
                    computeHighlightLinesByAbsRange afterVis (start target)
                      (start target + length rep);
                  ReplaceResult.op := None;
                  ReplaceResult.clearedLine := None |},
               {| Paper.cols := Paper.cols paper;
                  Paper.rev := S (Paper.rev paper);
                  Paper.text :=
                    firstn (start target) (Paper.text paper) ++ rep
                    ++ skipn (end_ target) (Paper.text paper);
                  Paper.diff :=
                    Some {| Diff.anchorLine :=
                              orElse (Fin (inject_Z n)) (Fin 1);
                            Diff.removedText :=
                              if length rep =? 0 then None
                              else Some (text target);
                            Diff.removedLines :=
                              if length rep =? 0 then Some [text target]
                              else None;
                            Diff.highlightLines :=
                              computeHighlightLinesByAbsRange afterVis
                                (start target) (start target + length rep);
                            Diff.annot := annot |} |}).
Proof.
  intros Hcols E n rep.
  assert (Hlen : 1 <= length vis).
  { unfold getVisualLines in E. eapply layout_nonempty. exact E. }
  assert (Hn : (1 <= n <= Z.of_nat (length vis))%Z)
    by (apply clamp_in_range; lia).
  destruct (nth_error vis (Z.to_nat n - 1)) as [target|] eqn:Ht.
  2:{ apply nth_error_None in Ht. lia. }
  unfold _writeReplaceInternal. rewrite E.
  change (Fin 1) with (Fin (inject_Z 1)).
  rewrite (clamp_int 1 1 z (length vis)). fold n.
  rewrite index_pred by lia. rewrite Ht. fold rep.
  assert (Hsl : slice (Paper.text paper) 0 (start target)
                = firstn (start target) (Paper.text paper))
    by (unfold slice; rewrite Nat.sub_0_r; reflexivity).
  rewrite Hsl.
  set (paper1 := {| Paper.cols := Paper.cols paper;
                    Paper.rev := S (Paper.rev paper);
                    Paper.text := _; Paper.diff := Paper.diff paper |}).
  destruct (getVisualLines_returns paper1 Hcols) as (afterVis & E1 & _).
  unfold _setDiff. rewrite E1.
  exists target, afterVis. eexists. split; [reflexivity|].
  split; [exact E1 | reflexivity].
Qed.

Lemma writeReplace_whole paper vis z newText :
  1 <= Paper.cols paper ->
  getVisualLines paper = Some vis ->
  let n := clampLineZ 1 1 z (Z.of_nat (length vis)) in
  let rep := trim (collapseWs newText) in
  exists target afterVis annot,
    nth_error vis (Z.to_nat n - 1) = Some target
    /\ _writeReplaceInternal (Fin (inject_Z z)) newText paper
       = Some ({| ReplaceResult.ok := true;
                  ReplaceResult.anchorLine := Fin (inject_Z n);
                  ReplaceResult.removedText :=
                    if length rep =? 0 then None else Some (text target);
                  ReplaceResult.removedLines :=
                    if length rep =? 0 then Some [text target] else None;
                  ReplaceResult.paper_rev := S (Paper.rev paper);
                  ReplaceResult.highlightLines :=
                    computeHighlightLinesByAbsRange afterVis (start target)
                      (start target + length rep);
                  ReplaceResult.op := None;
                  ReplaceResult.clearedLine := None |},
               {| Paper.cols := Paper.cols paper;
                  Paper.rev := S (Paper.rev paper);
                  Paper.text :=
                    firstn (start target) (Paper.text paper) ++ rep
                    ++ skipn (end_ target) (Paper.text paper);
                  Paper.diff :=
                    Some {| Diff.anchorLine :=
                              orElse (Fin (inject_Z n)) (Fin 1);
                            Diff.removedText :=
                              if length rep =? 0 then None
                              else Some (text target);
                            Diff.removedLines :=
                              if length rep =? 0 then Some [text target]
                              else None;
                            Diff.highlightLines :=
                              computeHighlightLinesByAbsRange afterVis
                                (start target) (start target + length rep);
                            Diff.annot := annot |} |}).
Proof.
  intros Hcols E n rep.
  destruct (writeReplace_after paper vis z newText Hcols E)
    as (target & afterVis & annot & Ht & _ & Hw).
  exists target, afterVis, annot. split; [exact Ht | exact Hw].
Qed.

(** X5. On a kernel whose width is at least one, [write_replace] at any
    whole line number [z] returns: the line addressed is [z] brought into
    [1, lineCount] (0 counts as 1), the buffer becomes what was before the
    span of that line, the new text normalised, and what was after the
    span; the revision goes up by one and the width stays; the result and
    the diff record carry the old text of the line as [removedLines] when
    the normalised text is empty and as [removedText] otherwise.  NaN and
    minus infinity address line 1, plus infinity the last line. *)
Theorem write_replace_contract paper :
  1 <= Paper.cols paper ->
  exists vis,
    getVisualLines paper = Some vis
    /\ (forall z newText,
           let n := clampLineZ 1 1 z (Z.of_nat (length vis)) in
           let rep := trim (collapseWs newText) in
           exists target r paper' d,
             nth_error vis (Z.to_nat n - 1) = Some target
             /\ write_replace (Fin (inject_Z z)) newText paper = Some (r, paper')
             /\ ReplaceResult.ok r = true
             /\ ReplaceResult.anchorLine r = Fin (inject_Z n)
             /\ Paper.text paper'
                = firstn (start target) (Paper.text paper) ++ rep
                  ++ skipn (end_ target) (Paper.text paper)
             /\ Paper.rev paper' = S (Paper.rev paper)
             /\ ReplaceResult.paper_rev r = S (Paper.rev paper)
             /\ Paper.cols paper' = Paper.cols paper
             /\ ReplaceResult.removedText r
                = (if isEmpty rep then None else Some (text target))
             /\ ReplaceResult.removedLines r
                = (if isEmpty rep then Some [text target] else None)
             /\ Paper.diff paper' = Some d
             /\ Diff.removedText d = ReplaceResult.removedText r
             /\ Diff.removedLines d = ReplaceResult.removedLines r
             /\ Diff.highlightLines d = ReplaceResult.highlightLines r)
    /\ (forall newText,
           write_replace NaN newText paper = write_replace (Fin 1) newText paper
           /\ write_replace NegInf newText paper
              = write_replace (Fin 1) newText paper
           /\ write_replace PosInf newText paper
              = write_replace (ofNat (length vis)) newText paper).
Proof.
  intros Hcols.
  destruct (getVisualLines_returns paper Hcols) as (vis & E & Hlen).
  exists vis. split; [exact E|]. split.
  - intros z newText n rep.
    destruct (writeReplace_whole paper vis z newText Hcols E)
      as (target & afterVis & annot & Ht & Hw).
    fold n in Ht, Hw. fold rep in Hw.
    unfold write_replace. rewrite Hw.
    exists target. eexists. eexists. eexists.
    split; [exact Ht|]. split; [reflexivity|]. simpl.
    assert (Hemp : (length rep =? 0) = isEmpty rep) by (destruct rep; reflexivity).
    rewrite Hemp. repeat split.
  - intros newText. unfold write_replace, _writeReplaceInternal. rewrite E.
    cbv zeta.
    rewrite clamp_NaN, clamp_NegInf, clamp_PosInf, (clamp_one _ Hlen),
      (clamp_last _ Hlen).
    replace (Z.max 1 (Z.of_nat (length vis))) with (Z.of_nat (length vis)) by lia.
    repeat split.
Qed.

Lemma write_replace_contract_witness :
  1 <= Paper.cols (seed (lit "one two") (createPaperKernel defaultCols))
  /\ exists vis,
      getVisualLines (seed (lit "one two") (createPaperKernel defaultCols))
      = Some vis.
Proof.
  assert (H : 1 <= Paper.cols (seed (lit "one two") (createPaperKernel defaultCols)))
    by (simpl; unfold defaultCols; lia).
  split; [exact H|].
  destruct (write_replace_contract
              (seed (lit "one two") (createPaperKernel defaultCols)) H)
    as (vis & E & _).
  exists vis. exact E.
Defined.

Lemma newline_is_ws c : is_newline c = true -> is_ws c = true.
Proof.
  unfold is_newline. intros H. apply Ascii.eqb_eq in H. subst c. reflexivity.
Qed.

Lemma normalized_noNewlines newText : noNewlines (trim (collapseWs newText)).
Proof.
  destruct (trim_split (collapseWs newText)) as (pre & post & Hl & _ & _).
  pose proof (collapseFrom_spaces false newText) as Hsp.
  fold (collapseWs newText) in Hsp. rewrite Hl in Hsp.
  apply Forall_app in Hsp. destruct Hsp as [_ Hsp].
  apply Forall_app in Hsp. destruct Hsp as [Hsp _].
  eapply Forall_impl; [|exact Hsp].
  intros c Hc. simpl in Hc.
  destruct (is_newline c) eqn:En; [|reflexivity].
  rewrite (Hc (newline_is_ws c En)) in En. discriminate.
Qed.

Lemma newlines_none l : noNewlines l -> filter is_newline l = [].
Proof. apply filter_drops. Qed.

(** Cutting a span without a newline out of a text, and putting a text
    without a newline in its place, leaves as many newlines as before. *)
Lemma splice_keeps_newlines (t rep : str) a b :
  a <= b -> noNewlines (slice t a b) -> noNewlines rep ->
  filter is_newline (slice t 0 a ++ rep ++ skipn b t) = filter is_newline t.
Proof.
  intros Hab Hspan Hrep.
  assert (Ht : firstn a t ++ slice t a b ++ skipn b t = t).
  { transitivity (firstn a t ++ skipn a t); [f_equal | apply firstn_skipn].
    unfold slice.
    replace (skipn b t) with (skipn (b - a) (skipn a t))
      by (rewrite skipn_skipn; f_equal; lia).
    apply firstn_skipn. }
  pose proof (f_equal (filter is_newline) Ht) as Hf.
  rewrite !filter_app, (newlines_none _ Hspan) in Hf.
  rewrite <- Hf. unfold slice. rewrite Nat.sub_0_r. simpl skipn.
  rewrite !filter_app, (newlines_none _ Hrep). reflexivity.
Qed.

(** X6. A replace that returns leaves the number of paragraphs as it was:
    the span of a visual line has no newline, and the text written in its
    place has none either. *)
Theorem write_replace_keeps_paragraphs paper anchorLine newText r paper' :
  1 <= Paper.cols paper ->
  write_replace anchorLine newText paper = Some (r, paper') ->
  paragraphCount (Paper.text paper') = paragraphCount (Paper.text paper).
Proof.
  intros Hcols. unfold write_replace.
  destruct (_writeReplaceInternal anchorLine newText paper) as [[r0 p0]|] eqn:E;
    [|discriminate].
  intros H. injection H as _ <-.
  unfold _writeReplaceInternal in E.
  destruct (layout_spans (Paper.text paper) (Paper.cols paper) Hcols)
    as (vis & Evis & Hspans).
  unfold getVisualLines in E at 1. rewrite Evis in E.
  destruct (index vis _) as [target|] eqn:Hi; [|discriminate].
  apply index_In in Hi.
  destruct (proj1 (Forall_forall _ _) Hspans target Hi) as (Hse & _ & Hnn & _).
  match type of E with
  | context [getVisualLines ?p1] =>
      destruct (getVisualLines p1) as [afterVis|] eqn:E1; [|discriminate]
  end.
  unfold _setDiff in E. rewrite E1 in E. injection E as _ <-.
  unfold paragraphCount. simpl Paper.text.
  rewrite (splice_keeps_newlines (Paper.text paper) _ _ _ Hse Hnn
             (normalized_noNewlines newText)).
  reflexivity.
Qed.

Lemma write_replace_keeps_paragraphs_witness :
  let paper := seed (lit "one two" ++ "010"%char :: lit "three")
                 (createPaperKernel defaultCols) in
  1 <= Paper.cols paper
  /\ exists r paper',
      write_replace (Fin 1) (lit "  four" ++ "010"%char :: lit "five ") paper
      = Some (r, paper')
      /\ paragraphCount (Paper.text paper') = paragraphCount (Paper.text paper).
Proof.
  intros paper.
  assert (H : 1 <= Paper.cols paper) by (simpl; unfold defaultCols; lia).
  split; [exact H|].
  destruct (write_replace (Fin 1) (lit "  four" ++ "010"%char :: lit "five ") paper)
    as [[r paper']|] eqn:E; [|vm_compute in E; discriminate].
  exists r, paper'. split; [reflexivity|].
  exact (write_replace_keeps_paragraphs paper (Fin 1)
           (lit "  four" ++ "010"%char :: lit "five ") r paper' H E).
Defined.

(** ** A line number that is not whole *)

Lemma isInteger_pred q : isInteger (q + - (1)) = isInteger q.
Proof.
  destruct q as [n d]. unfold isInteger, Qeq_bool, Qfloor, Qplus, Qopp. simpl.
  rewrite !Z.mul_1_r, Pos.mul_1_r.
  replace (n + Z.neg d)%Z with (n + (-1) * Z.pos d)%Z by lia.
  rewrite Z.div_add by lia.
  destruct (Z.eqb_spec n (n / Z.pos d * Z.pos d));
    destruct (Z.eqb_spec (n + -1 * Z.pos d) ((n / Z.pos d + -1) * Z.pos d));
    try reflexivity; exfalso; lia.
Qed.

Lemma clamp_inside q len :
  (1 < q)%Q -> (q < inject_Z (Z.of_nat len))%Q ->
  jsmax (Fin 1) (jsmin (orElse (Fin q) (Fin 1)) (ofNat len)) = Fin q.
Proof.
  intros H1 Hlen. unfold orElse.
  assert (Hz : Qeq_bool q 0 = false).
  { destruct (Qeq_bool q 0) eqn:E; [|reflexivity].
    apply Qeq_bool_iff in E. rewrite E in H1. discriminate. }
  rewrite Hz. unfold jsmin, ofNat, jsmax, Qmin, Qmax, GenericMinMax.gmin,
    GenericMinMax.gmax.
  change (Qcompare q (inject_Z (Z.of_nat len)) = Lt) in Hlen. rewrite Hlen.
  change (Qcompare 1 q = Lt) in H1. rewrite H1. reflexivity.
Qed.

(** X7. A line number that is not whole and lies strictly between 1 and
    the number of lines is not brought to a line: the array of visual lines
    is read at an index that is not whole, the read gives [undefined], and
    [write_replace] and [clear_line] fail on it instead of returning. *)
Theorem fractional_line_fails paper vis q newText :
  getVisualLines paper = Some vis ->
  (1 < q)%Q -> (q < inject_Z (Z.of_nat (length vis)))%Q ->
  isInteger q = false ->
  write_replace (Fin q) newText paper = None
  /\ clear_line (Fin q) paper = None.
Proof.
  intros E H1 Hlen Hfrac.
  assert (Hi : forall t, _writeReplaceInternal (Fin q) t paper = None).
  { intros t. unfold _writeReplaceInternal. rewrite E, (clamp_inside q _ H1 Hlen).
    unfold index, jssub, jsadd. rewrite isInteger_pred, Hfrac. reflexivity. }
  unfold write_replace, clear_line. rewrite !Hi. split; reflexivity.
Qed.

Lemma fractional_line_fails_witness :
  let paper :=
    seed (lit "a bbbbbbbbbb c") (setCols (Fin 10) (createPaperKernel defaultCols)) in
  exists vis,
    getVisualLines paper = Some vis
    /\ (1 < 3 # 2)%Q /\ (3 # 2 < inject_Z (Z.of_nat (length vis)))%Q
    /\ isInteger (3 # 2) = false
    /\ write_replace (Fin (3 # 2)) (lit "x") paper = None
    /\ clear_line (Fin (3 # 2)) paper = None.
Proof.
  intros paper.
  destruct (getVisualLines paper) as [vis|] eqn:E; [|vm_compute in E; discriminate].
  exists vis.
  assert (H3 : length vis = 3) by (vm_compute in E; injection E as <-; reflexivity).
  assert (H1 : (1 < 3 # 2)%Q) by reflexivity.
  assert (H2 : (3 # 2 < inject_Z (Z.of_nat (length vis)))%Q)
    by (rewrite H3; reflexivity).
  assert (Hf : isInteger (3 # 2) = false) by reflexivity.
  split; [reflexivity|]. split; [exact H1|]. split; [exact H2|]. split; [exact Hf|].
  exact (fractional_line_fails paper vis (3 # 2) (lit "x") E H1 H2 Hf).
Defined.

(** ** Clearing a range *)

Lemma jssub_int z : jssub (Fin (inject_Z z)) 1 = Fin (inject_Z (z - 1)).
Proof.
  unfold jssub, jsadd, Qplus, Qopp, inject_Z. simpl. do 2 f_equal. lia.
Qed.

Lemma jsgeb_int a b : jsgeb (Fin (inject_Z a)) (Fin (inject_Z b)) = (b <=? a)%Z.
Proof. unfold jsgeb, Qle_bool. simpl. rewrite !Z.mul_1_r. reflexivity. Qed.

Lemma jsltb_int a b : jsltb (Fin (inject_Z a)) (Fin (inject_Z b)) = (a <? b)%Z.
Proof.
  unfold jsltb, Qle_bool. simpl. rewrite !Z.mul_1_r.
  rewrite Z.leb_antisym. apply negb_involutive.
Qed.

Lemma index_int {A : Type} (arr : list A) z :
  (0 <= z)%Z -> index arr (Fin (inject_Z z)) = nth_error arr (Z.to_nat z).
Proof.
  intros Hz. unfold index, isInteger, Qeq_bool, Qle_bool. simpl.
  rewrite !Z.mul_1_r, Z.div_1_r, Z.eqb_refl. simpl.
  destruct (Z.leb_spec 0 z) as [_|H]; [reflexivity | lia].
Qed.

(** The line that a round of the loop reads is the line that it clears. *)
Lemma clear_reads_target (vis : list VisualLine) lz :
  (1 <= lz)%Z -> 1 <= length vis ->
  index vis (jsmax (Fin 0) (jssub (jsmin (Fin (inject_Z lz)) (ofNat (length vis))) 1))
  = nth_error vis (Z.to_nat (clampLineZ 1 1 lz (Z.of_nat (length vis))) - 1).
Proof.
  intros Hl Hlen. unfold ofNat, jsmin. rewrite Qmin_inject, jssub_int.
  unfold jsmax. change 0%Q with (inject_Z 0). rewrite Qmax_inject.
  rewrite index_int by lia. f_equal. unfold clampLineZ.
  destruct (Z.eqb_spec lz 0); lia.
Qed.

Lemma splice_paragraphs t rep v :
  showsSpan t v -> noNewlines rep ->
  paragraphCount (firstn (start v) t ++ rep ++ skipn (end_ v) t)
  = paragraphCount t.
Proof.
  intros (Hse & _ & Hnn & _) Hrep. unfold paragraphCount.
  pose proof (splice_keeps_newlines t rep (start v) (end_ v) Hse Hnn Hrep) as H.
  unfold slice in H at 1. rewrite Nat.sub_0_r in H. cbn [skipn] in H.
  rewrite H. reflexivity.
Qed.

Lemma splice_shrinks t v :
  showsSpan t v ->
  length (firstn (start v) t ++ [] ++ skipn (end_ v) t) <= length t.
Proof.
  intros (Hse & Hlen & _). simpl.
  rewrite length_app, length_firstn, length_skipn. lia.
Qed.

Lemma getVisualLines_spans paper vis :
  1 <= Paper.cols paper -> getVisualLines paper = Some vis ->
  Forall (showsSpan (Paper.text paper)) vis.
Proof.
  intros Hcols E.
  destruct (layout_spans (Paper.text paper) (Paper.cols paper) Hcols)
    as (vis' & E' & Hs).
  unfold getVisualLines in E. rewrite E in E'. injection E' as <-. exact Hs.
Qed.

(** The rounds of the loop: [k] rounds clear [k] lines and advance the
    revision [k] times; the paragraphs stay and the buffer does not grow. *)
Lemma clearLoop_runs k :
  forall fuel lz sz removed applied paper,
    1 <= Paper.cols paper -> (1 <= sz)%Z ->
    (lz = sz + Z.of_nat k - 1)%Z -> k < fuel ->
    map (fun t => Some [t]) (rev removed) = map Applied.removedLines applied ->
    exists removed' applied' paper',
      clearLoop fuel (Fin (inject_Z lz)) (Fin (inject_Z sz)) removed applied paper
      = Some ((removed', applied'), paper')
      /\ length removed' = length removed + k
      /\ length applied' = length applied + k
      /\ Paper.rev paper' = Paper.rev paper + k
      /\ Paper.cols paper' = Paper.cols paper
      /\ map (fun t => Some [t]) (rev removed')
         = map Applied.removedLines applied'
      /\ paragraphCount (Paper.text paper') = paragraphCount (Paper.text paper)
      /\ length (Paper.text paper') <= length (Paper.text paper).
Proof.
  induction k as [|k IH]; intros fuel lz sz removed applied paper Hcols Hs Hl Hf Hinv.
  - destruct fuel as [|fuel]; [lia|]. cbn [clearLoop].
    rewrite jsgeb_int. destruct (Z.leb_spec sz lz) as [H|_]; [lia|].
    exists removed, applied, paper. repeat split; try lia. exact Hinv.
  - destruct fuel as [|fuel]; [lia|]. cbn [clearLoop].
    rewrite jsgeb_int. destruct (Z.leb_spec sz lz) as [_|H]; [|lia].
    destruct (getVisualLines_returns paper Hcols) as (vis & E & Hlen).
    rewrite E.
    destruct (writeReplace_whole paper vis lz [] Hcols E)
      as (target & afterVis & annot & Ht & Hw).
    rewrite Hw, jssub_int, clear_reads_target, Ht by lia.
    assert (Hspan : showsSpan (Paper.text paper) target).
    { pose proof (getVisualLines_spans paper vis Hcols E) as Hall.
      rewrite Forall_forall in Hall. apply Hall.
      exact (nth_error_In _ _ Ht). }
    pose proof (splice_paragraphs (Paper.text paper) [] target Hspan
                  ltac:(constructor)) as Hpar.
    pose proof (splice_shrinks (Paper.text paper) target Hspan) as Hshr.
    match goal with
    | |- context [clearLoop fuel _ _ ?rm ?ap ?p1] =>
        destruct (IH fuel (lz - 1)%Z sz rm ap p1) as
          (removed' & applied' & paper' & Hrun & L1 & L2 & Hrev & Hc & Hinv'
           & Hpar' & Hshr')
    end.
    + exact Hcols.
    + exact Hs.
    + lia.
    + lia.
    + simpl. rewrite !map_app, Hinv. reflexivity.
    + exists removed', applied', paper'. split; [exact Hrun|].
      cbn [Paper.text Paper.rev Paper.cols] in L1, Hrev, Hc, Hpar', Hshr'.
      cbn [length] in L1. rewrite length_app in L2. cbn [length] in L2.
      change (trim (collapseWs [])) with (@nil ascii) in Hpar', Hshr'.
      repeat split; try lia; try assumption.
Qed.

(** X8. On a kernel whose width is at least one, [clear_range] with whole
    bounds returns.  It brings the bounds into [1, lineCount], puts them in
    order, and clears one line for every number from the lower to the upper
    bound: that many steps are applied and that many texts are listed as
    removed, the revision goes up by that number (not by one), and the
    width stays.  The diff record left behind lists the removed texts, has
    no [removedText] and highlights nothing; and the removed texts, read
    bottom up, are those that the steps report one by one.  No newline is
    removed, so the buffer has as many paragraphs as before, and the buffer
    does not grow. *)
Theorem clear_range_contract paper a b :
  1 <= Paper.cols paper ->
  exists vis r paper' d,
    getVisualLines paper = Some vis
    /\ clear_range (Fin (inject_Z a)) (Fin (inject_Z b)) paper = Some (r, paper')
    /\ let ca := clampLineZ 1 1 a (Z.of_nat (length vis)) in
       let cb := clampLineZ 1 ca b (Z.of_nat (length vis)) in
       ClearRangeResult.startLine r = Fin (inject_Z (Z.min ca cb))
       /\ ClearRangeResult.endLine r = Fin (inject_Z (Z.max ca cb))
       /\ ClearRangeResult.appliedCount r = Z.to_nat (Z.max ca cb - Z.min ca cb + 1)
       /\ length (ClearRangeResult.removedLines r) = ClearRangeResult.appliedCount r
       /\ length (ClearRangeResult.applied r) = ClearRangeResult.appliedCount r
       /\ Paper.rev paper' = Paper.rev paper + ClearRangeResult.appliedCount r
       /\ ClearRangeResult.paper_rev r = Paper.rev paper'
       /\ Paper.cols paper' = Paper.cols paper
       /\ Paper.diff paper' = Some d
       /\ Diff.removedLines d = Some (ClearRangeResult.removedLines r)
       /\ Diff.removedText d = None
       /\ Diff.highlightLines d = []
       /\ map (fun t => Some [t]) (rev (ClearRangeResult.removedLines r))
          = map Applied.removedLines (ClearRangeResult.applied r)
       /\ paragraphCount (Paper.text paper') = paragraphCount (Paper.text paper)
       /\ length (Paper.text paper') <= length (Paper.text paper).
Proof.
  intros Hcols.
  destruct (getVisualLines_returns paper Hcols) as (vis & E & Hlen).
  unfold clear_range. rewrite E. cbv zeta.
  change (Fin 1) with (Fin (inject_Z 1)).
  rewrite (clamp_int 1 1 a (length vis)).
  set (ca := clampLineZ 1 1 a (Z.of_nat (length vis))).
  rewrite (clamp_int 1 ca b (length vis)).
  set (cb := clampLineZ 1 ca b (Z.of_nat (length vis))).
  assert (Hca : (1 <= ca <= Z.of_nat (length vis))%Z)
    by (unfold ca; apply clamp_in_range; lia).
  assert (Hcb : (1 <= cb <= Z.of_nat (length vis))%Z).
  { unfold cb, clampLineZ. destruct (b =? 0)%Z; lia. }
  rewrite jsltb_int.
  assert (Hs : (if (cb <? ca)%Z then Fin (inject_Z cb) else Fin (inject_Z ca))
               = Fin (inject_Z (Z.min ca cb))).
  { destruct (Z.ltb_spec cb ca); do 2 f_equal; lia. }
  assert (He : (if (cb <? ca)%Z then Fin (inject_Z ca) else Fin (inject_Z cb))
               = Fin (inject_Z (Z.max ca cb))).
  { destruct (Z.ltb_spec cb ca); do 2 f_equal; lia. }
  rewrite Hs, He.
  destruct (clearLoop_runs (Z.to_nat (Z.max ca cb - Z.min ca cb + 1))
              (S (length vis)) (Z.max ca cb) (Z.min ca cb) [] [] paper)
    as (removed & applied & paper1 & Hrun & L1 & L2 & Hrev & Hc & Hinv
        & Hpar & Hshr);
    [exact Hcols | lia | lia | lia | reflexivity |].
  rewrite Hrun.
  assert (Hcols1 : 1 <= Paper.cols paper1) by (rewrite Hc; exact Hcols).
  destruct (getVisualLines_returns paper1 Hcols1) as (afterVis & E1 & _).
  unfold _setDiff. rewrite E1.
  exists vis. eexists. eexists. eexists.
  split; [reflexivity|]. split; [reflexivity|]. simpl in L1, L2. simpl.
  repeat split; try assumption; lia.
Qed.

Lemma clear_range_contract_witness :
  1 <= Paper.cols (seed (lit "one two") (createPaperKernel defaultCols))
  /\ exists vis,
      getVisualLines (seed (lit "one two") (createPaperKernel defaultCols))
      = Some vis.
Proof.
  assert (H : 1 <= Paper.cols (seed (lit "one two") (createPaperKernel defaultCols)))
    by (simpl; unfold defaultCols; lia).
  split; [exact H|].
  destruct (clear_range_contract
              (seed (lit "one two") (createPaperKernel defaultCols)) 2 1 H)
    as (vis & _ & _ & _ & E & _).
  exists vis. exact E.
Defined.

(** X9. [clear_range] does not mind the order of its bounds: for whole
    bounds other than zero, [clear_range(a, b)] and [clear_range(b, a)]
    return the same result and leave the same state.  (A bound of zero
    stands for a default - line 1 for the start, the start for the end - so
    it is not the same number in both places.) *)
Theorem clear_range_symmetric paper a b :
  a <> 0%Z -> b <> 0%Z ->
  clear_range (Fin (inject_Z a)) (Fin (inject_Z b)) paper
  = clear_range (Fin (inject_Z b)) (Fin (inject_Z a)) paper.
Proof.
  intros Ha Hb. unfold clear_range.
  destruct (getVisualLines paper) as [vis|]; [|reflexivity]. cbv zeta.
  change (Fin 1) with (Fin (inject_Z 1)).
  rewrite (clamp_int 1 1 a (length vis)), (clamp_int 1 1 b (length vis)).
  set (ca := clampLineZ 1 1 a (Z.of_nat (length vis))).
  set (cb := clampLineZ 1 1 b (Z.of_nat (length vis))).
  rewrite (clamp_int 1 ca b (length vis)), (clamp_int 1 cb a (length vis)).
  assert (Hcb : clampLineZ 1 ca b (Z.of_nat (length vis)) = cb).
  { unfold cb, clampLineZ. destruct (Z.eqb_spec b 0); [contradiction | reflexivity]. }
  assert (Hca : clampLineZ 1 cb a (Z.of_nat (length vis)) = ca).
  { unfold ca, clampLineZ. destruct (Z.eqb_spec a 0); [contradiction | reflexivity]. }
  rewrite Hcb, Hca, !jsltb_int.
  assert (Hs : (if (cb <? ca)%Z then Fin (inject_Z cb) else Fin (inject_Z ca))
               = (if (ca <? cb)%Z then Fin (inject_Z ca) else Fin (inject_Z cb))).
  { destruct (Z.ltb_spec cb ca); destruct (Z.ltb_spec ca cb);
      try reflexivity; try lia. do 2 f_equal. lia. }
  assert (He : (if (cb <? ca)%Z then Fin (inject_Z ca) else Fin (inject_Z cb))
               = (if (ca <? cb)%Z then Fin (inject_Z cb) else Fin (inject_Z ca))).
  { destruct (Z.ltb_spec cb ca); destruct (Z.ltb_spec ca cb);
      try reflexivity; try lia. do 2 f_equal. lia. }
  rewrite Hs, He. reflexivity.
Qed.

Lemma clear_range_symmetric_witness :
  2%Z <> 0%Z /\ 1%Z <> 0%Z
  /\ clear_range (Fin 2) (Fin 1)
       (seed (lit "a bbbbbbbbbb c") (setCols (Fin 10) (createPaperKernel defaultCols)))
     = clear_range (Fin 1) (Fin 2)
         (seed (lit "a bbbbbbbbbb c") (setCols (Fin 10) (createPaperKernel defaultCols))).
Proof.
  assert (H2 : 2%Z <> 0%Z) by discriminate.
  assert (H1 : 1%Z <> 0%Z) by discriminate.
  split; [exact H2|]. split; [exact H1|].
  exact (clear_range_symmetric
           (seed (lit "a bbbbbbbbbb c")
              (setCols (Fin 10) (createPaperKernel defaultCols))) 2 1 H2 H1).
Defined.

(** ** Searching *)

Lemma startsWith_app q post : startsWith q (q ++ post) = true.
Proof.
  induction q as [|c q IH]; simpl; [reflexivity|].
  rewrite Ascii.eqb_refl. exact IH.
Qed.

Lemma startsWith_inv q : forall s, startsWith q s = true -> exists post, s = q ++ post.
Proof.
  induction q as [|c q IH]; intros s H.
  - exists s. reflexivity.
  - destruct s as [|d s]; [discriminate|]. simpl in H.
    apply andb_true_iff in H. destruct H as [Hc Hq].
    apply Ascii.eqb_eq in Hc. subst d.
    destruct (IH s Hq) as (post & ->). exists post. reflexivity.
Qed.

Lemma includes_here q s : startsWith q s = true -> includes s q = true.
Proof. intros H. destruct s; simpl in *; rewrite H; reflexivity. Qed.

Lemma includes_infix pre q post : includes (pre ++ q ++ post) q = true.
Proof.
  induction pre as [|c pre IH].
  - simpl app. apply includes_here, startsWith_app.
  - simpl app. simpl includes. rewrite IH. apply orb_true_r.
Qed.

Lemma includes_inv s q :
  includes s q = true -> exists pre post, s = pre ++ q ++ post.
Proof.
  induction s as [|c s IH]; intros H.
  - simpl in H. rewrite orb_false_r in H.
    destruct (startsWith_inv q [] H) as (post & E). exists [], post. exact E.
  - simpl in H. apply orb_true_iff in H. destruct H as [H|H].
    + destruct (startsWith_inv q (c :: s) H) as (post & E).
      exists [], post. exact E.
    + destruct (IH H) as (pre & post & ->). exists (c :: pre), post. reflexivity.
Qed.

Lemma includes_trans a b c :
  includes a b = true -> includes b c = true -> includes a c = true.
Proof.
  intros Hab Hbc.
  destruct (includes_inv a b Hab) as (p1 & q1 & ->).
  destruct (includes_inv b c Hbc) as (p2 & q2 & ->).
  replace (p1 ++ (p2 ++ c ++ q2) ++ q1) with ((p1 ++ p2) ++ c ++ (q2 ++ q1))
    by (rewrite <- !app_assoc; reflexivity).
  apply includes_infix.
Qed.

Lemma includes_lower s q :
  includes s q = true -> includes (toLowerCase s) (toLowerCase q) = true.
Proof.
  intros H. destruct (includes_inv s q H) as (pre & post & ->).
  unfold toLowerCase. rewrite !map_app. apply includes_infix.
Qed.

(** A word of a string is a piece of it. *)
Lemma wordsFrom_infix sep l :
  forall cur w, In w (wordsFrom sep cur l) ->
    exists pre post, cur ++ l = pre ++ w ++ post.
Proof.
  induction l as [|c l IH]; intros cur w Hin; simpl in Hin.
  - destruct cur as [|x cur]; simpl in Hin; [contradiction|].
    destruct Hin as [<-|[]]. exists [], []. reflexivity.
  - destruct (sep c).
    + destruct cur as [|x cur]; simpl in Hin.
      * destruct (IH [] w Hin) as (pre & post & E). simpl in E.
        exists (c :: pre), post. simpl. rewrite E. reflexivity.
      * destruct Hin as [<-|Hin].
        -- exists [], (c :: l). reflexivity.
        -- destruct (IH [] w Hin) as (pre & post & E). simpl in E.
           exists ((x :: cur) ++ c :: pre), post.
           rewrite E, <- !app_assoc. reflexivity.
    + destruct (IH (cur ++ [c]) w Hin) as (pre & post & E).
      exists pre, post. rewrite <- E, <- app_assoc. reflexivity.
Qed.

Lemma words_includes sep l w : In w (words sep l) -> includes l w = true.
Proof.
  intros H. destruct (wordsFrom_infix sep l [] w H) as (pre & post & E).
  simpl in E. rewrite E. apply includes_infix.
Qed.

Lemma layout_words buffer cols :
  1 <= cols ->
  exists vis,
    layoutWordWrapWithOffsets buffer cols = Some vis
    /\ (Forall (fun w => length w <= cols) (bufferWords buffer) ->
        renderedWords vis = bufferWords buffer).
Proof.
  intros Hcols. rewrite layout_unfold.
  destruct (@layoutParas_shows cols buffer (S (length buffer)) 0 1 Hcols)
    as (out & E & T & I & W); [lia | lia |].
  rewrite E. simpl in W. eexists. split; [reflexivity|].
  destruct out as [|v out]; exact W.
Qed.

Lemma ordered_nth lo n vis v :
  ordered lo n vis -> In v vis ->
  n <= lineNo v /\ nth_error vis (lineNo v - n) = Some v.
Proof.
  revert lo n. induction vis as [|a vis IH]; intros lo n Ho Hin; [contradiction|].
  destruct Ho as (H1 & _ & _ & H4). destruct Hin as [<-|Hin].
  - rewrite H1, Nat.sub_diag. split; [lia | reflexivity].
  - destruct (IH _ _ H4 Hin) as [Hle Hn]. split; [lia|].
    replace (lineNo v - n) with (S (lineNo v - S n)) by lia. exact Hn.
Qed.

Lemma seq_sorted n : forall a, StronglySorted lt (seq a n).
Proof.
  induction n as [|n IH]; intros a; simpl; constructor.
  - apply IH.
  - apply Forall_forall. intros x Hx. apply in_seq in Hx. lia.
Qed.

Lemma sorted_filter {A : Type} (f : A -> nat) (p : A -> bool) l :
  StronglySorted lt (map f l) -> StronglySorted lt (map f (filter p l)).
Proof.
  induction l as [|x l IH]; intros H; simpl; [constructor|].
  inversion H as [|? ? Hs Hall]; subst.
  destruct (p x); [|exact (IH Hs)]. simpl. constructor; [exact (IH Hs)|].
  apply Forall_forall. intros y Hy. apply in_map_iff in Hy.
  destruct Hy as (z & <- & Hz). apply filter_In in Hz.
  rewrite Forall_forall in Hall. apply Hall. apply in_map. apply Hz.
Qed.

Lemma sorted_firstn k : forall l, StronglySorted lt l -> StronglySorted lt (firstn k l).
Proof.
  induction k as [|k IH]; intros l H; [constructor|].
  destruct l as [|x l]; [constructor|]. simpl.
  inversion H as [|? ? Hs Hall]; subst. constructor; [exact (IH l Hs)|].
  apply Forall_forall. intros y Hy. rewrite Forall_forall in Hall.
  apply Hall. rewrite <- (firstn_skipn k l). apply in_or_app. left. exact Hy.
Qed.

Lemma slice_top {A : Type} (l : list A) k :
  jsslice l (Fin 0) (Fin (inject_Z (Z.of_nat k))) = firstn k l.
Proof.
  unfold jsslice. change (Fin 0) with (Fin (inject_Z 0)).
  rewrite !relIndex_int by lia. rewrite Nat2Z.id. simpl Nat.min.
  unfold slice. rewrite Nat.sub_0_r. simpl skipn.
  destruct (Nat.le_ge_cases k (length l)) as [H|H].
  - rewrite Nat.min_l by exact H. reflexivity.
  - rewrite Nat.min_r by exact H. rewrite !firstn_all2 by lia. reflexivity.
Qed.

(** X10. On a kernel whose width is at least one, a search for a query
    that is not blank returns hits and leaves the state as it was.  The
    query is trimmed and put in lower case.  With [topK] a natural number
    [k] there are at most [k] hits; every hit is a visual line, with its
    number and its text, whose text in lower case contains the query; the
    hits come in ascending order of line number; and when fewer than [k]
    hits are returned, every visual line that contains the query is among
    them. *)
Theorem search_hits paper query k :
  1 <= Paper.cols paper ->
  isEmpty (trim query) = false ->
  exists vis hits,
    getVisualLines paper = Some vis
    /\ search query (Fin (inject_Z (Z.of_nat k))) paper
       = Some (HitsResult (Paper.rev paper) (toLowerCase (trim query)) hits, paper)
    /\ length hits <= k
    /\ Forall (fun h =>
                 exists v,
                   1 <= SearchHit.line h
                   /\ nth_error vis (SearchHit.line h - 1) = Some v
                   /\ SearchHit.text h = text v
                   /\ includes (toLowerCase (text v)) (toLowerCase (trim query))
                      = true) hits
    /\ StronglySorted lt (map SearchHit.line hits)
    /\ (length hits < k ->
        forall v, In v vis ->
          includes (toLowerCase (text v)) (toLowerCase (trim query)) = true ->
          In {| SearchHit.line := lineNo v; SearchHit.text := text v |} hits).
Proof.
  intros Hcols Hq.
  destruct (layout_ordered (Paper.text paper) Hcols) as (vis & E & Ho).
  exists vis. unfold search. unfold getVisualLines at 2. rewrite E.
  assert (Hq' : isEmpty (toLowerCase (trim query)) = false)
    by (destruct (trim query); [discriminate | reflexivity]).
  rewrite Hq', slice_top. eexists. split; [exact E|]. split; [reflexivity|].
  set (q := toLowerCase (trim query)).
  set (mk := fun v => {| SearchHit.line := lineNo v; SearchHit.text := text v |}).
  set (p := fun v => includes (toLowerCase (text v)) q).
  split; [apply firstn_le_length|]. split; [|split].
  - apply Forall_forall. intros h Hh.
    assert (Hin : In h (map mk (filter p vis))).
    { rewrite <- (firstn_skipn k (map mk (filter p vis))).
      apply in_or_app. left. exact Hh. }
    apply in_map_iff in Hin. destruct Hin as (v & <- & Hv).
    apply filter_In in Hv. destruct Hv as [Hv Hp].
    destruct (ordered_nth _ _ _ v Ho Hv) as [Hle Hn].
    exists v. simpl. repeat split; assumption.
  - rewrite <- firstn_map, map_map. simpl.
    apply sorted_firstn. apply sorted_filter.
    rewrite <- (app_nil_r vis) in Ho.
    change (map (fun x => lineNo x) vis) with (map lineNo vis).
    rewrite (ordered_numbers _ _ _ _ Ho).
    apply seq_sorted.
  - intros Hlen v Hv Hp. rewrite length_firstn in Hlen.
    rewrite firstn_all2 by lia.
    change (In (mk v) (map mk (filter p vis))).
    apply in_map. apply filter_In. split; assumption.
Qed.

Lemma search_hits_witness :
  exists vis hits,
    getVisualLines (seed (lit "Hello World") (createPaperKernel defaultCols))
    = Some vis
    /\ search (lit " WORLD ") (Fin (inject_Z (Z.of_nat 8)))
         (seed (lit "Hello World") (createPaperKernel defaultCols))
       = Some (HitsResult 1 (lit "world") hits,
               seed (lit "Hello World") (createPaperKernel defaultCols))
    /\ length hits <= 8.
Proof.
  destruct (search_hits (seed (lit "Hello World") (createPaperKernel defaultCols))
              (lit " WORLD ") 8) as (vis & hits & E & S & L & _).
  - simpl. unfold defaultCols. lia.
  - reflexivity.
  - exists vis, hits. split; [exact E|]. split; [exact S | exact L].
Defined.

(** X11. A word of the buffer is found, in whatever letter case it is
    asked for.  On a kernel whose width is at least one and in which no
    word of the buffer is longer than the width, take a word of the buffer
    and a query that, trimmed, is not empty and is contained in the word
    when both are put in lower case.  Then a search with [topK] at least
    one returns at least one hit; some visual line shows the word, and it
    is among the hits unless the hits were cut off at [topK]. *)
Theorem search_finds_word paper query w k :
  1 <= Paper.cols paper ->
  Forall (fun w => length w <= Paper.cols paper) (bufferWords (Paper.text paper)) ->
  In w (bufferWords (Paper.text paper)) ->
  isEmpty (trim query) = false ->
  includes (toLowerCase w) (toLowerCase (trim query)) = true ->
  1 <= k ->
  exists vis v h hits,
    getVisualLines paper = Some vis
    /\ In v vis /\ In w (words is_space (text v))
    /\ search query (Fin (inject_Z (Z.of_nat k))) paper
       = Some (HitsResult (Paper.rev paper) (toLowerCase (trim query)) (h :: hits),
               paper)
    /\ (length (h :: hits) < k ->
        In {| SearchHit.line := lineNo v; SearchHit.text := text v |} (h :: hits)).
Proof.
  intros Hcols Hfit Hw Hq Hinc Hk.
  destruct (layout_words (Paper.text paper) (Paper.cols paper) Hcols) as (vis & E & W).
  specialize (W Hfit). rewrite <- W in Hw. unfold renderedWords in Hw.
  apply in_flat_map in Hw. destruct Hw as (v & Hv & Hwv).
  assert (Hmatch : includes (toLowerCase (text v)) (toLowerCase (trim query)) = true).
  { apply (includes_trans _ (toLowerCase w)); [|exact Hinc].
    apply includes_lower. exact (words_includes _ _ _ Hwv). }
  unfold search. unfold getVisualLines. rewrite E.
  assert (Hq' : isEmpty (toLowerCase (trim query)) = false)
    by (destruct (trim query); [discriminate | reflexivity]).
  rewrite Hq', slice_top.
  set (q := toLowerCase (trim query)) in *.
  set (mk := fun v => {| SearchHit.line := lineNo v; SearchHit.text := text v |}).
  set (p := fun v => includes (toLowerCase (text v)) q).
  assert (Hall : In (mk v) (map mk (filter p vis))).
  { apply in_map. apply filter_In. split; assumption. }
  destruct (map mk (filter p vis)) as [|h all] eqn:Eall; [contradiction|].
  destruct k as [|k]; [lia|]. simpl firstn.
  exists vis, v, h, (firstn k all). repeat split; try assumption.
  intros Hlen. simpl in Hlen. rewrite length_firstn in Hlen.
  rewrite firstn_all2 by lia. exact Hall.
Qed.

Lemma search_finds_word_witness :
  exists vis v h hits,
    getVisualLines (seed (lit "Hello World") (createPaperKernel defaultCols))
    = Some vis
    /\ In v vis /\ In (lit "World") (words is_space (text v))
    /\ search (lit " WORLD ") (Fin (inject_Z (Z.of_nat 8)))
         (seed (lit "Hello World") (createPaperKernel defaultCols))
       = Some (HitsResult 1 (lit "world") (h :: hits),
               seed (lit "Hello World") (createPaperKernel defaultCols)).
Proof.
  destruct (search_finds_word
              (seed (lit "Hello World") (createPaperKernel defaultCols))
              (lit " WORLD ") (lit "World") 8)
    as (vis & v & h & hits & E & Hv & Hw & S & _).
  - simpl. unfold defaultCols. lia.
  - repeat constructor; simpl; unfold defaultCols; lia.
  - simpl. right. left. reflexivity.
  - reflexivity.
  - reflexivity.
  - lia.
  - exists vis, v, h, hits. repeat split; assumption.
Defined.

(** ** Escaping *)

(** What [escChar] gives: the character itself when it is none of the
    five, and otherwise one of five entities. *)
Lemma escChar_cases c :
  (escChar c = [c] /\ c <> "&"%char /\ c <> "<"%char /\ c <> ">"%char
   /\ c <> dquote /\ c <> "'"%char)
  \/ (c = "&"%char /\ escChar c = lit "&amp;")
  \/ (c = "<"%char /\ escChar c = lit "&lt;")
  \/ (c = ">"%char /\ escChar c = lit "&gt;")
  \/ (c = dquote /\ escChar c = lit "&quot;")
  \/ (c = "'"%char /\ escChar c = lit "&#039;").
Proof.
  unfold escChar.
  destruct (Ascii.eqb_spec c "&"%char) as [->|H1]; [right; left; split; reflexivity|].
  destruct (Ascii.eqb_spec c "<"%char) as [->|H2];
    [right; right; left; split; reflexivity|].
  destruct (Ascii.eqb_spec c ">"%char) as [->|H3];
    [right; right; right; left; split; reflexivity|].
  destruct (Ascii.eqb_spec c dquote) as [->|H4];
    [right; right; right; right; left; split; reflexivity|].
  destruct (Ascii.eqb_spec c "'"%char) as [->|H5];
    [right; right; right; right; right; split; reflexivity|].
  left. repeat split; assumption.
Qed.

(** X12. The output of [escHtml] has no character that opens or closes a
    tag or an attribute value: no less-than sign, no greater-than sign, no
    double quote and no apostrophe, whatever the input. *)
Theorem escHtml_no_markup s :
  Forall (fun c => c <> "<"%char /\ c <> ">"%char /\ c <> dquote /\ c <> "'"%char)
         (escHtml s).
Proof.
  unfold escHtml. induction s as [|c s IH]; simpl; [constructor|].
  apply Forall_app. split; [|exact IH].
  destruct (escChar_cases c) as
    [(E & _ & H2 & H3 & H4 & H5)|[(_ & E)|[(_ & E)|[(_ & E)|[(_ & E)|(_ & E)]]]]];
    rewrite E.
  - constructor; [|constructor]. repeat split; assumption.
  - repeat constructor; discriminate.
  - repeat constructor; discriminate.
  - repeat constructor; discriminate.
  - repeat constructor; discriminate.
  - repeat constructor; discriminate.
Qed.

(** X13. [escHtml] loses nothing: two strings with the same escaped form
    are the same string. *)
Theorem escHtml_injective s :
  forall t, escHtml s = escHtml t -> s = t.
Proof.
  unfold escHtml. induction s as [|c s IH]; intros [|d t] H; simpl in H.
  - reflexivity.
  - destruct (escChar_cases d) as
      [(E & _)|[(_ & E)|[(_ & E)|[(_ & E)|[(_ & E)|(_ & E)]]]]];
      rewrite E in H; discriminate.
  - destruct (escChar_cases c) as
      [(E & _)|[(_ & E)|[(_ & E)|[(_ & E)|[(_ & E)|(_ & E)]]]]];
      rewrite E in H; discriminate.
  - destruct (escChar_cases c) as
      [(Ec & Hc & _)|[(-> & Ec)|[(-> & Ec)|[(-> & Ec)|[(-> & Ec)|(-> & Ec)]]]]];
    destruct (escChar_cases d) as
      [(Ed & Hd & _)|[(-> & Ed)|[(-> & Ed)|[(-> & Ed)|[(-> & Ed)|(-> & Ed)]]]]];
    rewrite ?Ec, ?Ed in H; simpl in H;
    try discriminate;
    try (injection H as H0 H; try (subst; contradiction);
         rewrite (IH t H); try rewrite H0; reflexivity);
    try (injection H as H; rewrite (IH t H); reflexivity).
Qed.

Lemma escHtml_injective_witness :
  escHtml (lit "a<b") = escHtml (lit "a<b") /\ lit "a<b" = lit "a<b".
Proof.
  split; [reflexivity|].
  exact (escHtml_injective (lit "a<b") (lit "a<b") eq_refl).
Defined.

(** ** The preview window *)

Lemma orElse_int z d :
  orElse (Fin (inject_Z z)) (Fin (inject_Z d))
  = Fin (inject_Z (if (z =? 0)%Z then d else z)).
Proof.
  unfold orElse, Qeq_bool. simpl. rewrite Z.mul_1_r.
  destruct (z =? 0)%Z; reflexivity.
Qed.

Lemma jssub_ints z k :
  jssub (Fin (inject_Z z)) (inject_Z k) = Fin (inject_Z (z - k)).
Proof.
  unfold jssub, jsadd, Qplus, Qopp, inject_Z. simpl. do 2 f_equal. lia.
Qed.

Lemma jsadd_ints z k :
  jsadd (Fin (inject_Z z)) (inject_Z k) = Fin (inject_Z (z + k)).
Proof.
  unfold jsadd, Qplus, inject_Z. simpl. do 2 f_equal. lia.
Qed.

Lemma jsmax_ints a b :
  jsmax (Fin (inject_Z a)) (Fin (inject_Z b)) = Fin (inject_Z (Z.max a b)).
Proof. unfold jsmax. rewrite Qmax_inject. reflexivity. Qed.

Lemma isInteger_int z : isInteger (inject_Z z) = true.
Proof.
  unfold isInteger, Qeq_bool, Qfloor, inject_Z. simpl.
  rewrite Z.div_1_r. apply Z.eqb_refl.
Qed.

(** The sum and the difference of whole numbers are not rounded. *)
Lemma jsaddR_ints z k :
  jsaddR (Fin (inject_Z z)) (inject_Z k) = jsadd (Fin (inject_Z z)) (inject_Z k).
Proof.
  unfold jsaddR, jsadd.
  assert (E : (inject_Z z + inject_Z k)%Q = inject_Z (z * 1 + k * 1))
    by reflexivity.
  rewrite E at 1. rewrite isInteger_int. reflexivity.
Qed.

Lemma jssubR_int z : jssubR (Fin (inject_Z z)) 1 = jssub (Fin (inject_Z z)) 1.
Proof. exact (jsaddR_ints z (-1)). Qed.

(** The window of [buildAnnotWindow], for a whole start line of at least
    one: [size] lines from line [w] on, or as many as there are. *)
Lemma window_slice {A : Type} (l : list A) w size :
  (1 <= w)%Z -> (0 <= size)%Z ->
  jsslice l (jssubR (Fin (inject_Z w)) 1)
            (jsaddR (jssubR (Fin (inject_Z w)) 1) (inject_Z size))
  = firstn (Z.to_nat size) (skipn (Z.to_nat w - 1) l).
Proof.
  intros Hw Hs. rewrite jssubR_int.
  replace (jsaddR (jssub (Fin (inject_Z w)) 1) (inject_Z size))
    with (jsadd (jssub (Fin (inject_Z w)) 1) (inject_Z size))
    by (rewrite jssub_int; symmetry; apply jsaddR_ints).
  unfold jsslice. rewrite relIndex_pred by exact Hw.
  rewrite jssub_int, jsadd_ints, relIndex_int by lia. unfold slice.
  destruct (Nat.le_ge_cases (length l) (Z.to_nat w - 1)) as [H|H].
  - rewrite (Nat.min_r (Z.to_nat w - 1) (length l) H).
    rewrite !skipn_all2 by lia. rewrite !firstn_nil. reflexivity.
  - rewrite (Nat.min_l (Z.to_nat w - 1) (length l) H).
    destruct (Nat.le_ge_cases (length l) (Z.to_nat (w - 1 + size))) as [H'|H'].
    + rewrite Nat.min_r by exact H'.
      rewrite !firstn_all2; [reflexivity | rewrite length_skipn; lia
                                        | rewrite length_skipn; lia].
    + rewrite Nat.min_l by exact H'. f_equal. lia.
Qed.

Lemma escHtml_nonempty c t : escHtml (c :: t) <> [].
Proof.
  unfold escHtml. simpl.
  destruct (escChar_cases c) as
    [(E & _)|[(_ & E)|[(_ & E)|[(_ & E)|[(_ & E)|(_ & E)]]]]];
    rewrite E; discriminate.
Qed.

Lemma Forall2_map_right {A B : Type} (R : A -> B -> Prop) (f : A -> B) l :
  (forall x, R x (f x)) -> Forall2 R l (map f l).
Proof. intros H. induction l; simpl; constructor; auto. Qed.

(** X14. The preview that [_setDiff] leaves behind.  On a kernel whose
    width is at least one, with a whole anchor line (0 counts as 1), it
    changes nothing but the diff record.  The window of the record starts
    two lines above the anchor, but not above line 1, and has a row for
    each of the next 45 visual lines, or for as many as there are.  A row
    is empty exactly when its line has no text; otherwise it is the text
    of the line escaped, inside a [newLineFull] span when the number of the
    line is among the highlighted ones. *)
Theorem preview_window paper z removedText removedLines highlightLines :
  1 <= Paper.cols paper ->
  exists vis paper' d,
    getVisualLines paper = Some vis
    /\ _setDiff (Fin (inject_Z z)) removedText removedLines highlightLines paper
       = Some (tt, paper')
    /\ Paper.text paper' = Paper.text paper
    /\ Paper.rev paper' = Paper.rev paper
    /\ Paper.cols paper' = Paper.cols paper
    /\ Paper.diff paper' = Some d
    /\ let anchor := if (z =? 0)%Z then 1%Z else z in
       let w := Z.max 1 (anchor - 2) in
       let window := firstn 45 (skipn (Z.to_nat w - 1) vis) in
       let rows := Annot.htmlLines (Diff.annot d) in
       Diff.anchorLine d = Fin (inject_Z anchor)
       /\ Annot.startLine (Diff.annot d) = Fin (inject_Z w)
       /\ length rows <= 45
       /\ map lineNo window = seq (Z.to_nat w) (length window)
       /\ Forall2
            (fun v row =>
               (row = [] <-> text v = [])
               /\ (text v <> [] ->
                   row = if existsb (Nat.eqb (lineNo v)) highlightLines
                         then lit "<span class=" ++ dquote :: lit "newLineFull"
                              ++ dquote :: lit ">" ++ escHtml (text v)
                              ++ lit "</span>"
                         else escHtml (text v)))
            window rows.
Proof.
  intros Hcols.
  destruct (layout_ordered (Paper.text paper) Hcols) as (vis & E & Ho).
  exists vis. unfold _setDiff. unfold getVisualLines at 2. rewrite E.
  eexists. eexists. split; [exact E|]. split; [reflexivity|].
  do 4 (split; [reflexivity|]).
  cbv zeta. cbn [Diff.anchorLine Diff.annot].
  change (Fin 1) with (Fin (inject_Z 1)).
  change 2%Q with (inject_Z 2).
  rewrite orElse_int, jssub_ints, jsmax_ints.
  set (anchor := if (z =? 0)%Z then 1%Z else z).
  set (w := Z.max 1 (anchor - 2)).
  unfold buildAnnotWindow. cbn [Annot.startLine Annot.htmlLines].
  change 45%Q with (inject_Z 45).
  rewrite window_slice by lia.
  change (Z.to_nat 45) with 45.
  split; [reflexivity|]. split; [reflexivity|]. split; [|split].
  - rewrite length_map. apply firstn_le_length.
  - pose proof (firstn_skipn (Z.to_nat w - 1) vis) as Hsplit.
    rewrite <- Hsplit in Ho.
    destruct (ordered_skip _ _ _ _ Ho) as (lo' & Ho').
    rewrite <- (firstn_skipn 45 (skipn (Z.to_nat w - 1) vis)) in Ho'.
    rewrite (ordered_numbers _ _ _ _ Ho').
    destruct (firstn 45 (skipn (Z.to_nat w - 1) vis)) as [|v0 win] eqn:Ew;
      [reflexivity|].
    assert (Hlt : Z.to_nat w - 1 < length vis).
    { destruct (Nat.le_gt_cases (length vis) (Z.to_nat w - 1)) as [H|H];
        [|exact H].
      rewrite skipn_all2 in Ew by exact H. rewrite firstn_nil in Ew.
      discriminate. }
    rewrite length_firstn, Nat.min_l by lia. f_equal. lia.
  - apply Forall2_map_right. intros v. cbv beta zeta.
    destruct (text v) as [|c t] eqn:Et; simpl isEmpty; cbv iota.
    + split; [split; reflexivity|]. intros H. contradiction.
    + assert (He : escHtml (c :: t) <> []) by apply escHtml_nonempty.
      split; [|intros _; reflexivity].
      split; [|discriminate].
      destruct (existsb (Nat.eqb (lineNo v)) highlightLines).
      * discriminate.
      * intros H. contradiction.
Qed.

Lemma preview_window_witness :
  exists vis paper' d,
    getVisualLines (seed (lit "one two") (createPaperKernel defaultCols)) = Some vis
    /\ _setDiff (Fin (inject_Z 7)) None None [1]
         (seed (lit "one two") (createPaperKernel defaultCols))
       = Some (tt, paper')
    /\ Paper.diff paper' = Some d.
Proof.
  destruct (preview_window (seed (lit "one two") (createPaperKernel defaultCols))
              7 None None [1])
    as (vis & paper' & d & E & S & _ & _ & _ & D & _).
  - simpl. unfold defaultCols. lia.
  - exists vis, paper', d. repeat split; assumption.
Defined.

(** A start line that is not whole.  With the start line [2 - 2^-51] the
    window begins at the first line, since [1 - 2^-51] is cut to 0, and
    its end [1 - 2^-51 + 45] is rounded to the double 46: the window has
    46 rows when there are as many lines. *)
Lemma window_rounded (afterVis : list VisualLine) highlightSet :
  46 <= length afterVis ->
  length
    (Annot.htmlLines
       (buildAnnotWindow afterVis (Fin (2 - (1 # 2251799813685248))) 45
          highlightSet))
  = 46.
Proof.
  intros H. unfold buildAnnotWindow. cbn [Annot.htmlLines].
  rewrite length_map. unfold jsslice, slice.
  set (lo := jssubR (Fin (2 - (1 # 2251799813685248))) 1).
  assert (Elo : relIndex (length afterVis) lo = 0).
  { unfold lo. vm_compute (jssubR _ _). unfold relIndex.
    vm_compute (Qtrunc _). reflexivity. }
  assert (Ehi : relIndex (length afterVis) (jsaddR lo 45) = 46).
  { unfold lo. vm_compute (jsaddR _ _). unfold relIndex.
    vm_compute (Qtrunc _). cbv iota beta. simpl Z.ltb. cbv iota.
    change (Z.to_nat 46) with 46. apply Nat.min_l. exact H. }
  rewrite Elo, Ehi. rewrite length_firstn, length_skipn. lia.
Qed.

(** ** Clearing everything *)

Lemma layout_empty cols : layoutWordWrapWithOffsets [] cols = Some [fallbackLine].
Proof. reflexivity. Qed.

(** X15. On a kernel whose width is at least one, [clear_all] returns: the
    buffer is empty afterwards and is shown as one empty visual line, the
    revision goes up by one and the width stays.  The count that it
    reports is the number of visual lines there were, which is at least
    one: clearing a buffer that is already empty reports one removed
    line.  The diff record lists the texts of those lines as removed, has
    no [removedText], highlights nothing, is anchored at line 1, and its
    preview is one empty row. *)
Theorem clear_all_contract paper :
  1 <= Paper.cols paper ->
  exists vis r paper' d,
    getVisualLines paper = Some vis
    /\ clear_all paper = Some (r, paper')
    /\ ClearAllResult.ok r = true
    /\ Paper.text paper' = []
    /\ getVisualLines paper' = Some [fallbackLine]
    /\ Paper.rev paper' = S (Paper.rev paper)
    /\ ClearAllResult.paper_rev r = S (Paper.rev paper)
    /\ Paper.cols paper' = Paper.cols paper
    /\ ClearAllResult.removedLinesCount r = length vis
    /\ 1 <= ClearAllResult.removedLinesCount r
    /\ Paper.diff paper' = Some d
    /\ Diff.removedLines d = Some (map text vis)
    /\ Diff.removedText d = None
    /\ Diff.highlightLines d = []
    /\ Diff.anchorLine d = Fin 1
    /\ Annot.htmlLines (Diff.annot d) = [[]].
Proof.
  intros Hcols.
  destruct (getVisualLines_returns paper Hcols) as (vis & E & Hlen).
  exists vis. unfold clear_all. rewrite E. cbv zeta.
  unfold _setDiff, getVisualLines. cbn [Paper.text Paper.cols].
  rewrite layout_empty.
  eexists. eexists. eexists. split; [reflexivity|]. split; [reflexivity|].
  cbn. rewrite length_map. repeat split; try reflexivity. exact Hlen.
Qed.

Lemma clear_all_contract_witness :
  exists vis r paper',
    getVisualLines (createPaperKernel defaultCols) = Some vis
    /\ clear_all (createPaperKernel defaultCols) = Some (r, paper')
    /\ ClearAllResult.removedLinesCount r = 1.
Proof.
  destruct (clear_all_contract (createPaperKernel defaultCols))
    as (vis & r & paper' & d & E & S & _ & _ & _ & _ & _ & _ & C & _).
  - simpl. unfold defaultCols. lia.
  - exists vis, r, paper'. split; [exact E|]. split; [exact S|].
    rewrite C. injection E as <-. reflexivity.
Defined.

(** ** The head listing *)

Lemma digits_noNewlines d :
  noNewlines (list_ascii_of_string (NilEmpty.string_of_uint d)).
Proof.
  induction d; simpl; constructor; try reflexivity; assumption.
Qed.

Lemma words_chars sep l w c : In w (words sep l) -> In c w -> In c l.
Proof.
  intros Hw Hc. destruct (wordsFrom_infix sep l [] w Hw) as (pre & post & E).
  simpl in E. rewrite E. apply in_or_app. right. apply in_or_app. left. exact Hc.
Qed.

Lemma join_chars sep rows c :
  In c (join sep rows) -> In c sep \/ exists row, In row rows /\ In c row.
Proof.
  induction rows as [|x rows IH]; intros H; [contradiction|].
  simpl in H. destruct rows as [|y rows].
  - right. exists x. split; [left; reflexivity | exact H].
  - apply in_app_or in H. destruct H as [H|H].
    + right. exists x. split; [left; reflexivity | exact H].
    + apply in_app_or in H. destruct H as [H|H]; [left; exact H|].
      destruct (IH H) as [H'|(row & Hr & Hc)]; [left; exact H'|].
      right. exists row. split; [right; exact Hr | exact Hc].
Qed.

(** The text of a line that shows its span has no newline. *)
Lemma showsSpan_noNewlines s v : showsSpan s v -> noNewlines (text v).
Proof.
  intros (_ & _ & Hn & Ht & _). rewrite Ht. apply Forall_forall. intros c Hc.
  apply join_chars in Hc. destruct Hc as [[<-|[]]|(w & Hw & Hc)]; [reflexivity|].
  unfold noNewlines in Hn. rewrite Forall_forall in Hn.
  apply Hn. exact (words_chars _ _ _ _ Hw Hc).
Qed.

Lemma headRow_noNewlines s v : showsSpan s v -> noNewlines (headRow v).
Proof.
  intros H. unfold headRow, decimal. apply Forall_app. split.
  - apply digits_noNewlines.
  - apply Forall_app. split; [repeat constructor|].
    exact (showsSpan_noNewlines _ _ H).
Qed.

(** Rows without a newline, joined by newlines, can be counted again. *)
Lemma join_rows rows :
  Forall noNewlines rows -> rows <> [] ->
  paragraphCount (join ["010"%char] rows) = length rows.
Proof.
  unfold paragraphCount. induction rows as [|x rows IH]; intros Hall Hne;
    [contradiction|].
  inversion Hall as [|? ? Hx Hrows]; subst.
  destruct rows as [|y rows].
  - simpl join. rewrite (newlines_none _ Hx). reflexivity.
  - assert (IH' := IH Hrows ltac:(discriminate)).
    change (join ["010"%char] (x :: y :: rows))
      with (x ++ ["010"%char] ++ join ["010"%char] (y :: rows)).
    set (J := join ["010"%char] (y :: rows)) in *.
    rewrite !filter_app, (newlines_none _ Hx). simpl. rewrite IH'. reflexivity.
Qed.

(** X16. The head listing.  On a kernel whose width is at least one,
    [getState] returns; it reports at least one line; the listing has one
    row, and no more, for each of the first twelve visual lines (counting
    rows as the text between newlines); and the [visual] list, when asked
    for, numbers the lines from 1 to the line count.  A search with a blank
    query returns the same revision, line count and listing, and leaves the
    state as it was. *)
Theorem head_listing paper includeVisual query topK :
  1 <= Paper.cols paper ->
  isEmpty (trim query) = true ->
  exists vis st,
    getVisualLines paper = Some vis
    /\ getState includeVisual paper = Some st
    /\ StateView.lineCount st = length vis
    /\ 1 <= StateView.lineCount st
    /\ paragraphCount (StateView.head st) = Nat.min 12 (StateView.lineCount st)
    /\ StateView.head st
       = join ["010"%char] (map headRow (firstn 12 vis))
    /\ (includeVisual = true ->
        exists l, StateView.visual st = Some l
                  /\ map fst l = seq 1 (StateView.lineCount st)
                  /\ map snd l = map text vis)
    /\ search query topK paper
       = Some (HeadResult (StateView.paper_rev st) (StateView.lineCount st)
                 (StateView.head st), paper).
Proof.
  intros Hcols Hq.
  destruct (layout_ordered (Paper.text paper) Hcols) as (vis & E & Ho).
  destruct (layout_spans (Paper.text paper) (Paper.cols paper) Hcols)
    as (vis' & E' & Hs).
  rewrite E in E'. injection E' as <-.
  pose proof (@layout_nonempty _ _ _ E) as Hlen.
  exists vis. unfold getState, search. unfold getVisualLines. rewrite E.
  eexists. split; [reflexivity|]. split; [reflexivity|].
  cbn [StateView.lineCount StateView.head StateView.visual StateView.paper_rev].
  assert (Hhead : slice vis 0 (Nat.min 12 (length vis)) = firstn 12 vis).
  { unfold slice. rewrite Nat.sub_0_r. simpl skipn.
    destruct (Nat.le_ge_cases 12 (length vis)) as [H|H].
    - rewrite Nat.min_l by exact H. reflexivity.
    - rewrite Nat.min_r by exact H. rewrite !firstn_all2 by lia. reflexivity. }
  split; [reflexivity|]. split; [exact Hlen|]. split; [|split; [|split]].
  - unfold headListing. rewrite Hhead, join_rows.
    + rewrite length_map, length_firstn. reflexivity.
    + apply Forall_forall. intros row Hrow. apply in_map_iff in Hrow.
      destruct Hrow as (v & <- & Hv).
      rewrite Forall_forall in Hs. apply (headRow_noNewlines (Paper.text paper)).
      apply Hs. rewrite <- (firstn_skipn 12 vis). apply in_or_app. left. exact Hv.
    + destruct vis; [simpl in Hlen; lia | discriminate].
  - unfold headListing. rewrite Hhead. reflexivity.
  - intros ->. eexists. split; [reflexivity|]. rewrite !map_map. simpl.
    split; [|reflexivity].
    rewrite <- (app_nil_r vis) in Ho.
    change (map (fun x => lineNo x) vis) with (map lineNo vis).
    exact (ordered_numbers _ _ _ _ Ho).
  - assert (Hq' : isEmpty (toLowerCase (trim query)) = true)
      by (destruct (trim query); [reflexivity | discriminate]).
    rewrite Hq'. reflexivity.
Qed.

Lemma head_listing_witness :
  exists vis st,
    getVisualLines (seed (lit "one two") (createPaperKernel defaultCols)) = Some vis
    /\ getState true (seed (lit "one two") (createPaperKernel defaultCols)) = Some st
    /\ StateView.head st = lit "1| one two".
Proof.
  destruct (head_listing (seed (lit "one two") (createPaperKernel defaultCols))
              true (lit "  ") defaultTopK)
    as (vis & st & E & S & _ & _ & _ & H & _).
  - simpl. unfold defaultCols. lia.
  - reflexivity.
  - exists vis, st. split; [exact E|]. split; [exact S|].
    rewrite H. injection E as <-. reflexivity.
Defined.

(** ** Every visible character is in one line *)

Lemma skipn_slice {A : Type} (l : list A) a b :
  a <= b -> skipn a l = slice l a b ++ skipn b l.
Proof.
  intros H. unfold slice. replace b with ((b - a) + a) at 2 by lia.
  rewrite <- skipn_skipn. symmetry. apply firstn_skipn.
Qed.

Lemma nth_error_slice {A : Type} (l : list A) a b i :
  a <= i -> i < b -> nth_error (slice l a b) (i - a) = nth_error l i.
Proof.
  intros Ha Hb. unfold slice. rewrite nth_error_firstn.
  destruct (Nat.ltb_spec (i - a) (b - a)) as [_|H]; [|lia].
  rewrite nth_error_skipn. f_equal. lia.
Qed.

Lemma ink_at (l : str) i c :
  nth_error l i = Some c -> is_sep c = false -> 1 <= length (inkOf l).
Proof.
  intros Hn Hc. apply nth_error_In in Hn.
  assert (H : In c (inkOf l)).
  { unfold inkOf. apply filter_In. split; [exact Hn|]. rewrite Hc. reflexivity. }
  destruct (inkOf l); [contradiction | simpl; lia].
Qed.

Lemma ink_in_slice (s : str) a b i c :
  a <= i -> i < b -> nth_error s i = Some c -> is_sep c = false ->
  1 <= length (inkOf (slice s a b)).
Proof.
  intros Ha Hb Hn Hc. apply (ink_at (slice s a b) (i - a) c); [|exact Hc].
  rewrite nth_error_slice by assumption. exact Hn.
Qed.

Lemma ink_in_tail (s : str) lo i c :
  lo <= i -> nth_error s i = Some c -> is_sep c = false ->
  1 <= length (inkOf (skipn lo s)).
Proof.
  intros Hlo Hn Hc. apply (ink_at (skipn lo s) (i - lo) c); [|exact Hc].
  rewrite nth_error_skipn. rewrite <- Hn. f_equal. lia.
Qed.

Lemma inkOf_app a b : inkOf (a ++ b) = inkOf a ++ inkOf b.
Proof. apply filter_app. Qed.

Lemma tail_ink (s : str) lo a b :
  lo <= a -> a <= b ->
  length (inkOf (skipn lo s))
  = length (inkOf (slice s lo a)) + length (inkOf (slice s a b))
    + length (inkOf (skipn b s)).
Proof.
  intros H1 H2. rewrite (skipn_slice s lo a H1), (skipn_slice s a b H2).
  rewrite !inkOf_app, !length_app. lia.
Qed.

(** The spans of ordered lines hold no more ink than the buffer. *)
Lemma spanInk_bound s vis :
  forall lo n, ordered lo n vis ->
    length (spanInk s vis) <= length (inkOf (skipn lo s)).
Proof.
  induction vis as [|v vis IH]; intros lo n Ho; simpl; [lia|].
  destruct Ho as (_ & H1 & H2 & Ho). specialize (IH _ _ Ho).
  rewrite length_app, (tail_ink s lo (start v) (end_ v) H1 H2). lia.
Qed.

(** When they hold all of it, every character of ink is in a span. *)
Lemma spanInk_cover s vis :
  forall lo n, ordered lo n vis ->
    length (inkOf (skipn lo s)) <= length (spanInk s vis) ->
    forall i c, lo <= i -> nth_error s i = Some c -> is_sep c = false ->
      exists v, In v vis /\ inSpan i v.
Proof.
  induction vis as [|v vis IH]; intros lo n Ho Hlen i c Hi Hn Hc.
  - pose proof (ink_in_tail s lo i c Hi Hn Hc). simpl in Hlen. lia.
  - destruct Ho as (_ & H1 & H2 & Ho).
    pose proof (spanInk_bound s vis _ _ Ho) as Hb.
    simpl in Hlen. rewrite length_app in Hlen.
    rewrite (tail_ink s lo (start v) (end_ v) H1 H2) in Hlen.
    fold (spanInk s vis) in Hlen.
    destruct (Nat.lt_ge_cases i (start v)) as [Hlt|Hge].
    + pose proof (ink_in_slice s lo (start v) i c Hi Hlt Hn Hc). lia.
    + destruct (Nat.lt_ge_cases i (end_ v)) as [Hlt'|Hge'].
      * exists v. split; [left; reflexivity | split; assumption].
      * destruct (IH _ _ Ho ltac:(lia) i c Hge' Hn Hc) as (v' & Hv' & Hs).
        exists v'. split; [right; exact Hv' | exact Hs].
Qed.

Lemma filter_unwords_cons w ws :
  filter not_space (unwords (w :: ws))
  = filter not_space w ++ filter not_space (unwords ws).
Proof.
  unfold unwords. destruct ws as [|x ws].
  - simpl. rewrite app_nil_r. reflexivity.
  - change (join [" "%char] (w :: x :: ws))
      with (w ++ [" "%char] ++ join [" "%char] (x :: ws)).
    rewrite !filter_app. reflexivity.
Qed.

Lemma wordsFrom_ink l :
  forall cur, noSpaces cur ->
    filter not_space (unwords (wordsFrom is_space cur l))
    = cur ++ filter not_space l.
Proof.
  induction l as [|c l IH]; intros cur Hcur.
  - simpl. rewrite app_nil_r. destruct cur as [|x cur]; [reflexivity|].
    simpl isEmpty. cbv iota. rewrite unwords_one. apply filter_word. exact Hcur.
  - simpl wordsFrom. simpl filter. unfold not_space at 2.
    destruct (is_space c) eqn:Ec; simpl negb; cbv iota.
    + destruct cur as [|x cur]; simpl isEmpty; cbv iota.
      * apply (IH []). constructor.
      * rewrite filter_unwords_cons, (IH []) by constructor.
        rewrite (filter_word Hcur). reflexivity.
    + rewrite IH.
      * rewrite <- app_assoc. reflexivity.
      * apply Forall_app. split; [exact Hcur|]. constructor; [exact Ec|constructor].
Qed.

Lemma unwords_ink l :
  filter not_space (unwords (words is_space l)) = filter not_space l.
Proof. apply (wordsFrom_ink l []). constructor. Qed.

(** The ink that the lines show is the ink of their spans. *)
Lemma renderedInk_spans s vis :
  Forall (showsSpan s) vis -> renderedInk vis = spanInk s vis.
Proof.
  induction 1 as [|v vis Hv _ IH]; [reflexivity|].
  unfold renderedInk, spanInk in *. simpl. rewrite IH. f_equal.
  destruct Hv as (_ & _ & Hn & Ht & _).
  rewrite Ht, unwords_ink. symmetry. apply inkOf_noNewlines. exact Hn.
Qed.

Lemma layout_ink buffer cols :
  1 <= cols ->
  exists vis,
    layoutWordWrapWithOffsets buffer cols = Some vis
    /\ renderedInk vis = inkOf buffer.
Proof.
  intros Hcols. rewrite layout_unfold.
  destruct (@layoutParas_shows cols buffer (S (length buffer)) 0 1 Hcols)
    as (out & E & T & I & W); [lia | lia |].
  rewrite E. simpl in I. eexists. split; [reflexivity|].
  destruct out as [|v out]; exact I.
Qed.

(** The three facts about a layout that the properties below rest on. *)
Lemma layout_facts buffer cols :
  1 <= cols ->
  exists vis,
    layoutWordWrapWithOffsets buffer cols = Some vis
    /\ ordered 0 1 vis
    /\ Forall (showsSpan buffer) vis
    /\ (forall i c, nth_error buffer i = Some c -> is_sep c = false ->
          exists v, In v vis /\ inSpan i v).
Proof.
  intros Hcols.
  destruct (layout_ordered buffer Hcols) as (vis & E & Ho).
  destruct (layout_spans buffer cols Hcols) as (vis1 & E1 & Hs).
  destruct (layout_ink buffer cols Hcols) as (vis2 & E2 & Hi).
  rewrite E in E1, E2. injection E1 as <-. injection E2 as <-.
  exists vis. split; [exact E|]. split; [exact Ho|]. split; [exact Hs|].
  intros i c Hn Hc.
  apply (spanInk_cover buffer vis 0 1 Ho) with (c := c); try assumption; [|lia].
  rewrite <- (renderedInk_spans buffer vis Hs), Hi. simpl. lia.
Qed.

Lemma ordered_before lo n vis v v' :
  ordered lo n vis -> In v vis -> In v' vis -> lineNo v < lineNo v' ->
  end_ v <= start v'.
Proof.
  revert lo n. induction vis as [|a vis IH]; intros lo n Ho Hv Hv' Hlt;
    [contradiction|].
  destruct Ho as (H1 & _ & _ & Ho).
  destruct Hv as [<-|Hv]; destruct Hv' as [<-|Hv'].
  - lia.
  - pose proof (ordered_start _ _ _ Ho) as Hs. rewrite Forall_forall in Hs.
    exact (Hs _ Hv').
  - destruct (ordered_nth _ _ _ v Ho Hv) as [Hle _]. lia.
  - exact (IH _ _ Ho Hv Hv' Hlt).
Qed.

Lemma ordered_same lo n vis v v' :
  ordered lo n vis -> In v vis -> In v' vis -> lineNo v = lineNo v' -> v = v'.
Proof.
  intros Ho Hv Hv' E.
  destruct (ordered_nth _ _ _ v Ho Hv) as [_ H].
  destruct (ordered_nth _ _ _ v' Ho Hv') as [_ H'].
  rewrite E, H' in H. injection H as ->. reflexivity.
Qed.

Lemma ordered_one_span lo n vis v v' i :
  ordered lo n vis -> In v vis -> In v' vis -> inSpan i v -> inSpan i v' ->
  v = v'.
Proof.
  intros Ho Hv Hv' [H1 H2] [H1' H2'].
  destruct (Nat.lt_trichotomy (lineNo v) (lineNo v')) as [H|[H|H]].
  - pose proof (ordered_before _ _ _ _ _ Ho Hv Hv' H). lia.
  - exact (ordered_same _ _ _ _ _ Ho Hv Hv' H).
  - pose proof (ordered_before _ _ _ _ _ Ho Hv' Hv H). lia.
Qed.

(** X17. Every character of the buffer other than a space or a newline
    lies in the span of exactly one visual line, for every buffer and
    every width of at least one; and no newline lies in the span of any
    line. *)
Theorem ink_in_one_line buffer cols :
  1 <= cols ->
  exists vis,
    layoutWordWrapWithOffsets buffer cols = Some vis
    /\ (forall i c,
          nth_error buffer i = Some c ->
          is_space c = false -> is_newline c = false ->
          exists v, In v vis /\ inSpan i v
                    /\ forall v', In v' vis -> inSpan i v' -> v' = v)
    /\ (forall i c v,
          nth_error buffer i = Some c -> is_newline c = true ->
          In v vis -> ~ inSpan i v).
Proof.
  intros Hcols.
  destruct (layout_facts buffer cols Hcols) as (vis & E & Ho & Hs & Hcover).
  exists vis. split; [exact E|]. split.
  - intros i c Hn Hsp Hnl.
    destruct (Hcover i c Hn) as (v & Hv & Hin).
    { unfold is_sep. rewrite Hsp, Hnl. reflexivity. }
    exists v. split; [exact Hv|]. split; [exact Hin|].
    intros v' Hv' Hin'. exact (ordered_one_span _ _ _ _ _ _ Ho Hv' Hv Hin' Hin).
  - intros i c v Hn Hnl Hv [H1 H2].
    rewrite Forall_forall in Hs. destruct (Hs v Hv) as (_ & _ & Hnn & _).
    unfold noNewlines in Hnn. rewrite Forall_forall in Hnn.
    rewrite <- (nth_error_slice buffer (start v) (end_ v) i H1 H2) in Hn.
    apply nth_error_In in Hn. rewrite (Hnn c Hn) in Hnl. discriminate.
Qed.

Lemma ink_in_one_line_witness :
  1 <= 10 /\ exists vis,
    layoutWordWrapWithOffsets (lit "hello world this is a test line") 10 = Some vis.
Proof.
  split; [lia|].
  destruct (ink_in_one_line (lit "hello world this is a test line") 10)
    as (vis & E & _); [lia|].
  exists vis. exact E.
Defined.

(** ** What gets highlighted *)

Lemma filter_seq_range f l k :
  forall a,
    filter (fun n => (f <=? n) && (n <=? l)) (seq a k)
    = seq (Nat.max a f) (Nat.min (a + k) (l + 1) - Nat.max a f).
Proof.
  induction k as [|k IH]; intros a.
  - simpl. replace (Nat.min (a + 0) (l + 1) - Nat.max a f) with 0 by lia.
    reflexivity.
  - cbn [seq filter]. rewrite IH.
    destruct (Nat.leb_spec f a) as [H1|H1]; destruct (Nat.leb_spec a l) as [H2|H2];
      simpl andb; cbv iota.
    + replace (Nat.max a f) with a by lia.
      replace (Nat.max (S a) f) with (S a) by lia.
      replace (Nat.min (a + S k) (l + 1) - a)
        with (S (Nat.min (S a + k) (l + 1) - S a)) by lia.
      reflexivity.
    + replace (Nat.min (S a + k) (l + 1) - Nat.max (S a) f) with 0 by lia.
      replace (Nat.min (a + S k) (l + 1) - Nat.max a f) with 0 by lia.
      reflexivity.
    + replace (Nat.max (S a) f) with (Nat.max a f) by lia.
      replace (S a + k) with (a + S k) by lia. reflexivity.
    + replace (Nat.min (S a + k) (l + 1) - Nat.max (S a) f) with 0 by lia.
      replace (Nat.min (a + S k) (l + 1) - Nat.max a f) with 0 by lia.
      reflexivity.
Qed.

Lemma filter_by_number (q : nat -> bool) vis :
  map lineNo (filter (fun v => q (lineNo v)) vis) = filter q (map lineNo vis).
Proof.
  induction vis as [|v vis IH]; simpl; [reflexivity|].
  destruct (q (lineNo v)); simpl; rewrite IH; reflexivity.
Qed.

(** A range of the buffer that begins and ends in the spans of two lines
    highlights the lines from the one to the other. *)
Lemma highlight_between lo n vis a b first last :
  ordered lo n vis -> In first vis -> In last vis ->
  inSpan a first -> inSpan (b - 1) last -> a < b ->
  lineNo first <= lineNo last
  /\ computeHighlightLinesByAbsRange vis a b
     = seq (lineNo first) (lineNo last - lineNo first + 1).
Proof.
  intros Ho Hf Hl [Hf1 Hf2] [Hl1 Hl2] Hab.
  assert (Hfl : lineNo first <= lineNo last).
  { destruct (Nat.le_gt_cases (lineNo first) (lineNo last)) as [H|H]; [exact H|].
    pose proof (ordered_before _ _ _ _ _ Ho Hl Hf H). lia. }
  split; [exact Hfl|].
  rewrite computeHighlight_filter. replace (Nat.max a b) with b by lia.
  rewrite (filter_ext_in (overlaps a b)
             (fun v => (fun k => (lineNo first <=? k) && (k <=? lineNo last))
                         (lineNo v))).
  - rewrite (filter_by_number
               (fun k => (lineNo first <=? k) && (k <=? lineNo last)) vis).
    rewrite <- (app_nil_r vis) in Ho.
    rewrite (ordered_numbers _ _ _ _ Ho), filter_seq_range.
    rewrite app_nil_r in Ho.
    destruct (ordered_nth _ _ _ first Ho Hf) as [Hn1 Hn2].
    destruct (ordered_nth _ _ _ last Ho Hl) as [Hn3 Hn4].
    assert (Hlt : lineNo last - n < length vis).
    { apply nth_error_Some. rewrite Hn4. discriminate. }
    f_equal; lia.
  - intros v Hv. cbv beta. unfold overlaps.
    pose proof (ordered_In _ _ _ v Ho Hv) as Hse.
    destruct (Nat.leb_spec (lineNo first) (lineNo v)) as [H1|H1];
      destruct (Nat.leb_spec (lineNo v) (lineNo last)) as [H2|H2]; simpl andb.
    + assert (Hs : start v < b).
      { destruct (Nat.eq_dec (lineNo v) (lineNo last)) as [e|ne].
        - rewrite (ordered_same _ _ _ _ _ Ho Hv Hl e). lia.
        - pose proof (ordered_before _ _ _ v last Ho Hv Hl ltac:(lia)). lia. }
      assert (He : a < end_ v).
      { destruct (Nat.eq_dec (lineNo first) (lineNo v)) as [e|ne].
        - rewrite <- (ordered_same _ _ _ _ _ Ho Hf Hv e). lia.
        - pose proof (ordered_before _ _ _ first v Ho Hf Hv ltac:(lia)). lia. }
      apply Nat.ltb_lt in Hs, He. rewrite Hs, He. reflexivity.
    + pose proof (ordered_before _ _ _ last v Ho Hl Hv H2) as Hb.
      destruct (Nat.ltb_spec (start v) b) as [H|H]; [lia | reflexivity].
    + pose proof (ordered_before _ _ _ v first Ho Hv Hf H1) as Hb.
      destruct (Nat.ltb_spec a (end_ v)) as [H|H]; [lia|]. apply andb_false_r.
    + pose proof (ordered_before _ _ _ v first Ho Hv Hf H1) as Hb.
      destruct (Nat.ltb_spec a (end_ v)) as [H|H]; [lia|]. apply andb_false_r.
Qed.

Lemma ws_not_sep c : is_ws c = false -> is_sep c = false.
Proof.
  intros H. unfold is_sep. rewrite (ws_not_space _ H).
  destruct (is_newline c) eqn:En; [|reflexivity].
  rewrite (newline_is_ws _ En) in H. discriminate.
Qed.

Lemma nth_error_middle {A : Type} (a b : list A) c :
  nth_error (a ++ c :: b) (length a) = Some c.
Proof. induction a as [|x a IH]; simpl; [reflexivity | exact IH]. Qed.

(** A text that is put into the buffer with ink at both ends highlights
    the lines from the one that shows its first character to the one that
    shows its last. *)
Lemma highlight_inserted pre ins post cols :
  1 <= cols -> ins <> [] ->
  (forall c r, ins = c :: r -> is_ws c = false) ->
  (forall r c, ins = r ++ [c] -> is_ws c = false) ->
  exists vis first last,
    layoutWordWrapWithOffsets (pre ++ ins ++ post) cols = Some vis
    /\ In first vis /\ In last vis
    /\ inSpan (length pre) first
    /\ inSpan (length pre + length ins - 1) last
    /\ lineNo first <= lineNo last
    /\ computeHighlightLinesByAbsRange vis (length pre) (length pre + length ins)
       = seq (lineNo first) (lineNo last - lineNo first + 1).
Proof.
  intros Hcols Hne Hhead Hlast.
  destruct (layout_facts (pre ++ ins ++ post) cols Hcols)
    as (vis & E & Ho & Hs & Hcover).
  destruct ins as [|c0 r0] eqn:Eins; [contradiction|]. rewrite <- Eins in *.
  destruct (exists_last Hne) as (r1 & c1 & E1).
  assert (Hc0 : is_sep c0 = false) by (apply ws_not_sep, (Hhead c0 r0 Eins)).
  assert (Hc1 : is_sep c1 = false) by (apply ws_not_sep, (Hlast r1 c1 E1)).
  destruct (Hcover (length pre) c0) as (first & Hf & Hfs); [|exact Hc0|].
  { rewrite Eins. apply nth_error_middle. }
  destruct (Hcover (length pre + length ins - 1) c1) as (last & Hl & Hls);
    [|exact Hc1|].
  { rewrite E1, length_app. simpl length.
    replace (length pre + (length r1 + 1) - 1) with (length (pre ++ r1))
      by (rewrite length_app; lia).
    rewrite <- app_assoc. simpl app.
    rewrite (app_assoc pre r1 (c1 :: post)). apply nth_error_middle. }
  assert (Hpos : 1 <= length ins) by (rewrite Eins; simpl; lia).
  destruct (highlight_between 0 1 vis (length pre) (length pre + length ins)
              first last Ho Hf Hl Hfs) as [Hle Hh]; [exact Hls | lia |].
  exists vis, first, last. repeat split; try assumption.
  - destruct Hfs; assumption.
  - destruct Hfs; assumption.
  - destruct Hls; assumption.
  - destruct Hls; assumption.
Qed.

Lemma anchor_count len :
  1 <= len -> orElse (jsmax (Fin 1) (ofNat len)) (Fin 1) = ofNat len.
Proof.
  intros H. unfold ofNat. change (Fin 1) with (Fin (inject_Z 1)).
  rewrite jsmax_ints, orElse_int.
  destruct (Z.eqb_spec (Z.max 1 (Z.of_nat len)) 0) as [e|_]; [lia|].
  do 2 f_equal. lia.
Qed.

(** X18. What an append does.  On a kernel whose width is at least one,
    [write_append] with a text that is not blank returns with [ok]: the
    buffer becomes the old buffer, a newline when a new paragraph is asked
    for and the old buffer is neither empty nor ended by a newline, and the
    text trimmed; nothing of the old buffer is changed.  The revision goes
    up by one and the width stays.  The diff record is anchored at the
    number of lines there were, removes nothing, and highlights exactly the
    visual lines from the one that shows the first character of the
    appended text to the one that shows its last character. *)
Theorem write_append_contract paper text ensureNewParagraph :
  1 <= Paper.cols paper ->
  isEmpty (trim text) = false ->
  exists beforeVis afterVis r paper' d first last,
    getVisualLines paper = Some beforeVis
    /\ write_append text ensureNewParagraph paper = Some (r, paper')
    /\ getVisualLines paper' = Some afterVis
    /\ AppendResult.ok r = true
    /\ let old := Paper.text paper in
       let sep := if ensureNewParagraph && (0 <? length old)
                     && negb (endsWithNewline old)
                  then ["010"%char] else [] in
       Paper.text paper' = old ++ sep ++ trim text
       /\ Paper.rev paper' = S (Paper.rev paper)
       /\ AppendResult.paper_rev r = S (Paper.rev paper)
       /\ Paper.cols paper' = Paper.cols paper
       /\ Paper.diff paper' = Some d
       /\ Diff.anchorLine d = ofNat (length beforeVis)
       /\ Diff.removedText d = None
       /\ Diff.removedLines d = None
       /\ AppendResult.highlightLines r = Some (Diff.highlightLines d)
       /\ In first afterVis /\ In last afterVis
       /\ inSpan (length old + length sep) first
       /\ inSpan (length (Paper.text paper') - 1) last
       /\ lineNo first <= lineNo last
       /\ Diff.highlightLines d
          = seq (lineNo first) (lineNo last - lineNo first + 1).
Proof.
  intros Hcols Hq.
  destruct (getVisualLines_returns paper Hcols) as (beforeVis & E & Hlen).
  set (old := Paper.text paper).
  set (needsNL := ensureNewParagraph && (0 <? length old)
                  && negb (endsWithNewline old)).
  set (sep := if needsNL then ["010"%char] else []).
  set (ins := trim text) in *.
  assert (Hne : ins <> []) by (destruct ins; [discriminate | discriminate]).
  destruct (highlight_inserted (old ++ sep) ins [] (Paper.cols paper) Hcols Hne)
    as (afterVis & first & last & E1 & Hf & Hl & Hfs & Hls & Hle & Hh).
  { intros c r. apply trim_head. }
  { intros r c. apply trim_last. }
  rewrite app_nil_r, <- app_assoc in E1.
  assert (Habs : length old + (if needsNL then 1 else 0) = length (old ++ sep)).
  { rewrite length_app. unfold sep. destruct needsNL; reflexivity. }
  exists beforeVis, afterVis. eexists. eexists. eexists. exists first, last.
  split; [exact E|]. split.
  { unfold write_append. rewrite E. fold ins. rewrite Hq. cbv zeta.
    fold old. fold needsNL. fold sep.
    set (paper1 := {| Paper.cols := Paper.cols paper; Paper.rev := _;
                      Paper.text := _; Paper.diff := Paper.diff paper |}).
    assert (E1' : getVisualLines paper1 = Some afterVis) by exact E1.
    rewrite E1'. unfold _setDiff. rewrite E1'. rewrite Habs, Hh.
    reflexivity. }
  split; [exact E1|]. split; [reflexivity|]. cbv zeta.
  fold old. fold needsNL. fold sep. fold ins.
  split; [reflexivity|]. split; [reflexivity|]. split; [reflexivity|].
  split; [reflexivity|]. split; [reflexivity|].
  split; [exact (anchor_count _ Hlen)|].
  split; [reflexivity|]. split; [reflexivity|]. split; [reflexivity|].
  split; [exact Hf|]. split; [exact Hl|].
  rewrite length_app in Hfs, Hls.
  split; [exact Hfs|]. split; [|split; [exact Hle | reflexivity]].
  cbn [Paper.text].
  replace (length (old ++ sep ++ ins) - 1)
    with (length old + length sep + length ins - 1)
    by (rewrite !length_app; lia).
  exact Hls.
Qed.

Lemma write_append_contract_witness :
  exists beforeVis r paper',
    getVisualLines (seed (lit "one two") (createPaperKernel defaultCols))
    = Some beforeVis
    /\ write_append (lit " three ") true
         (seed (lit "one two") (createPaperKernel defaultCols))
       = Some (r, paper')
    /\ Paper.text paper' = lit "one two" ++ ["010"%char] ++ lit "three".
Proof.
  destruct (write_append_contract
              (seed (lit "one two") (createPaperKernel defaultCols))
              (lit " three ") true)
    as (beforeVis & afterVis & r & paper' & d & first & last & E & W & _ & _ & T & _).
  - simpl. unfold defaultCols. lia.
  - reflexivity.
  - exists beforeVis, r, paper'. split; [exact E|]. split; [exact W | exact T].
Defined.

(** X19. What a replace highlights.  On a kernel whose width is at least
    one, [write_replace] at a whole line number with a new text that is not
    blank highlights exactly the visual lines of the new layout from the one
    that shows the first character of the text written to the one that
    shows its last character. *)
Theorem write_replace_highlight paper z newText :
  1 <= Paper.cols paper ->
  isEmpty (trim (collapseWs newText)) = false ->
  exists vis target afterVis r paper' first last,
    getVisualLines paper = Some vis
    /\ nth_error vis
         (Z.to_nat (clampLineZ 1 1 z (Z.of_nat (length vis))) - 1) = Some target
    /\ write_replace (Fin (inject_Z z)) newText paper = Some (r, paper')
    /\ getVisualLines paper' = Some afterVis
    /\ In first afterVis /\ In last afterVis
    /\ inSpan (start target) first
    /\ inSpan (start target + length (trim (collapseWs newText)) - 1) last
    /\ lineNo first <= lineNo last
    /\ ReplaceResult.highlightLines r
       = seq (lineNo first) (lineNo last - lineNo first + 1).
Proof.
  intros Hcols Hq.
  destruct (layout_spans (Paper.text paper) (Paper.cols paper) Hcols)
    as (vis & E & Hs).
  change (getVisualLines paper = Some vis) in E.
  destruct (writeReplace_after paper vis z newText Hcols E)
    as (target & afterVis & annot & Ht & E1 & Hw).
  set (rep := trim (collapseWs newText)) in *.
  assert (Hne : rep <> []) by (destruct rep; [discriminate | discriminate]).
  assert (Hstart : start target <= length (Paper.text paper)).
  { rewrite Forall_forall in Hs. apply nth_error_In in Ht.
    destruct (Hs target Ht) as (H1 & H2 & _). lia. }
  destruct (highlight_inserted (firstn (start target) (Paper.text paper)) rep
              (skipn (end_ target) (Paper.text paper)) (Paper.cols paper) Hcols Hne)
    as (afterVis' & first & last & E2 & Hf & Hl & Hfs & Hls & Hle & Hh).
  { intros c r. apply trim_head. }
  { intros r c. apply trim_last. }
  rewrite E1 in E2. injection E2 as <-.
  rewrite length_firstn, Nat.min_l in Hfs, Hls, Hh by exact Hstart.
  exists vis, target, afterVis. unfold write_replace. rewrite Hw.
  eexists. eexists. exists first, last.
  split; [exact E|]. split; [exact Ht|]. split; [reflexivity|].
  split; [exact E1|].
  repeat split; try assumption; destruct Hfs, Hls; assumption.
Qed.

Lemma write_replace_highlight_witness :
  exists vis r paper',
    getVisualLines (seed (lit "one two") (createPaperKernel defaultCols)) = Some vis
    /\ write_replace (Fin (inject_Z 1)) (lit "three   four")
         (seed (lit "one two") (createPaperKernel defaultCols))
       = Some (r, paper').
Proof.
  destruct (write_replace_highlight
              (seed (lit "one two") (createPaperKernel defaultCols))
              1 (lit "three   four"))
    as (vis & target & afterVis & r & paper' & first & last & E & _ & W & _).
  - simpl. unfold defaultCols. lia.
  - reflexivity.
  - exists vis, r, paper'. split; [exact E | exact W].
Defined.

(** ** Every paragraph and its lines *)

Lemma newline_outside_span (s : str) v k c :
  showsSpan s v -> start v <= k -> k < end_ v ->
  nth_error s k = Some c -> is_newline c = false.
Proof.
  intros (_ & _ & Hnn & _) Hlo Hhi Hk.
  rewrite <- (nth_error_slice s (start v) (end_ v) k Hlo Hhi) in Hk.
  apply nth_error_In in Hk. unfold noNewlines in Hnn.
  rewrite Forall_forall in Hnn. apply Hnn. exact Hk.
Qed.

Lemma ink_position (l : str) :
  inkOf l <> [] ->
  exists j c, nth_error l j = Some c /\ is_sep c = false.
Proof.
  intros H. destruct (inkOf l) as [|c r] eqn:E; [contradiction|].
  assert (Hin : In c (inkOf l)) by (rewrite E; left; reflexivity).
  unfold inkOf in Hin. apply filter_In in Hin. destruct Hin as (Hin & Hc).
  apply In_nth_error in Hin. destruct Hin as (j & Hj).
  exists j, c. split; [exact Hj|]. apply negb_true_iff. exact Hc.
Qed.

(** A paragraph that shows a character has a line of its own, with text,
    inside the paragraph. *)
Lemma paragraph_has_line cols a para b :
  1 <= cols -> endsPara a -> beginsPara b ->
  noNewlines para -> inkOf para <> [] ->
  exists vis v,
    layoutWordWrapWithOffsets (a ++ para ++ b) cols = Some vis
    /\ In v vis
    /\ length a <= start v /\ start v < end_ v
    /\ end_ v <= length a + length para
    /\ text v <> [].
Proof.
  intros Hcols Ha Hb Hnn Hink.
  destruct (ink_position para Hink) as (j & c & Hj & Hc).
  assert (Hjlen : j < length para)
    by (apply nth_error_Some; rewrite Hj; discriminate).
  destruct (layout_facts (a ++ para ++ b) cols Hcols)
    as (vis & E & _ & Hs & Hcover).
  assert (Hi : nth_error (a ++ para ++ b) (length a + j) = Some c).
  { rewrite nth_error_app2 by lia.
    replace (length a + j - length a) with j by lia.
    rewrite nth_error_app1 by exact Hjlen. exact Hj. }
  destruct (Hcover _ _ Hi Hc) as (v & Hin & Hlo & Hhi).
  rewrite Forall_forall in Hs. pose proof (Hs v Hin) as Hv.
  exists vis, v. split; [exact E|]. split; [exact Hin|].
  assert (Hstart : length a <= start v).
  { destruct (Nat.le_gt_cases (length a) (start v)) as [H|H]; [exact H|].
    exfalso. destruct Ha as [->|(a' & ->)]; [simpl in H; lia|].
    rewrite length_app in H, Hhi. simpl in H, Hhi.
    assert (Hk : nth_error ((a' ++ ["010"%char]) ++ para ++ b) (length a')
                 = Some "010"%char).
    { rewrite <- app_assoc. simpl. apply nth_error_middle. }
    assert (H1 : start v <= length a') by lia.
    assert (H2 : length a' < end_ v) by lia.
    pose proof (newline_outside_span _ v (length a') "010"%char Hv H1 H2 Hk)
      as Hno.
    discriminate Hno. }
  assert (Hend : end_ v <= length a + length para).
  { destruct (Nat.le_gt_cases (end_ v) (length a + length para)) as [H|H];
      [exact H|].
    exfalso. destruct Hb as [->|(b' & ->)].
    - destruct Hv as (_ & Hle & _). rewrite !length_app in Hle.
      simpl in Hle. lia.
    - assert (Hk : nth_error (a ++ para ++ "010"%char :: b')
                     (length a + length para) = Some "010"%char).
      { rewrite app_assoc, <- length_app. apply nth_error_middle. }
      assert (H1 : start v <= length a + length para) by lia.
      pose proof (newline_outside_span _ v (length a + length para)
                    "010"%char Hv H1 H Hk) as Hno.
      discriminate Hno. }
  split; [exact Hstart|]. split; [lia|]. split; [exact Hend|].
  destruct Hv as (_ & _ & _ & _ & Hempty).
  intros Ht. apply Hempty in Ht. lia.
Qed.

(** C7, as the code has it.  An empty buffer is laid out as the one line
    [{lineNo: 1, text: empty, start: 0, end: 0}], whatever the width.  For a
    width of at least one, an empty paragraph - nothing between the start
    of the buffer or a newline and the next newline or the end of the
    buffer, so also what two newlines in a row or a newline at the end
    leave - is laid out as exactly one visual line, with empty text, at
    the offset of the paragraph and with a line number of its own: the
    lines before it end before that offset and the lines after it start
    after it.  A paragraph that shows a character other than a space has a
    line with text whose span lies inside the paragraph.  So every
    paragraph that is empty or shows a character has a line of its own;
    a paragraph of spaces only is not among them. *)
Theorem empty_paragraph_one_line :
  (forall cols,
      layoutWordWrapWithOffsets [] cols
      = Some [{| lineNo := 1; text := []; start := 0; end_ := 0 |}])
  /\ (forall cols a b,
         1 <= cols -> endsPara a -> beginsPara b ->
         exists la lb,
           layoutWordWrapWithOffsets (a ++ b) cols
           = Some (la ++ [{| lineNo := S (length la); text := [];
                             start := length a; end_ := length a |}] ++ lb)
           /\ Forall (fun v => end_ v < length a) la
           /\ Forall (fun v => length a < start v) lb)
  /\ (forall cols a para b,
         1 <= cols -> endsPara a -> beginsPara b ->
         noNewlines para -> inkOf para <> [] ->
         exists vis v,
           layoutWordWrapWithOffsets (a ++ para ++ b) cols = Some vis
           /\ In v vis
           /\ length a <= start v /\ start v < end_ v
           /\ end_ v <= length a + length para
           /\ text v <> []).
Proof.
  split; [reflexivity|]. split.
  - intros cols a b Hcols Ha Hb.
    destruct (layout_blank cols a 0 b Hcols Ha Hb) as (la & lb & E & Hla & Hlb).
    change (spaces 0 ++ b) with b in E. rewrite layout_unfold, E.
    exists la, lb. split; [|split].
    + unfold emptyLine. simpl. rewrite length_app. simpl.
      replace (length la + S (length lb) =? 0) with false; [reflexivity|].
      symmetry. apply Nat.eqb_neq. lia.
    + exact Hla.
    + eapply Forall_impl; [|exact Hlb]. simpl. intros v Hv. lia.
  - exact paragraph_has_line.
Qed.

Lemma empty_paragraph_one_line_witness :
  1 <= 26 /\ endsPara (lit "ab" ++ ["010"%char])
  /\ beginsPara ("010"%char :: lit "cd")
  /\ noNewlines (lit " x ") /\ inkOf (lit " x ") <> []
  /\ (exists la lb,
         layoutWordWrapWithOffsets
           ((lit "ab" ++ ["010"%char]) ++ "010"%char :: lit "cd") 26
         = Some (la ++ [{| lineNo := S (length la); text := [];
                           start := 3; end_ := 3 |}] ++ lb)
         /\ Forall (fun v => end_ v < 3) la
         /\ Forall (fun v => 3 < start v) lb)
  /\ (exists vis v,
         layoutWordWrapWithOffsets
           ((lit "ab" ++ ["010"%char]) ++ lit " x "
            ++ "010"%char :: lit "cd") 26 = Some vis
         /\ In v vis
         /\ 3 <= start v /\ start v < end_ v /\ end_ v <= 3 + 3
         /\ text v <> []).
Proof.
  assert (Ha : endsPara (lit "ab" ++ ["010"%char]))
    by (right; exists (lit "ab"); reflexivity).
  assert (Hb : beginsPara ("010"%char :: lit "cd"))
    by (right; exists (lit "cd"); reflexivity).
  assert (Hn : noNewlines (lit " x ")) by (repeat constructor).
  assert (Hi : inkOf (lit " x ") <> []) by discriminate.
  split; [lia|]. split; [exact Ha|]. split; [exact Hb|].
  split; [exact Hn|]. split; [exact Hi|]. split.
  - exact (proj1 (proj2 empty_paragraph_one_line) 26
             (lit "ab" ++ ["010"%char]) ("010"%char :: lit "cd")
             (Nat.lt_0_succ 25) Ha Hb).
  - exact (proj2 (proj2 empty_paragraph_one_line) 26
             (lit "ab" ++ ["010"%char]) (lit " x ")
             ("010"%char :: lit "cd") (Nat.lt_0_succ 25) Ha Hb Hn Hi).
Defined.

(** C7 as stated fails: not every paragraph has a line.  The buffer of
    "ab", a space and "cd" on three lines has three paragraphs and two
    visual lines, and neither line lies in the paragraph of the space,
    which is the characters from 3 to 4. *)
Lemma empty_paragraph_one_line_counterexample :
  exists vis,
    layoutWordWrapWithOffsets
      (lit "ab" ++ "010"%char :: " "%char :: "010"%char :: lit "cd") 26
    = Some vis
    /\ paragraphCount
         (lit "ab" ++ "010"%char :: " "%char :: "010"%char :: lit "cd") = 3
    /\ vis = [{| lineNo := 1; text := lit "ab"; start := 0; end_ := 2 |};
              {| lineNo := 2; text := lit "cd"; start := 5; end_ := 7 |}]
    /\ ~ exists v, In v vis /\ 3 <= start v /\ end_ v <= 4.
Proof.
  exists [{| lineNo := 1; text := lit "ab"; start := 0; end_ := 2 |};
          {| lineNo := 2; text := lit "cd"; start := 5; end_ := 7 |}].
  split; [reflexivity|]. split; [reflexivity|]. split; [reflexivity|].
  intros (v & [<-|[<-|[]]] & Hlo & Hhi); simpl in Hlo, Hhi; lia.
Qed.

(** ** Lines are filled as far as they go *)

Lemma scan_spaces_word para c sp word rest :
  skipn c para = sp ++ word ++ rest ->
  allSpaces sp -> word <> [] -> noSpaces word ->
  scan is_space para c = c + length sp.
Proof.
  intros Hsk Hsp Hne Hw. unfold scan. rewrite Hsk. f_equal.
  destruct word as [|x w]; [contradiction|]. inversion Hw as [|? ? Hx _]; subst.
  simpl app. apply span_app_stop; assumption.
Qed.

Lemma skipn_to_word (para : str) c sp word rest :
  skipn c para = sp ++ word ++ rest -> skipn (c + length sp) para = word ++ rest.
Proof.
  intros Hsk. replace (c + length sp) with (length sp + c) by lia.
  rewrite <- skipn_skipn, Hsk, skipn_app, skipn_all, Nat.sub_diag. reflexivity.
Qed.

(** The line loop stops only for one of its two reasons. *)
Lemma fillLine_full cols pStart para fuel :
  forall st, length para - cursor st <= fuel ->
    lineFull cols para (fillLine cols pStart para fuel st).
Proof.
  induction fuel as [|fuel IH]; intros st Hf.
  - simpl. left. pose proof (scan_ge is_space para (cursor st)). lia.
  - simpl.
    destruct (fillStep_cases cols pStart para st)
      as [[Hall E]|(sp & word & rest & Hsk & Hsp & Hne & Hw & Hrest & Hsk' & Hle & E)];
      rewrite E.
    + left. unfold scan. rewrite (span_all is_space Hall), length_skipn. lia.
    + destruct (Nat.leb_spec (length (candidateOf st word)) cols) as [Hfit|Hno].
      * apply IH. simpl.
        destruct word as [|x w]; [contradiction|]. simpl length. lia.
      * pose proof (scan_spaces_word para (cursor st) sp word rest Hsk Hsp Hne Hw)
          as Hscan.
        pose proof (skipn_to_word para (cursor st) sp word rest Hsk) as Hword.
        unfold candidateOf in Hno.
        destruct (lineText st) as [|t0 t] eqn:Et; simpl isEmpty in *; cbv iota in *.
        -- right. simpl lineText. rewrite length_firstn. lia.
        -- right. rewrite Et, Hscan, Hword, (span_word _ _ Hw Hrest).
           rewrite length_app in Hno. simpl length in *. lia.
Qed.

(** A line begins where the spaces before it end, and has no text only
    as long as the cursor has not moved. *)
Lemma lineFrom_head cols pStart para c :
  scan is_space para c < length para ->
  lineStartAbs (lineFrom cols pStart para c) = pStart + scan is_space para c
  /\ (lineText (lineFrom cols pStart para c) = [] ->
      cursor (lineFrom cols pStart para c) = scan is_space para c).
Proof.
  intros Hmore. unfold lineFrom.
  destruct (scan_more_head para c Hmore) as (x & r & Hx & Hxs).
  set (c1 := scan is_space para c) in *.
  assert (Hsp0 : forall sp word rest,
             skipn c1 para = sp ++ word ++ rest -> allSpaces sp -> sp = []).
  { intros sp word rest Hsk Hsp. rewrite Hx in Hsk.
    destruct sp as [|y sp]; [reflexivity|].
    simpl in Hsk. injection Hsk as -> _. inversion Hsp as [|? ? Hy _]; subst.
    congruence. }
  apply (@fillLine_inv cols pStart para
           (fun st => lineStartAbs st = pStart + c1
                      /\ (lineText st = [] -> cursor st = c1))).
  - intros st st' [H1 H2] H. apply fillStep_Continue in H.
    destruct H as (sp & word & rest & Hsk & Hsp & Hne & _ & _ & _ & _ & _ & ->).
    simpl. unfold candidateOf.
    destruct (lineText st) as [|t0 t] eqn:Et; simpl isEmpty; cbv iota.
    + specialize (H2 eq_refl). rewrite H2 in Hsk.
      rewrite (Hsp0 sp word rest Hsk Hsp), H2. simpl.
      split; [f_equal; lia | intros; contradiction].
    + split; [exact H1 | intros H; destruct t; discriminate].
  - intros st st' [H1 H2] H. apply fillStep_Break in H.
    destruct H as [->|(Ht & sp & word & rest & Hsk & Hsp & _ & _ & _ & _ & _ & ->)].
    + split; assumption.
    + specialize (H2 Ht). rewrite H2 in Hsk.
      rewrite (Hsp0 sp word rest Hsk Hsp), H2. simpl.
      split; [f_equal; lia|]. intros H.
      pose proof (length_firstn cols word) as L. rewrite H in L. simpl in L. lia.
  - unfold lineInit. simpl. split; reflexivity.
Qed.

Lemma lineFrom_start cols pStart para c :
  scan is_space para c < length para ->
  lineStartAbs (lineFrom cols pStart para c) = pStart + scan is_space para c.
Proof. intros H. apply (lineFrom_head cols pStart para c H). Qed.

(** With a width of at least one a line of a paragraph shows something. *)
Lemma lineFrom_nonempty cols pStart para c :
  1 <= cols -> scan is_space para c < length para ->
  lineStartAbs (lineFrom cols pStart para c)
  < lineEndAbs (lineFrom cols pStart para c).
Proof.
  intros Hcols Hmore.
  destruct (lineFrom_head cols pStart para c Hmore) as [_ Hcur].
  pose proof (@lineFrom_progress cols pStart para c Hcols Hmore) as Hprog.
  destruct (lineFrom_span cols pStart para c Hmore)
    as (a & b & Hs & He & Hab & _ & _ & Hiff).
  simpl in Hs, He, Hiff.
  assert (Hne : a <> b).
  { intros E. apply Hiff in E. specialize (Hcur E). lia. }
  lia.
Qed.

(** Within a paragraph the word that begins at [k] is the word of the
    buffer that begins there. *)
Lemma span_para para tail :
  noNewlines para ->
  tail = [] \/ (exists c r, tail = c :: r /\ is_newline c = true) ->
  span not_sep (para ++ tail) = span not_space para.
Proof.
  intros Hnn Htail. induction Hnn as [|x para Hx _ IH]; simpl.
  - destruct Htail as [->|(c & r & -> & Hc)]; [reflexivity|].
    simpl. unfold not_sep. rewrite (is_sep_newline _ Hc). reflexivity.
  - unfold not_sep at 1. rewrite (is_sep_noNewline _ Hx).
    fold (not_space x). destruct (not_space x); [rewrite IH|]; reflexivity.
Qed.

Lemma wordLenAt_para s i para tail k :
  skipn i s = para ++ tail -> noNewlines para ->
  tail = [] \/ (exists c r, tail = c :: r /\ is_newline c = true) ->
  k <= length para ->
  wordLenAt s (i + k) = span not_space (skipn k para).
Proof.
  intros Hsk Hnn Htail Hk. unfold wordLenAt.
  replace (i + k) with (k + i) by lia.
  rewrite <- skipn_skipn, Hsk, skipn_app.
  replace (k - length para) with 0 by lia. simpl skipn.
  apply span_para; [|exact Htail].
  unfold noNewlines in *. apply Forall_forall. intros x Hx.
  rewrite Forall_forall in Hnn. apply Hnn.
  rewrite <- (firstn_skipn k para). apply in_or_app. right. exact Hx.
Qed.

(** The lines of one paragraph. *)
Lemma wrapPara_greedy cols s i para tail fuel c ln :
  1 <= cols ->
  skipn i s = para ++ tail -> noNewlines para ->
  tail = [] \/ (exists x r, tail = x :: r /\ is_newline x = true) ->
  length para - c < fuel ->
  exists ls,
    wrapPara cols i para fuel c ln = Some ls
    /\ Sorted (breakIsDue cols s) ls
    /\ (forall v rest, ls = v :: rest ->
          start v = i + scan is_space para c
          /\ scan is_space para c < length para).
Proof.
  intros Hcols Hsk Hnn Htail.
  apply (@wrapPara_lines cols i para
           (fun c _ ls =>
              Sorted (breakIsDue cols s) ls
              /\ (forall v rest, ls = v :: rest ->
                    start v = i + scan is_space para c
                    /\ scan is_space para c < length para)) Hcols).
  - intros c0 ln0 Hend. split; [constructor|]. intros v rest H. discriminate.
  - intros c0 ln0 rest Hmore [Hsorted Hhead]. split.
    + constructor; [exact Hsorted|].
      destruct rest as [|v' rest']; constructor.
      destruct (Hhead v' rest' eq_refl) as [Hs' Hm'].
      right. simpl text.
      pose proof (fillLine_full cols i para (length para)
                    (lineInit i (scan is_space para c0))) as Hfull.
      fold (lineFrom cols i para c0) in Hfull.
      destruct Hfull as [Hstop|Hgt]; [simpl; lia | lia |].
      rewrite Hs'.
      rewrite (wordLenAt_para s i para tail _ Hsk Hnn Htail) by lia.
      exact Hgt.
    + intros v rest0 H. injection H as <- _. simpl.
      split; [apply lineFrom_start; exact Hmore | exact Hmore].
Qed.

Lemma Sorted_app_all {A : Type} (R : A -> A -> Prop) a b :
  Sorted R a -> Sorted R b -> (forall x y, In x a -> In y b -> R x y) ->
  Sorted R (a ++ b).
Proof.
  intros Ha Hb Hab. induction Ha as [|x a Ha IH Hhd]; [exact Hb|].
  simpl. constructor.
  - apply IH. intros x0 y Hx Hy. apply Hab; [right; exact Hx | exact Hy].
  - destruct a as [|x' a'].
    + simpl. destruct b as [|y b']; constructor.
      apply Hab; left; reflexivity.
    + simpl. constructor. inversion Hhd; subst. assumption.
Qed.

Lemma Sorted_adjacent {A : Type} (R : A -> A -> Prop) l :
  Sorted R l ->
  forall k x y, nth_error l k = Some x -> nth_error l (S k) = Some y -> R x y.
Proof.
  induction 1 as [|a l Hs IH Hhd]; intros k x y Hx Hy.
  - destruct k; discriminate.
  - destruct k as [|k].
    + simpl in Hx, Hy. injection Hx as <-.
      destruct l as [|b l']; [discriminate|]. simpl in Hy. injection Hy as <-.
      inversion Hhd; subst. assumption.
    + exact (IH k x y Hx Hy).
Qed.

Lemma wrapPara_empty cols pStart para fuel c ln ls :
  length para = 0 -> wrapPara cols pStart para fuel c ln = Some ls -> ls = [].
Proof.
  intros H E. destruct fuel as [|fuel]; [discriminate|].
  rewrite wrapPara_unfold, H in E. simpl in E. injection E as <-. reflexivity.
Qed.

(** The lines of the paragraphs from [i] on. *)
Lemma layoutParas_greedy cols s fuel i ln :
  1 <= cols -> i <= length s -> length s - i < fuel ->
  exists out,
    layoutParas cols s fuel i ln = Some out
    /\ Sorted (breakIsDue cols s) out
    /\ Forall (fun v => i <= start v) out.
Proof.
  intros Hcols.
  apply (@layoutParas_paras cols s
           (fun i _ out =>
              Sorted (breakIsDue cols s) out /\ Forall (fun v => i <= start v) out)
           Hcols); clear fuel i ln.
  - intros i ln para ls Hsk Hnn Hlen E (Ho & _).
    assert (Hsk' : skipn i s = para ++ []) by (rewrite app_nil_r; exact Hsk).
    destruct (wrapPara_greedy cols s i para [] (S (length para)) 0 ln Hcols Hsk' Hnn)
      as (ls' & E' & Hsorted & _); [left; reflexivity | lia |].
    rewrite E in E'. injection E' as <-.
    unfold emptyLine. destruct (Nat.eqb_spec (length para) 0) as [Hz|Hnz].
    + rewrite (wrapPara_empty _ _ _ _ _ _ _ Hz E). simpl.
      split; [repeat constructor | constructor; [simpl; lia | constructor]].
    + rewrite app_nil_r. split; [exact Hsorted|].
      pose proof (ordered_start _ _ _ Ho) as Hst.
      eapply Forall_impl; [|exact Hst]. intros v Hv. simpl in Hv. lia.
  - intros i ln para c r ls rest Hsk Hc Hnn Hlt Hr E (Ho & Hend & _) [Hsorted Hlow].
    destruct (wrapPara_greedy cols s i para (c :: r) (S (length para)) 0 ln
                Hcols Hsk Hnn)
      as (ls' & E' & Hls & _); [right; exists c, r; split; [reflexivity|exact Hc]
                               | lia |].
    rewrite E in E'. injection E' as <-.
    assert (Hnl : nth_error s (i + length para) = Some c).
    { rewrite <- (Nat.add_0_r (i + length para)), <- nth_error_skipn.
      replace (i + length para) with (length para + i) by lia.
      rewrite <- skipn_skipn, Hsk, skipn_app, skipn_all, Nat.sub_diag.
      reflexivity. }
    assert (Hfirst : Sorted (breakIsDue cols s)
                       (ls ++ emptyLine para (ln + length ls) i)
                     /\ Forall (fun v => i <= start v /\ end_ v <= i + length para)
                          (ls ++ emptyLine para (ln + length ls) i)).
    { unfold emptyLine. destruct (Nat.eqb_spec (length para) 0) as [Hz|Hnz].
      - rewrite (wrapPara_empty _ _ _ _ _ _ _ Hz E). simpl.
        split; [repeat constructor|]. constructor; [simpl; lia | constructor].
      - rewrite app_nil_r. split; [exact Hls|].
        pose proof (ordered_start _ _ _ Ho) as Hst.
        apply Forall_forall. intros v Hv.
        rewrite Forall_forall in Hst, Hend.
        specialize (Hst v Hv). specialize (Hend v Hv). simpl in Hst. lia. }
    destruct Hfirst as [Hs1 Hb1]. rewrite app_assoc. split.
    + apply Sorted_app_all; [exact Hs1 | exact Hsorted |].
      intros x y Hx Hy. left. exists (i + length para), c.
      rewrite Forall_forall in Hb1, Hlow.
      specialize (Hb1 x Hx). specialize (Hlow y Hy). simpl in Hlow.
      repeat split; try assumption; lia.
    + apply Forall_app. split.
      * eapply Forall_impl; [|exact Hb1]. intros v Hv. simpl in Hv. lia.
      * eapply Forall_impl; [|exact Hlow]. intros v Hv. simpl in Hv. lia.
Qed.

(** X20. Lines are filled as far as they go.  For every buffer and every
    width of at least one the wrap returns, and of two visual lines in a
    row either a newline of the buffer lies between the end of the first
    and the beginning of the second, or the text of the first, a space and
    the word of the buffer that begins the second are together longer than
    the width: a line is never broken while the next word would still
    fit. *)
Theorem wrap_is_greedy buffer cols :
  1 <= cols ->
  exists vis,
    layoutWordWrapWithOffsets buffer cols = Some vis
    /\ forall k v v',
         nth_error vis k = Some v -> nth_error vis (S k) = Some v' ->
         newlineBetween buffer (end_ v) (start v')
         \/ cols < length (text v) + 1 + wordLenAt buffer (start v').
Proof.
  intros Hcols. rewrite layout_unfold.
  destruct (layoutParas_greedy cols buffer (S (length buffer)) 0 1 Hcols)
    as (out & E & Hsorted & _); [lia | lia |].
  rewrite E. eexists. split; [reflexivity|].
  intros k v v' Hv Hv'.
  destruct out as [|v0 out]; simpl length in Hv, Hv'; cbv iota in Hv, Hv'.
  - simpl in Hv, Hv'. destruct k; discriminate.
  - simpl Nat.eqb in Hv, Hv'. cbv iota in Hv, Hv'.
    exact (Sorted_adjacent _ _ Hsorted k v v' Hv Hv').
Qed.

Lemma wrap_is_greedy_witness :
  1 <= 10 /\ exists vis,
    layoutWordWrapWithOffsets (lit "hello world this is a test line") 10 = Some vis.
Proof.
  split; [lia|].
  destruct (wrap_is_greedy (lit "hello world this is a test line") 10)
    as (vis & E & _); [lia|].
  exists vis. exact E.
Defined.

(** ** Lines without text *)

Lemma wrapPara_nonempty cols pStart para fuel c ln :
  1 <= cols -> length para - c < fuel ->
  exists ls,
    wrapPara cols pStart para fuel c ln = Some ls
    /\ Forall (fun v => start v < end_ v) ls.
Proof.
  intros Hcols.
  apply (@wrapPara_lines cols pStart para
           (fun _ _ ls => Forall (fun v => start v < end_ v) ls) Hcols).
  - intros. constructor.
  - intros c0 ln0 rest Hmore Hrest. constructor; [|exact Hrest].
    simpl. exact (lineFrom_nonempty cols pStart para c0 Hcols Hmore).
Qed.

Lemma startsAt_back s i k c q :
  nth_error s (i + k) = Some c -> is_newline c = true ->
  startsAt s (i + k + 1) q -> startsAt s i q.
Proof.
  intros Hn Hc [->|(Hlt & H)].
  - right. split; [lia|]. exists c.
    replace (i + k + 1 - 1) with (i + k) by lia. split; assumption.
  - right. split; [lia | exact H].
Qed.

(** Every line of the paragraphs from [i] on has its reason. *)
Lemma layoutParas_reasons cols s fuel i ln :
  1 <= cols -> i <= length s -> length s - i < fuel ->
  exists out,
    layoutParas cols s fuel i ln = Some out
    /\ Forall (lineHasReason s i) out.
Proof.
  intros Hcols.
  apply (@layoutParas_paras cols s (fun i _ out => Forall (lineHasReason s i) out)
           Hcols); clear fuel i ln.
  - intros i ln para ls Hsk Hnn Hlen E _.
    destruct (wrapPara_nonempty cols i para (S (length para)) 0 ln Hcols)
      as (ls' & E' & Hne); [lia|].
    rewrite E in E'. injection E' as <-.
    apply Forall_app. split.
    + eapply Forall_impl; [|exact Hne]. intros v Hv. left. exact Hv.
    + unfold emptyLine. destruct (Nat.eqb_spec (length para) 0) as [Hz|_];
        constructor; [|constructor].
      right. simpl. split; [reflexivity|]. split; [left; reflexivity|].
      left. lia.
  - intros i ln para c r ls rest Hsk Hc Hnn Hlt Hr E _ Hrest.
    destruct (wrapPara_nonempty cols i para (S (length para)) 0 ln Hcols)
      as (ls' & E' & Hne); [lia|].
    rewrite E in E'. injection E' as <-.
    assert (Hnl : nth_error s (i + length para) = Some c).
    { rewrite <- (Nat.add_0_r (i + length para)), <- nth_error_skipn.
      replace (i + length para) with (length para + i) by lia.
      rewrite <- skipn_skipn, Hsk, skipn_app, skipn_all, Nat.sub_diag.
      reflexivity. }
    apply Forall_app. split; [|apply Forall_app; split].
    + eapply Forall_impl; [|exact Hne]. intros v Hv. left. exact Hv.
    + unfold emptyLine. destruct (Nat.eqb_spec (length para) 0) as [Hz|_];
        constructor; [|constructor].
      right. simpl. split; [reflexivity|]. split; [left; reflexivity|].
      right. exists c. rewrite Hz, Nat.add_0_r in Hnl. split; assumption.
    + eapply Forall_impl; [|exact Hrest]. intros v [Hv|(Hv & Hst & Hen)].
      * left. exact Hv.
      * right. split; [exact Hv|]. split; [|exact Hen].
        exact (startsAt_back s i (length para) c (start v) Hnl Hc Hst).
Qed.

(** X21. A visual line without text stands for an empty paragraph.  For
    every buffer and every width of at least one the wrap returns, and
    either the buffer has no character other than spaces and newlines and
    is shown as the single line
    [{lineNo: 1, text: empty, start: 0, end: 0}]; or every visual line
    either has a span that is not empty, or has an empty span that lies at
    the beginning of the buffer or just after a newline, and at which the
    buffer has a newline or its end. *)
Theorem empty_line_is_empty_paragraph buffer cols :
  1 <= cols ->
  exists vis,
    layoutWordWrapWithOffsets buffer cols = Some vis
    /\ ((vis = [fallbackLine] /\ inkOf buffer = [])
        \/ Forall (fun v =>
                     start v < end_ v
                     \/ (start v = end_ v
                         /\ (start v = 0
                             \/ exists c, nth_error buffer (start v - 1) = Some c
                                          /\ is_newline c = true)
                         /\ (start v = length buffer
                             \/ exists c, nth_error buffer (start v) = Some c
                                          /\ is_newline c = true))) vis).
Proof.
  intros Hcols.
  destruct (layout_ink buffer cols Hcols) as (vis & E & Hink).
  exists vis. split; [exact E|].
  rewrite layout_unfold in E.
  destruct (layoutParas_reasons cols buffer (S (length buffer)) 0 1 Hcols)
    as (out & E' & Hall); [lia | lia |].
  rewrite E' in E. injection E as <-.
  destruct out as [|v0 out]; simpl length; cbv iota.
  - left. split; [reflexivity|]. rewrite <- Hink. reflexivity.
  - right. simpl Nat.eqb. cbv iota.
    eapply Forall_impl; [|exact Hall].
    intros v [Hv|(Hv & [Hst|(_ & Hst)] & Hen)].
    + left. exact Hv.
    + right. split; [exact Hv|]. split; [left; exact Hst | exact Hen].
    + right. split; [exact Hv|]. split; [right; exact Hst | exact Hen].
Qed.

Lemma empty_line_is_empty_paragraph_witness :
  1 <= 10 /\ exists vis,
    layoutWordWrapWithOffsets (lit "ab" ++ "010"%char :: "010"%char :: lit "cd") 10
    = Some vis.
Proof.
  split; [lia|].
  destruct (empty_line_is_empty_paragraph
              (lit "ab" ++ "010"%char :: "010"%char :: lit "cd") 10)
    as (vis & E & _); [lia|].
  exists vis. exact E.
Defined.

(** ** An append leaves the lines above alone *)

Lemma span_app_sep (p : ascii -> bool) l c b :
  p c = false -> span p (l ++ c :: b) = span p l.
Proof.
  intros Hc. induction l as [|x l IH]; simpl.
  - rewrite Hc. reflexivity.
  - destruct (p x); [rewrite IH|]; reflexivity.
Qed.

Lemma prefix_newline a c b i :
  is_newline c = true -> i <= length a ->
  indexOfNewline (a ++ c :: b) i = indexOfNewline a i.
Proof.
  intros Hc Hi. unfold indexOfNewline, scan. f_equal.
  rewrite skipn_app. replace (i - length a) with 0 by lia. simpl skipn.
  apply span_app_sep. unfold not_newline. rewrite Hc. reflexivity.
Qed.

Lemma prefix_slice (a t : str) i e :
  e <= length a -> slice (a ++ t) i e = slice a i e.
Proof.
  intros He. unfold slice. rewrite skipn_app, firstn_app, length_skipn.
  replace (e - i - (length a - i)) with 0 by lia.
  rewrite firstn_0, app_nil_r. reflexivity.
Qed.

(** More rounds than are needed change nothing. *)
Lemma layoutParas_more cols s fuel :
  forall i ln out k,
    layoutParas cols s fuel i ln = Some out ->
    layoutParas cols s (fuel + k) i ln = Some out.
Proof.
  induction fuel as [|fuel IH]; intros i ln out k H; [discriminate|].
  change (S fuel + k) with (S (fuel + k)).
  rewrite layoutParas_unfold in *.
  destruct (i <=? length s); [|exact H]. cbv zeta in *.
  destruct (wrapPara cols i _ _ 0 ln) as [ls|]; [|discriminate].
  destruct (indexOfNewline s i =? length s); [exact H|].
  destruct (layoutParas cols s fuel _ _) as [rest|] eqn:E; [|discriminate].
  rewrite (IH _ _ _ k E). exact H.
Qed.

(** The lines of a buffer that goes on after a newline begin with the
    lines of what is before the newline. *)
Lemma layoutParas_prefix cols a c b :
  is_newline c = true ->
  forall fuel i ln X g R,
    i <= length a ->
    layoutParas cols a fuel i ln = Some X ->
    layoutParas cols (a ++ c :: b) g (length a + 1) (ln + length X) = Some R ->
    layoutParas cols (a ++ c :: b) (fuel + g) i ln = Some (X ++ R).
Proof.
  intros Hc. induction fuel as [|fuel IH]; intros i ln X g R Hi HX HR;
    [discriminate|].
  change (S fuel + g) with (S (fuel + g)).
  rewrite layoutParas_unfold in *.
  assert (Hlen : length (a ++ c :: b) = length a + S (length b))
    by (rewrite length_app; reflexivity).
  destruct (Nat.leb_spec i (length a)) as [_|H]; [|lia].
  destruct (Nat.leb_spec i (length (a ++ c :: b))) as [_|H]; [|lia].
  cbv zeta in *. rewrite (prefix_newline a c b i Hc Hi).
  pose proof (scan_le not_newline a Hi) as Hend.
  fold (indexOfNewline a i) in Hend.
  rewrite (prefix_slice a (c :: b) i (indexOfNewline a i) Hend).
  set (pEnd := indexOfNewline a i) in *.
  set (para := slice a i pEnd) in *.
  destruct (wrapPara cols i para (S (length para)) 0 ln) as [ls|];
    [|discriminate].
  set (emp := emptyLine para (ln + length ls) i) in *.
  destruct (Nat.eqb_spec pEnd (length (a ++ c :: b))) as [H|_]; [lia|].
  destruct (Nat.eqb_spec pEnd (length a)) as [Heq|Hne].
  - injection HX as <-. rewrite Heq.
    rewrite length_app, Nat.add_assoc in HR.
    rewrite Nat.add_comm, (layoutParas_more _ _ _ _ _ _ fuel HR).
    rewrite <- app_assoc. reflexivity.
  - destruct (layoutParas cols a fuel (pEnd + 1) (ln + length ls + length emp))
      as [rest|] eqn:E; [|discriminate].
    injection HX as <-.
    rewrite !length_app, !Nat.add_assoc in HR.
    assert (Hi' : pEnd + 1 <= length a) by lia.
    rewrite (IH _ _ rest g R Hi' E HR).
    rewrite <- !app_assoc. reflexivity.
Qed.

(** What is known of the lines of the paragraphs from [i] on. *)
Lemma layoutParas_tail cols s i ln :
  1 <= cols -> i <= length s ->
  exists out,
    layoutParas cols s (S (length s)) i ln = Some out
    /\ Forall (lineHasReason s i) out
    /\ Forall (fun v => i <= start v) out.
Proof.
  intros Hcols Hi.
  destruct (layoutParas_reasons cols s (S (length s)) i ln Hcols Hi)
    as (out & E & Hr); [lia|].
  destruct (layoutParas_greedy cols s (S (length s)) i ln Hcols Hi)
    as (out' & E' & _ & Hlow); [lia|].
  rewrite E in E'. injection E' as <-.
  exists out. repeat split; assumption.
Qed.

(** The layout after a paragraph is appended to a buffer that shows
    something: the lines there were, and then new ones. *)
Lemma append_layout old ins cols :
  1 <= cols -> ins <> [] ->
  (forall c r, ins = c :: r -> is_ws c = false) ->
  (forall r c, ins = r ++ [c] -> is_ws c = false) ->
  inkOf old <> [] ->
  exists beforeVis v0 rest,
    layoutWordWrapWithOffsets old cols = Some beforeVis
    /\ layoutWordWrapWithOffsets (old ++ "010"%char :: ins) cols
       = Some (beforeVis ++ v0 :: rest)
    /\ 1 <= length beforeVis
    /\ Forall (fun v => length old < start v) (v0 :: rest)
    /\ lineNo v0 = length beforeVis + 1
    /\ text v0 <> []
    /\ computeHighlightLinesByAbsRange (beforeVis ++ v0 :: rest)
         (length old + 1) (length old + 1 + length ins)
       = seq (length beforeVis + 1) (length (v0 :: rest)).
Proof.
  intros Hcols Hins Hfirst Hlast Hink.
  set (s := old ++ "010"%char :: ins).
  set (p := length old + 1).
  assert (Hold : 1 <= length old).
  { destruct old; [contradiction Hink; reflexivity | simpl; lia]. }
  assert (Hslen : length s = p + length ins).
  { unfold s, p. rewrite length_app. simpl. lia. }
  (* the lines before *)
  destruct (layout_ink old cols Hcols) as (beforeVis & Eb & Hbink).
  destruct (layout_spans old cols Hcols) as (bv & Eb' & Hbspans).
  rewrite Eb in Eb'. injection Eb' as <-.
  assert (EX : layoutParas cols old (S (length old)) 0 1 = Some beforeVis).
  { rewrite layout_unfold in Eb.
    destruct (layoutParas cols old (S (length old)) 0 1) as [X|]; [|discriminate].
    destruct X as [|x X]; [|exact Eb].
    simpl in Eb. injection Eb as <-. simpl in Hbink. congruence. }
  (* the lines after *)
  destruct (layoutParas_tail cols s p (1 + length beforeVis) Hcols)
    as (R & ER & Hreason & Hlow); [lia|].
  pose proof (layoutParas_prefix cols old "010"%char ins eq_refl
                (S (length old)) 0 1 beforeVis (S (length s)) R
                (Nat.le_0_l _) EX ER) as Eall.
  destruct (layout_facts s cols Hcols) as (afterVis & Ea & Hord & Haspans & Hcover).
  assert (Eafter : afterVis = beforeVis ++ R).
  { rewrite layout_unfold in Ea.
    destruct (layoutParas cols s (S (length s)) 0 1) as [out|] eqn:Eout;
      [|discriminate].
    pose proof (layoutParas_more _ _ _ _ _ _ (S (length old)) Eout) as Em.
    rewrite (Nat.add_comm (S (length s)) (S (length old))) in Em.
    assert (Hsame : Some out = Some (beforeVis ++ R))
      by (rewrite <- Em; exact Eall).
    injection Hsame as ->.
    destruct (beforeVis ++ R) as [|y Y] eqn:EY.
    - apply app_eq_nil in EY. destruct EY as [-> _].
      simpl in Hbink. congruence.
    - injection Ea as <-. reflexivity. }
  subst afterVis.
  apply Forall_app in Haspans. destruct Haspans as [_ HRspans].
  (* the ends of the appended text *)
  assert (Hhead : exists c0 r0, ins = c0 :: r0).
  { destruct ins as [|c0 r0]; [contradiction|]. exists c0, r0. reflexivity. }
  destruct Hhead as (c0 & r0 & Eins).
  destruct (exists_last Hins) as (r1 & c1 & E1).
  assert (Hc0 : is_ws c0 = false) by exact (Hfirst c0 r0 Eins).
  assert (Hc1 : is_ws c1 = false) by exact (Hlast r1 c1 E1).
  assert (Hat0 : nth_error s p = Some c0).
  { unfold s, p. rewrite Eins.
    change (old ++ "010"%char :: c0 :: r0)
      with (old ++ ["010"%char] ++ c0 :: r0).
    rewrite app_assoc.
    replace (length old + 1) with (length (old ++ ["010"%char]))
      by (rewrite length_app; reflexivity).
    apply nth_error_middle. }
  assert (Hat1 : nth_error s (length s - 1) = Some c1).
  { rewrite Hslen. unfold s, p. rewrite E1, length_app. simpl length.
    change (old ++ "010"%char :: r1 ++ [c1])
      with (old ++ ("010"%char :: r1) ++ [c1]).
    rewrite app_assoc.
    replace (length old + 1 + (length r1 + 1) - 1)
      with (length (old ++ "010"%char :: r1))
      by (rewrite length_app; simpl; lia).
    apply nth_error_middle. }
  assert (Hpos : 1 <= length ins) by (rewrite Eins; simpl; lia).
  assert (Hnot : forall c, is_ws c = false -> is_newline c = false).
  { intros c Hc. destruct (is_newline c) eqn:En; [|reflexivity].
    rewrite (newline_is_ws _ En) in Hc. discriminate. }
  (* a new line without text stands strictly inside the appended text *)
  assert (Hempty : forall v, In v R -> start v = end_ v ->
                             p < start v /\ start v < p + length ins).
  { intros v Hv Heq.
    rewrite Forall_forall in Hreason, Hlow, HRspans.
    specialize (Hlow v Hv). destruct (HRspans v Hv) as (_ & He & _).
    rewrite Hslen in He.
    destruct (Hreason v Hv) as [Hlt|(_ & Hst & Hen)]; [lia|].
    assert (Hp : p < start v).
    { destruct Hst as [Hst|[Hst _]]; [|exact Hst].
      destruct Hen as [Hen|(c & Hn & Hc)]; [lia|].
      rewrite Hst, Hat0 in Hn. injection Hn as <-.
      rewrite (Hnot _ Hc0) in Hc. discriminate. }
    split; [exact Hp|].
    destruct (Nat.eq_dec (start v) (p + length ins)) as [e|ne]; [|lia].
    destruct Hst as [Hst|(_ & c & Hn & Hc)]; [lia|].
    rewrite e, <- Hslen, Hat1 in Hn. injection Hn as <-.
    rewrite (Hnot _ Hc1) in Hc. discriminate. }
  assert (Hbefore : Forall (fun v => overlaps p (p + length ins) v = false)
                      beforeVis).
  { eapply Forall_impl; [|exact Hbspans]. intros v (_ & He & _).
    unfold overlaps. destruct (Nat.ltb_spec p (end_ v)) as [H|_];
      [unfold p in H; lia | apply andb_false_r]. }
  assert (Hnew : Forall (fun v => overlaps p (p + length ins) v = true) R).
  { apply Forall_forall. intros v Hv.
    pose proof (Hempty v Hv) as Hemp.
    rewrite Forall_forall in Hlow, HRspans.
    specialize (Hlow v Hv). destruct (HRspans v Hv) as (Hse & He & _).
    rewrite Hslen in He. unfold overlaps.
    assert (H : start v < p + length ins /\ p < end_ v).
    { destruct (Nat.eq_dec (start v) (end_ v)) as [e|ne]; [|lia].
      specialize (Hemp e). lia. }
    destruct H as [H1 H2]. apply Nat.ltb_lt in H1, H2. rewrite H1, H2.
    reflexivity. }
  destruct (Hcover p c0 Hat0 (ws_not_sep _ Hc0)) as (vc & Hvc & Hs1 & Hs2).
  assert (HvcR : In vc R).
  { apply in_app_or in Hvc. destruct Hvc as [Hv|Hv]; [|exact Hv].
    rewrite Forall_forall in Hbspans. destruct (Hbspans vc Hv) as (_ & He & _).
    unfold p in Hs2. lia. }
  destruct R as [|v0 rest]; [contradiction|].
  destruct (ordered_skip 0 1 beforeVis (v0 :: rest) Hord) as (lo' & Ho').
  assert (Hhl : computeHighlightLinesByAbsRange (beforeVis ++ v0 :: rest) p
                  (p + length ins)
                = seq (length beforeVis + 1) (length (v0 :: rest))).
  { rewrite computeHighlight_filter.
    replace (Nat.max p (p + length ins)) with (p + length ins) by lia.
    rewrite filter_app, (filter_drops _ _ Hbefore), (filter_keeps _ _ Hnew).
    simpl app.
    pose proof Ho' as Ho''. rewrite <- (app_nil_r (v0 :: rest)) in Ho''.
    rewrite (ordered_numbers lo' (1 + length beforeVis) (v0 :: rest) [] Ho'').
    f_equal. lia. }
  assert (Htext : text v0 <> []).
  { intros Et.
    rewrite Forall_forall in HRspans.
    destruct (HRspans v0 (or_introl eq_refl)) as (_ & _ & _ & _ & Hiff).
    apply Hiff in Et.
    destruct (Hempty v0 (or_introl eq_refl) Et) as [Hp _].
    destruct HvcR as [<-|Hin]; [lia|].
    destruct Ho' as (_ & _ & _ & Ho').
    pose proof (ordered_start _ _ _ Ho') as Hst. rewrite Forall_forall in Hst.
    specialize (Hst vc Hin). lia. }
  exists beforeVis, v0, rest.
  split; [exact Eb|]. split; [exact Ea|].
  split; [exact (@layout_nonempty _ _ _ Eb)|]. split.
  { eapply Forall_impl; [|exact Hlow]. intros v Hv. unfold p in Hv.
    simpl in Hv. lia. }
  split; [destruct Ho' as (Hn & _); lia|].
  split; [exact Htext | exact Hhl].
Qed.

(** X22. An append to a buffer that shows something and does not end in
    a newline leaves every visual line as it was.  On a kernel whose width
    is at least one, with [ensureNewParagraph] set and a text that is not
    blank, the visual lines after the append are the visual lines before
    it followed by at least one new line; the new lines all begin after
    the newline that the append puts in; and the highlighted lines are
    exactly the new ones. *)
Theorem append_keeps_lines paper text :
  1 <= Paper.cols paper ->
  isEmpty (trim text) = false ->
  endsWithNewline (Paper.text paper) = false ->
  inkOf (Paper.text paper) <> [] ->
  exists beforeVis newLines r paper',
    getVisualLines paper = Some beforeVis
    /\ write_append text true paper = Some (r, paper')
    /\ getVisualLines paper' = Some (beforeVis ++ newLines)
    /\ 1 <= length newLines
    /\ Forall (fun v => length (Paper.text paper) < start v) newLines
    /\ AppendResult.highlightLines r
       = Some (seq (length beforeVis + 1) (length newLines)).
Proof.
  intros Hcols Hq Hnl Hink.
  set (old := Paper.text paper) in *.
  set (ins := trim text) in *.
  assert (Hins : ins <> []) by (destruct ins; [discriminate | discriminate]).
  destruct (append_layout old ins (Paper.cols paper) Hcols Hins)
    as (beforeVis & v0 & rest & Eb & Ea & _ & Hlow & _ & _ & Hhl).
  { intros c r. apply trim_head. }
  { intros r c. apply trim_last. }
  { exact Hink. }
  assert (Hold : 1 <= length old).
  { destruct old; [contradiction Hink; reflexivity | simpl; lia]. }
  assert (HNL : true && (0 <? length old) && negb (endsWithNewline old) = true).
  { rewrite Hnl. destruct (Nat.ltb_spec 0 (length old)) as [_|H]; [reflexivity|lia]. }
  exists beforeVis, (v0 :: rest). eexists. eexists.
  split; [exact Eb|]. split.
  { unfold write_append. unfold getVisualLines at 1. fold old.
    rewrite Eb. fold ins. rewrite Hq. cbv zeta. fold old. rewrite HNL.
    set (paper1 := {| Paper.cols := _; Paper.rev := _;
                      Paper.text := _; Paper.diff := Paper.diff paper |}).
    assert (E1' : getVisualLines paper1 = Some (beforeVis ++ v0 :: rest))
      by exact Ea.
    rewrite E1'. unfold _setDiff. rewrite E1'. rewrite Hhl. reflexivity. }
  split; [exact Ea|]. split; [simpl; lia|]. split; [exact Hlow | reflexivity].
Qed.

Lemma append_keeps_lines_witness :
  exists beforeVis newLines r paper',
    getVisualLines (seed (lit "one two") (createPaperKernel defaultCols))
    = Some beforeVis
    /\ write_append (lit " three ") true
         (seed (lit "one two") (createPaperKernel defaultCols))
       = Some (r, paper')
    /\ getVisualLines paper' = Some (beforeVis ++ newLines)
    /\ AppendResult.highlightLines r
       = Some (seq (length beforeVis + 1) (length newLines)).
Proof.
  destruct (append_keeps_lines
              (seed (lit "one two") (createPaperKernel defaultCols))
              (lit " three "))
    as (beforeVis & newLines & r & paper' & E & W & A & _ & _ & H).
  - simpl. unfold defaultCols. lia.
  - reflexivity.
  - reflexivity.
  - discriminate.
  - exists beforeVis, newLines, r, paper'.
    split; [exact E|]. split; [exact W|]. split; [exact A | exact H].
Defined.

(** ** Writing a text that is already normal *)

Lemma trimStart_fixed l :
  match l with [] => True | c :: _ => is_ws c = false end -> trimStart l = l.
Proof. destruct l as [|c l]; simpl; [reflexivity|]. intros ->. reflexivity. Qed.

Lemma trimEnd_fixed l :
  match rev l with [] => True | c :: _ => is_ws c = false end -> trimEnd l = l.
Proof.
  intros H. unfold trimEnd. rewrite (trimStart_fixed _ H). apply rev_involutive.
Qed.

Lemma collapseFrom_fixed l :
  forall inRun,
    Forall (fun c => is_ws c = false \/ c = " "%char) l ->
    singleSpaced l = true ->
    (inRun = true -> match l with [] => True | c :: _ => is_ws c = false end) ->
    collapseFrom inRun l = l.
Proof.
  induction l as [|c l IH]; intros inRun Hall Hs Hrun; [reflexivity|].
  inversion Hall as [|? ? Hc Hl]; subst.
  assert (Hs' : singleSpaced l = true).
  { destruct l as [|d l']; [reflexivity|].
    change (negb (is_space c && is_space d) && singleSpaced (d :: l') = true) in Hs.
    apply andb_true_iff in Hs. apply Hs. }
  simpl. destruct (is_ws c) eqn:Ec.
  - destruct Hc as [Hc|Hc]; [discriminate|]. subst c.
    destruct inRun; [specialize (Hrun eq_refl); simpl in Hrun; discriminate|].
    f_equal. apply IH; [exact Hl | exact Hs' |]. intros _.
    destruct l as [|d l']; [exact I|].
    change (negb (is_space " "%char && is_space d) && singleSpaced (d :: l') = true)
      in Hs.
    apply andb_true_iff in Hs. destruct Hs as [Hd _].
    inversion Hl as [|? ? Hd' _]; subst.
    destruct Hd' as [Hd'|Hd']; [exact Hd'|]. subst d. discriminate.
  - f_equal. apply IH; [exact Hl | exact Hs' |]. intros H. discriminate.
Qed.

(** X23. Making a text normal a second time changes nothing, and so
    [write_replace] and [_writeReplaceInternal] do with the normal form of
    a text exactly what they do with the text: the text that a replace has
    written can be written again as it is. *)
Theorem normal_text_is_kept newText :
  trim (collapseWs (trim (collapseWs newText))) = trim (collapseWs newText)
  /\ forall anchorLine paper,
       write_replace anchorLine (trim (collapseWs newText)) paper
       = write_replace anchorLine newText paper.
Proof.
  assert (H : trim (collapseWs (trim (collapseWs newText)))
              = trim (collapseWs newText)).
  { destruct (normalised_shape newText) as (Hall & Hs & Hhead & Hlast & _).
    cbv zeta in *. set (rep := trim (collapseWs newText)) in *.
    unfold collapseWs at 1.
    rewrite (collapseFrom_fixed rep false Hall Hs) by (intros E; discriminate).
    unfold trim. rewrite (trimStart_fixed rep Hhead). apply trimEnd_fixed.
    exact Hlast. }
  split; [exact H|].
  intros anchorLine paper. unfold write_replace, _writeReplaceInternal.
  rewrite H. reflexivity.
Qed.

(** ** Changing the width *)

Lemma layout_content buffer cols :
  1 <= cols ->
  exists vis,
    layoutWordWrapWithOffsets buffer cols = Some vis
    /\ Forall (fun v => length (text v) <= cols) vis
    /\ renderedInk vis = inkOf buffer
    /\ (Forall (fun w => length w <= cols) (bufferWords buffer) ->
        renderedWords vis = bufferWords buffer).
Proof.
  intros Hcols. rewrite layout_unfold.
  destruct (@layoutParas_shows cols buffer (S (length buffer)) 0 1 Hcols)
    as (out & E & T & I & W); [lia | lia |].
  rewrite E. simpl in I, W. eexists. split; [reflexivity|].
  destruct out as [|v out]; simpl length; cbv iota.
  - split; [repeat constructor; simpl; lia|]. split; [exact I | exact W].
  - simpl Nat.eqb. cbv iota. split; [exact T|]. split; [exact I | exact W].
Qed.

Lemma setCols_positive n paper :
  1 <= Paper.cols paper -> 1 <= Paper.cols (setCols n paper).
Proof.
  intros H. unfold setCols. destruct n as [q| | |]; try exact H.
  destruct (Qle_bool 10 q) eqn:E1; simpl; [|exact H].
  destruct (Qle_bool q 120); simpl; [|exact H].
  apply Qle_bool_iff in E1. apply Qfloor_resp_le in E1.
  change (Qfloor 10) with 10%Z in E1. lia.
Qed.

(** X24. Changing the width changes where the lines break and nothing
    else.  On a kernel whose width is at least one, after [setCols] with
    any number the width is still at least one, so the wrap returns; the
    buffer, the revision and the diff record are as before; no line is
    longer than the width now in force; the characters other than spaces
    shown by the lines are the same, in the same order; and so are the
    words shown, when no word of the buffer is longer than either width. *)
Theorem setCols_keeps_content paper n :
  1 <= Paper.cols paper ->
  exists vis vis',
    getVisualLines paper = Some vis
    /\ getVisualLines (setCols n paper) = Some vis'
    /\ 1 <= Paper.cols (setCols n paper)
    /\ Paper.text (setCols n paper) = Paper.text paper
    /\ Paper.rev (setCols n paper) = Paper.rev paper
    /\ Paper.diff (setCols n paper) = Paper.diff paper
    /\ Forall (fun v => length (text v) <= Paper.cols (setCols n paper)) vis'
    /\ renderedInk vis' = renderedInk vis
    /\ (Forall (fun w => length w <= Paper.cols paper
                         /\ length w <= Paper.cols (setCols n paper))
               (bufferWords (Paper.text paper)) ->
        renderedWords vis' = renderedWords vis).
Proof.
  intros Hcols.
  pose proof (setCols_positive n paper Hcols) as Hcols'.
  assert (Ht : Paper.text (setCols n paper) = Paper.text paper).
  { unfold setCols. destruct n as [q| | |]; try reflexivity.
    destruct (Qle_bool 10 q && Qle_bool q 120); reflexivity. }
  assert (Hr : Paper.rev (setCols n paper) = Paper.rev paper).
  { unfold setCols. destruct n as [q| | |]; try reflexivity.
    destruct (Qle_bool 10 q && Qle_bool q 120); reflexivity. }
  assert (Hd : Paper.diff (setCols n paper) = Paper.diff paper).
  { unfold setCols. destruct n as [q| | |]; try reflexivity.
    destruct (Qle_bool 10 q && Qle_bool q 120); reflexivity. }
  destruct (layout_content (Paper.text paper) (Paper.cols paper) Hcols)
    as (vis & E & _ & I & W).
  destruct (layout_content (Paper.text (setCols n paper))
              (Paper.cols (setCols n paper)) Hcols')
    as (vis' & E' & T' & I' & W').
  exists vis, vis'. split; [exact E|]. split; [exact E'|].
  split; [exact Hcols'|]. split; [exact Ht|]. split; [exact Hr|].
  split; [exact Hd|]. split; [exact T'|]. rewrite Ht in I', W'.
  split; [rewrite I, I'; reflexivity|].
  intros Hfit. rewrite W, W'; [reflexivity | |].
  - eapply Forall_impl; [|exact Hfit]. intros w Hw. apply Hw.
  - eapply Forall_impl; [|exact Hfit]. intros w Hw. apply Hw.
Qed.

Lemma setCols_keeps_content_witness :
  exists vis vis',
    getVisualLines (seed (lit "hello world") (createPaperKernel defaultCols))
    = Some vis
    /\ getVisualLines
         (setCols (Fin 10) (seed (lit "hello world") (createPaperKernel defaultCols)))
       = Some vis'
    /\ renderedInk vis' = renderedInk vis.
Proof.
  destruct (setCols_keeps_content
              (seed (lit "hello world") (createPaperKernel defaultCols)) (Fin 10))
    as (vis & vis' & E & E' & _ & _ & _ & _ & _ & I & _).
  - simpl. unfold defaultCols. lia.
  - exists vis, vis'. split; [exact E|]. split; [exact E' | exact I].
Defined.

(** ** What is shown after a replace *)

(** Ordered lines whose spans hold all the ink from [lo] on hold it span
    by span. *)
Lemma spanInk_all s vis :
  forall lo n, ordered lo n vis ->
    length (inkOf (skipn lo s)) <= length (spanInk s vis) ->
    spanInk s vis = inkOf (skipn lo s).
Proof.
  induction vis as [|v vis IH]; intros lo n Ho Hlen.
  - simpl in *. destruct (inkOf (skipn lo s)); [reflexivity | simpl in Hlen; lia].
  - destruct Ho as (_ & H1 & H2 & Ho).
    pose proof (spanInk_bound s vis _ _ Ho) as Hb.
    simpl in Hlen. rewrite length_app in Hlen. fold (spanInk s vis) in Hlen.
    rewrite (tail_ink s lo (start v) (end_ v) H1 H2) in Hlen.
    rewrite (skipn_slice s lo (start v) H1), (skipn_slice s (start v) (end_ v) H2).
    rewrite !inkOf_app.
    assert (Hgap : inkOf (slice s lo (start v)) = []).
    { destruct (inkOf (slice s lo (start v))); [reflexivity | simpl in Hlen; lia]. }
    rewrite Hgap. simpl. fold (spanInk s vis). f_equal.
    apply (IH _ _ Ho). lia.
Qed.

Lemma spanInk_split s pre v post :
  forall lo n, ordered lo n (pre ++ v :: post) ->
    length (inkOf (skipn lo s)) <= length (spanInk s (pre ++ v :: post)) ->
    inkOf (slice s lo (start v)) = spanInk s pre
    /\ inkOf (skipn (end_ v) s) = spanInk s post.
Proof.
  induction pre as [|x pre IH]; intros lo n Ho Hlen.
  - simpl app in *. destruct Ho as (_ & H1 & H2 & Ho).
    pose proof (spanInk_bound s post _ _ Ho) as Hb.
    simpl in Hlen. rewrite length_app in Hlen. fold (spanInk s post) in Hlen.
    rewrite (tail_ink s lo (start v) (end_ v) H1 H2) in Hlen.
    split.
    + destruct (inkOf (slice s lo (start v))); [reflexivity | simpl in Hlen; lia].
    + symmetry. apply (spanInk_all s post _ _ Ho). lia.
  - simpl app in Ho, Hlen. destruct Ho as (_ & H1 & H2 & Ho).
    pose proof (spanInk_bound s (pre ++ v :: post) _ _ Ho) as Hb.
    simpl in Hlen. rewrite length_app in Hlen.
    fold (spanInk s (pre ++ v :: post)) in Hlen.
    rewrite (tail_ink s lo (start x) (end_ x) H1 H2) in Hlen.
    destruct (IH _ _ Ho ltac:(lia)) as [Hpre Hpost].
    split; [|exact Hpost].
    assert (Hxv : end_ x <= start v).
    { pose proof (ordered_start _ _ _ Ho) as Hst. rewrite Forall_forall in Hst.
      apply Hst. apply in_or_app. right. left. reflexivity. }
    rewrite (slice_app s lo (start x) (start v)) by lia.
    rewrite (slice_app s (start x) (end_ x) (start v)) by lia.
    rewrite !inkOf_app, Hpre.
    assert (Hgap : inkOf (slice s lo (start x)) = []).
    { destruct (inkOf (slice s lo (start x))); [reflexivity | simpl in Hlen; lia]. }
    rewrite Hgap. reflexivity.
Qed.

Lemma renderedInk_app a b : renderedInk (a ++ b) = renderedInk a ++ renderedInk b.
Proof. unfold renderedInk. apply flat_map_app. Qed.

(** The ink of a text made normal is what can be seen of the text. *)
Lemma normalised_ink newText :
  inkOf (trim (collapseWs newText)) = visible newText.
Proof.
  destruct (normalised_shape newText) as (Hall & _ & _ & _ & Hvis).
  cbv zeta in *. rewrite <- Hvis. unfold inkOf, visible.
  apply filter_ext_in. intros c Hc.
  rewrite Forall_forall in Hall. destruct (Hall c Hc) as [H| ->].
  - rewrite H, (ws_not_sep _ H). reflexivity.
  - reflexivity.
Qed.

(** The ink before and after a line of a layout. *)
Lemma layout_ink_around buffer cols vis pre v post :
  1 <= cols ->
  layoutWordWrapWithOffsets buffer cols = Some vis ->
  vis = pre ++ v :: post ->
  inkOf (firstn (start v) buffer) = renderedInk pre
  /\ inkOf (skipn (end_ v) buffer) = renderedInk post.
Proof.
  intros Hcols E ->.
  destruct (layout_ordered buffer Hcols) as (vis1 & E1 & Ho).
  destruct (layout_spans buffer cols Hcols) as (vis2 & E2 & Hs).
  destruct (layout_ink buffer cols Hcols) as (vis3 & E3 & Hi).
  rewrite E in E1, E2, E3. injection E1 as <-. injection E2 as <-.
  injection E3 as <-.
  destruct (spanInk_split buffer pre v post 0 1 Ho) as [Hpre Hpost].
  { rewrite <- (renderedInk_spans buffer _ Hs), Hi. simpl. lia. }
  apply Forall_app in Hs. destruct Hs as [Hs1 Hs2].
  inversion Hs2 as [|? ? _ Hs3]; subst.
  rewrite (renderedInk_spans buffer pre Hs1), (renderedInk_spans buffer post Hs3).
  unfold slice in Hpre. rewrite Nat.sub_0_r in Hpre. simpl skipn in Hpre.
  split; assumption.
Qed.

(** X25. A replace changes what one line shows and nothing else.  On a
    kernel whose width is at least one, [write_replace] at a whole line
    number addresses a visual line; afterwards the characters other than
    spaces shown by the visual lines are those shown by the lines before
    the addressed one, then the characters of the new text that are not
    white space, then those shown by the lines after it - however the
    lines may break now.  [clear_line] does the same with no new text: what
    the other lines showed is still shown, in order, and nothing else. *)
Theorem replace_rewrites_one_line paper z newText :
  1 <= Paper.cols paper ->
  exists vis pre target post,
    getVisualLines paper = Some vis
    /\ vis = pre ++ target :: post
    /\ length pre = Z.to_nat (clampLineZ 1 1 z (Z.of_nat (length vis))) - 1
    /\ (exists r paper' afterVis,
          write_replace (Fin (inject_Z z)) newText paper = Some (r, paper')
          /\ getVisualLines paper' = Some afterVis
          /\ renderedInk afterVis
             = renderedInk pre ++ visible newText ++ renderedInk post)
    /\ (exists r paper' afterVis,
          clear_line (Fin (inject_Z z)) paper = Some (r, paper')
          /\ getVisualLines paper' = Some afterVis
          /\ ReplaceResult.removedLines r = Some [text target]
          /\ renderedInk afterVis = renderedInk pre ++ renderedInk post).
Proof.
  intros Hcols.
  destruct (getVisualLines_returns paper Hcols) as (vis & E & _).
  assert (Hboth : forall nt,
             exists target afterVis,
               nth_error vis (Z.to_nat (clampLineZ 1 1 z (Z.of_nat (length vis))) - 1)
               = Some target
               /\ layoutWordWrapWithOffsets
                    (firstn (start target) (Paper.text paper)
                     ++ trim (collapseWs nt)
                     ++ skipn (end_ target) (Paper.text paper))
                    (Paper.cols paper) = Some afterVis
               /\ renderedInk afterVis
                  = inkOf (firstn (start target) (Paper.text paper))
                    ++ visible nt
                    ++ inkOf (skipn (end_ target) (Paper.text paper))).
  { intros nt.
    destruct (writeReplace_after paper vis z nt Hcols E)
      as (target & afterVis & annot & Ht & E1 & _).
    exists target, afterVis. split; [exact Ht|]. split; [exact E1|].
    destruct (layout_ink (firstn (start target) (Paper.text paper)
                          ++ trim (collapseWs nt)
                          ++ skipn (end_ target) (Paper.text paper))
                (Paper.cols paper) Hcols) as (av & E2 & Hi).
    rewrite E1 in E2. injection E2 as <-.
    rewrite Hi, !inkOf_app, normalised_ink. reflexivity. }
  destruct (writeReplace_after paper vis z newText Hcols E)
    as (target & afterVis & annot & Ht & E1 & Hw).
  destruct (nth_error_split vis _ Ht) as (pre & post & Hvis & Hlen).
  destruct (layout_ink_around (Paper.text paper) (Paper.cols paper) vis pre target
              post Hcols E Hvis) as [Hpre Hpost].
  exists vis, pre, target, post.
  split; [exact E|]. split; [exact Hvis|]. split; [exact Hlen|]. split.
  - destruct (Hboth newText) as (t' & av & Ht' & Ea & Hink).
    rewrite Ht in Ht'. injection Ht' as <-.
    rewrite E1 in Ea. injection Ea as <-.
    unfold write_replace. rewrite Hw. eexists. eexists. exists afterVis.
    split; [reflexivity|]. split; [exact E1|].
    rewrite Hink, Hpre, Hpost. reflexivity.
  - destruct (writeReplace_after paper vis z [] Hcols E)
      as (t' & av & an & Ht' & Ea & Hw').
    rewrite Ht in Ht'. injection Ht' as <-.
    destruct (Hboth []) as (t'' & av' & Ht'' & Ea' & Hink).
    rewrite Ht in Ht''. injection Ht'' as <-.
    rewrite Ea in Ea'. injection Ea' as <-.
    unfold clear_line. rewrite Hw'. eexists. eexists. exists av.
    split; [reflexivity|]. split; [exact Ea|]. split; [reflexivity|].
    rewrite Hink, Hpre, Hpost. reflexivity.
Qed.

Lemma replace_rewrites_one_line_witness :
  exists vis pre target post,
    getVisualLines (seed (lit "one two") (createPaperKernel defaultCols)) = Some vis
    /\ vis = pre ++ target :: post.
Proof.
  destruct (replace_rewrites_one_line
              (seed (lit "one two") (createPaperKernel defaultCols)) 1
              (lit "three   four"))
    as (vis & pre & target & post & E & Hv & _).
  - simpl. unfold defaultCols. lia.
  - exists vis, pre, target, post. split; [exact E | exact Hv].
Defined.

(** ** What is shown after an append *)

Lemma words_app_newline a b :
  bufferWords (a ++ "010"%char :: b) = bufferWords a ++ bufferWords b.
Proof. unfold bufferWords. apply words_app_sep. reflexivity. Qed.

(** X26. An append adds to what is shown and takes nothing away.  On a
    kernel whose width is at least one, after [write_append] with a text
    that is not blank the characters other than spaces shown by the visual
    lines are those shown before followed by those of the trimmed text;
    and with [ensureNewParagraph] set the words of the buffer are the words
    it had followed by the words of the trimmed text: the text is not
    joined to the last word of the buffer. *)
Theorem append_adds_to_what_is_shown paper text ensureNewParagraph :
  1 <= Paper.cols paper ->
  isEmpty (trim text) = false ->
  exists beforeVis afterVis r paper',
    getVisualLines paper = Some beforeVis
    /\ write_append text ensureNewParagraph paper = Some (r, paper')
    /\ getVisualLines paper' = Some afterVis
    /\ renderedInk afterVis = renderedInk beforeVis ++ inkOf (trim text)
    /\ (ensureNewParagraph = true ->
        bufferWords (Paper.text paper')
        = bufferWords (Paper.text paper) ++ bufferWords (trim text)).
Proof.
  intros Hcols Hq.
  destruct (layout_ink (Paper.text paper) (Paper.cols paper) Hcols)
    as (beforeVis & E & Hi).
  set (old := Paper.text paper) in *.
  set (needsNL := ensureNewParagraph && (0 <? length old)
                  && negb (endsWithNewline old)).
  set (sep := if needsNL then ["010"%char] else []).
  set (ins := trim text) in *.
  destruct (layout_ink (old ++ sep ++ ins) (Paper.cols paper) Hcols)
    as (afterVis & E1 & Hi1).
  exists beforeVis, afterVis. eexists. eexists.
  split; [exact E|]. split.
  { unfold write_append. unfold getVisualLines at 1. fold old. rewrite E.
    fold ins. rewrite Hq. cbv zeta. fold old. fold needsNL. fold sep.
    set (paper1 := {| Paper.cols := _; Paper.rev := _;
                      Paper.text := _; Paper.diff := Paper.diff paper |}).
    assert (E1' : getVisualLines paper1 = Some afterVis) by exact E1.
    rewrite E1'. unfold _setDiff. rewrite E1'. reflexivity. }
  split; [exact E1|]. split.
  - rewrite Hi1, Hi, !inkOf_app.
    assert (Hsep : inkOf sep = []) by (unfold sep; destruct needsNL; reflexivity).
    rewrite Hsep. reflexivity.
  - intros ->. cbn [Paper.text]. fold old. fold sep.
    unfold sep, needsNL. simpl andb.
    destruct (Nat.ltb_spec 0 (length old)) as [Hpos|Hzero].
    + destruct (endsWithNewline old) eqn:En; simpl negb; cbv iota.
      * unfold endsWithNewline in En.
        destruct (rev old) as [|c r] eqn:Er; [discriminate|].
        apply (f_equal (@rev ascii)) in Er. rewrite rev_involutive in Er.
        simpl in Er. unfold is_newline in En. apply Ascii.eqb_eq in En. subst c.
        rewrite Er. simpl app. rewrite <- app_assoc. simpl app.
        rewrite words_app_newline, (words_app_newline (rev r) []).
        rewrite app_nil_r. reflexivity.
      * simpl app. apply words_app_newline.
    + destruct old; [reflexivity | simpl in Hzero; lia].
Qed.

Lemma append_adds_to_what_is_shown_witness :
  exists beforeVis afterVis r paper',
    getVisualLines (seed (lit "one two") (createPaperKernel defaultCols))
    = Some beforeVis
    /\ write_append (lit " three ") true
         (seed (lit "one two") (createPaperKernel defaultCols))
       = Some (r, paper')
    /\ getVisualLines paper' = Some afterVis
    /\ renderedInk afterVis = renderedInk beforeVis ++ lit "three".
Proof.
  destruct (append_adds_to_what_is_shown
              (seed (lit "one two") (createPaperKernel defaultCols))
              (lit " three ") true)
    as (beforeVis & afterVis & r & paper' & E & W & A & I & _).
  - simpl. unfold defaultCols. lia.
  - reflexivity.
  - exists beforeVis, afterVis, r, paper'.
    split; [exact E|]. split; [exact W|]. split; [exact A | exact I].
Defined.

(** ** What a range clears is what it reports *)

(** Clearing a line takes the ink of that line out of the buffer. *)
Lemma clear_step_ink paper vis k target :
  1 <= Paper.cols paper ->
  getVisualLines paper = Some vis ->
  nth_error vis k = Some target ->
  Permutation (inkOf (Paper.text paper))
    (inkOf (firstn (start target) (Paper.text paper) ++ []
            ++ skipn (end_ target) (Paper.text paper))
     ++ filter not_space (text target)).
Proof.
  intros Hcols E Ht.
  destruct (nth_error_split vis k Ht) as (pre & post & Hvis & _).
  destruct (layout_ink_around (Paper.text paper) (Paper.cols paper) vis pre target
              post Hcols E Hvis) as [Hpre Hpost].
  destruct (layout_ink (Paper.text paper) (Paper.cols paper) Hcols)
    as (vis' & E' & Hi).
  unfold getVisualLines in E. rewrite E in E'. injection E' as <-.
  rewrite <- Hi, Hvis, renderedInk_app.
  change (renderedInk (target :: post))
    with (filter not_space (text target) ++ renderedInk post).
  cbn [app]. rewrite inkOf_app, Hpre, Hpost, <- app_assoc.
  apply Permutation_app_head. apply Permutation_app_comm.
Qed.

Lemma clearLoop_ink k :
  forall fuel lz sz removed applied paper,
    1 <= Paper.cols paper -> (1 <= sz)%Z ->
    (lz = sz + Z.of_nat k - 1)%Z -> k < fuel ->
    exists removed' applied' paper',
      clearLoop fuel (Fin (inject_Z lz)) (Fin (inject_Z sz)) removed applied paper
      = Some ((removed', applied'), paper')
      /\ Permutation
           (inkOf (Paper.text paper) ++ flat_map (filter not_space) removed)
           (inkOf (Paper.text paper') ++ flat_map (filter not_space) removed').
Proof.
  induction k as [|k IH]; intros fuel lz sz removed applied paper Hcols Hs Hl Hf.
  - destruct fuel as [|fuel]; [lia|]. cbn [clearLoop].
    rewrite jsgeb_int. destruct (Z.leb_spec sz lz) as [H|_]; [lia|].
    exists removed, applied, paper. split; [reflexivity|]. apply Permutation_refl.
  - destruct fuel as [|fuel]; [lia|]. cbn [clearLoop].
    rewrite jsgeb_int. destruct (Z.leb_spec sz lz) as [_|H]; [|lia].
    destruct (getVisualLines_returns paper Hcols) as (vis & E & Hlen).
    rewrite E.
    destruct (writeReplace_whole paper vis lz [] Hcols E)
      as (target & afterVis & annot & Ht & Hw).
    rewrite Hw, jssub_int, clear_reads_target, Ht by lia.
    pose proof (clear_step_ink paper vis _ target Hcols E Ht) as Hstep.
    match goal with
    | |- context [clearLoop fuel _ _ ?rm ?ap ?p1] =>
        destruct (IH fuel (lz - 1)%Z sz rm ap p1) as
          (removed' & applied' & paper' & Hrun & Hperm)
    end.
    + exact Hcols.
    + exact Hs.
    + lia.
    + lia.
    + exists removed', applied', paper'. split; [exact Hrun|].
      cbn [Paper.text flat_map] in Hperm.
      change (trim (collapseWs [])) with (@nil ascii) in Hperm.
      eapply Permutation_trans; [|exact Hperm].
      rewrite app_assoc. apply Permutation_app_tail. exact Hstep.
Qed.

(** X27. What a range clears is what it reports.  On a kernel whose
    width is at least one, [clear_range] with whole bounds returns, and the
    characters other than spaces and newlines of the buffer before it are,
    counted with their repetitions, those of the buffer after it together
    with those of the removed lines that it reports: every character that
    is lost is in [removedLines], and nothing is reported that was not
    there. *)
Theorem clear_range_accounts paper a b :
  1 <= Paper.cols paper ->
  exists r paper',
    clear_range (Fin (inject_Z a)) (Fin (inject_Z b)) paper = Some (r, paper')
    /\ Permutation
         (inkOf (Paper.text paper))
         (inkOf (Paper.text paper')
          ++ flat_map (filter not_space) (ClearRangeResult.removedLines r)).
Proof.
  intros Hcols.
  destruct (getVisualLines_returns paper Hcols) as (vis & E & Hlen).
  unfold clear_range. rewrite E. cbv zeta.
  change (Fin 1) with (Fin (inject_Z 1)).
  rewrite (clamp_int 1 1 a (length vis)).
  set (ca := clampLineZ 1 1 a (Z.of_nat (length vis))).
  rewrite (clamp_int 1 ca b (length vis)).
  set (cb := clampLineZ 1 ca b (Z.of_nat (length vis))).
  assert (Hca : (1 <= ca <= Z.of_nat (length vis))%Z)
    by (unfold ca; apply clamp_in_range; lia).
  assert (Hcb : (1 <= cb <= Z.of_nat (length vis))%Z).
  { unfold cb, clampLineZ. destruct (b =? 0)%Z; lia. }
  rewrite jsltb_int.
  assert (Hs : (if (cb <? ca)%Z then Fin (inject_Z cb) else Fin (inject_Z ca))
               = Fin (inject_Z (Z.min ca cb))).
  { destruct (Z.ltb_spec cb ca); do 2 f_equal; lia. }
  assert (He : (if (cb <? ca)%Z then Fin (inject_Z ca) else Fin (inject_Z cb))
               = Fin (inject_Z (Z.max ca cb))).
  { destruct (Z.ltb_spec cb ca); do 2 f_equal; lia. }
  rewrite Hs, He.
  destruct (clearLoop_ink (Z.to_nat (Z.max ca cb - Z.min ca cb + 1))
              (S (length vis)) (Z.max ca cb) (Z.min ca cb) [] [] paper)
    as (removed & applied & paper1 & Hrun & Hperm);
    [exact Hcols | lia | lia | lia |].
  rewrite Hrun.
  assert (Hcols1 : 1 <= Paper.cols paper1).
  { destruct (clearLoop_runs (Z.to_nat (Z.max ca cb - Z.min ca cb + 1))
                (S (length vis)) (Z.max ca cb) (Z.min ca cb) [] [] paper)
      as (rm & ap & p1 & Hrun' & _ & _ & _ & Hc & _);
      [exact Hcols | lia | lia | lia | reflexivity |].
    rewrite Hrun in Hrun'. injection Hrun' as _ _ <-. rewrite Hc. exact Hcols. }
  destruct (getVisualLines_returns paper1 Hcols1) as (afterVis & E1 & _).
  unfold _setDiff. rewrite E1.
  eexists. eexists. split; [reflexivity|]. cbn [Paper.text ClearRangeResult.removedLines].
  simpl flat_map in Hperm. rewrite app_nil_r in Hperm. exact Hperm.
Qed.

Lemma clear_range_accounts_witness :
  exists r paper',
    clear_range (Fin (inject_Z 2)) (Fin (inject_Z 1))
      (seed (lit "a bbbbbbbbbb c") (setCols (Fin 10) (createPaperKernel defaultCols)))
    = Some (r, paper').
Proof.
  destruct (clear_range_accounts
              (seed (lit "a bbbbbbbbbb c")
                 (setCols (Fin 10) (createPaperKernel defaultCols))) 2 1)
    as (r & paper' & E & _).
  - simpl. lia.
  - exists r, paper'. exact E.
Defined.

(** ** The preview after an append *)

(** A row of the window of [buildAnnotWindow]. *)
Lemma window_row (afterVis : list VisualLine) w highlightSet i v :
  (1 <= w)%Z -> i < 45 ->
  nth_error afterVis (Z.to_nat w - 1 + i) = Some v ->
  nth_error
    (Annot.htmlLines (buildAnnotWindow afterVis (Fin (inject_Z w)) 45 highlightSet))
    i
  = Some (if isEmpty (text v) then []
          else if existsb (Nat.eqb (lineNo v)) highlightSet
               then lit "<span class=" ++ dquote :: lit "newLineFull"
                    ++ dquote :: lit ">" ++ escHtml (text v) ++ lit "</span>"
               else escHtml (text v)).
Proof.
  intros Hw Hi Hv. unfold buildAnnotWindow. cbn [Annot.htmlLines].
  change 45%Q with (inject_Z 45). rewrite window_slice by lia.
  change (Z.to_nat 45) with 45.
  rewrite nth_error_map, nth_error_firstn.
  destruct (Nat.ltb_spec i 45) as [_|H]; [|lia].
  rewrite nth_error_skipn, Hv. reflexivity.
Qed.

Lemma window_start len :
  1 <= len ->
  jsmax (Fin 1) (jssub (orElse (jsmax (Fin 1) (ofNat len)) (Fin 1)) 2)
  = Fin (inject_Z (Z.max 1 (Z.of_nat len - 2))).
Proof.
  intros H. rewrite (anchor_count len H). unfold ofNat.
  change (Fin 1) with (Fin (inject_Z 1)). change 2%Q with (inject_Z 2).
  rewrite jssub_ints, jsmax_ints. reflexivity.
Qed.

(** X28. The preview after an append shows the first new line, in green.
    On a kernel whose width is at least one and whose buffer shows
    something and does not end in a newline, after [write_append] with
    [ensureNewParagraph] set and a text that is not blank the diff record
    is anchored at the number of lines there were; its window starts two
    lines above that, but not above line 1; and the row of the first new
    line - the entry of [htmlLines] at index [min 3 n], counted from 0,
    where [n] is the number of lines there were: the fourth row of the
    window, or the second or the third when there were one or two lines -
    is the text of that line, which is not empty, escaped and inside the
    [newLineFull] span. *)
Theorem append_preview_shows_new_line paper appended :
  1 <= Paper.cols paper ->
  isEmpty (trim appended) = false ->
  endsWithNewline (Paper.text paper) = false ->
  inkOf (Paper.text paper) <> [] ->
  exists beforeVis v0 rest r paper' d,
    getVisualLines paper = Some beforeVis
    /\ write_append appended true paper = Some (r, paper')
    /\ getVisualLines paper' = Some (beforeVis ++ v0 :: rest)
    /\ lineNo v0 = length beforeVis + 1
    /\ text v0 <> []
    /\ Paper.diff paper' = Some d
    /\ Diff.anchorLine d = ofNat (length beforeVis)
    /\ Annot.startLine (Diff.annot d)
       = Fin (inject_Z (Z.max 1 (Z.of_nat (length beforeVis) - 2)))
    /\ nth_error (Annot.htmlLines (Diff.annot d)) (Nat.min 3 (length beforeVis))
       = Some (lit "<span class=" ++ dquote :: lit "newLineFull"
               ++ dquote :: lit ">" ++ escHtml (text v0) ++ lit "</span>").
Proof.
  intros Hcols Hq Hnl Hink.
  set (old := Paper.text paper) in *.
  set (ins := trim appended) in *.
  assert (Hins : ins <> []) by (destruct ins; [discriminate | discriminate]).
  destruct (append_layout old ins (Paper.cols paper) Hcols Hins)
    as (beforeVis & v0 & rest & Eb & Ea & Hlen & _ & Hno & Htext & Hhl).
  { intros c r. apply trim_head. }
  { intros r c. apply trim_last. }
  { exact Hink. }
  assert (Hold : 1 <= length old).
  { destruct old; [contradiction Hink; reflexivity | simpl; lia]. }
  assert (HNL : true && (0 <? length old) && negb (endsWithNewline old) = true).
  { rewrite Hnl. destruct (Nat.ltb_spec 0 (length old)) as [_|H]; [reflexivity|lia]. }
  exists beforeVis, v0, rest. eexists. eexists. eexists.
  split; [exact Eb|]. split.
  { unfold write_append. unfold getVisualLines at 1. fold old.
    rewrite Eb. fold ins. rewrite Hq. cbv zeta. fold old. rewrite HNL.
    set (paper1 := {| Paper.cols := _; Paper.rev := _;
                      Paper.text := _; Paper.diff := Paper.diff paper |}).
    assert (E1' : getVisualLines paper1 = Some (beforeVis ++ v0 :: rest))
      by exact Ea.
    rewrite E1'. unfold _setDiff. rewrite E1'. rewrite Hhl.
    rewrite (window_start _ Hlen), (anchor_count _ Hlen). reflexivity. }
  split; [exact Ea|]. split; [exact Hno|]. split; [exact Htext|].
  split; [reflexivity|]. split; [reflexivity|]. split; [reflexivity|].
  cbn [Diff.annot].
  rewrite (window_row (beforeVis ++ v0 :: rest) _ _ (Nat.min 3 (length beforeVis)) v0).
  - destruct (text v0) as [|c t] eqn:Et; [contradiction|]. simpl isEmpty. cbv iota.
    rewrite Hno. cbn [length seq existsb]. rewrite Nat.eqb_refl. reflexivity.
  - lia.
  - lia.
  - replace (Z.to_nat (Z.max 1 (Z.of_nat (length beforeVis) - 2)) - 1
             + Nat.min 3 (length beforeVis)) with (length beforeVis) by lia.
    apply nth_error_middle.
Qed.

Lemma append_preview_shows_new_line_witness :
  exists beforeVis v0 rest r paper',
    getVisualLines (seed (lit "one two") (createPaperKernel defaultCols))
    = Some beforeVis
    /\ write_append (lit " three ") true
         (seed (lit "one two") (createPaperKernel defaultCols))
       = Some (r, paper')
    /\ getVisualLines paper' = Some (beforeVis ++ v0 :: rest)
    /\ text v0 <> [].
Proof.
  destruct (append_preview_shows_new_line
              (seed (lit "one two") (createPaperKernel defaultCols))
              (lit " three "))
    as (beforeVis & v0 & rest & r & paper' & d & E & W & A & _ & T & _).
  - simpl. unfold defaultCols. lia.
  - reflexivity.
  - reflexivity.
  - discriminate.
  - exists beforeVis, v0, rest, r, paper'.
    split; [exact E|]. split; [exact W|]. split; [exact A | exact T].
Defined.
